(** * Particle engine: a shallow embedding of [CanvasParticleEngine]

    Source: [src/lib/particles/particle-engine.ts] and
    [src/lib/particles/types.ts].

    A JavaScript [number] is an IEEE 754 binary64 value, which is what Rocq's
    primitive [float] is, so every numeric field of the engine is a [float]
    and every arithmetic expression of the source is the same expression
    here, rounded the same way.  Loop counters and array indices, which the
    source keeps integral, are [Z].

    Effects are explicit: [Math.random] is an oracle indexed by a cursor kept
    in the state, [performance.now] and the animation-frame timestamp are
    arguments, a promise's [resolve] continuation is a promise identifier
    recorded in a log when it is invoked, the [onBusyChange] callback is a
    log of the values it was called with, and a thrown error is a value of
    an [Outcome] type. *)

From Stdlib Require Import ZArith List Bool Lia String.
From Stdlib Require Import Floats.
Import ListNotations.

Set Warnings "-inexact-float".
Set Implicit Arguments.

(** ** JavaScript numbers and the [Math] functions the engine calls *)

Module JS.

(** An integral loop counter or typed-array element read as a number. *)
Definition of_Z (z : Z) : float :=
  if (z <? 0)%Z then (- of_uint63 (Uint63.of_Z (- z)))%float
  else of_uint63 (Uint63.of_Z z).

(** [a > b], [a <= b] and [a < b]: each is false as soon as an operand is
    NaN, as in JavaScript. *)
Definition gt (a b : float) : bool := (b <? a)%float.
Definition le (a b : float) : bool := (a <=? b)%float.
Definition lt (a b : float) : bool := (a <? b)%float.

Definition Math_abs (a : float) : float := abs a.
Definition Math_sqrt (a : float) : float := sqrt a.

(** [Math.max] and [Math.min]: NaN if an operand is NaN, and [+0] is larger
    than [-0]. *)
Definition Math_max (a b : float) : float :=
  if is_nan a || is_nan b then nan
  else if (a <? b)%float then b
  else if (b <? a)%float then a
  else if get_sign a then b else a.

Definition Math_min (a b : float) : float :=
  if is_nan a || is_nan b then nan
  else if (a <? b)%float then a
  else if (b <? a)%float then b
  else if get_sign a then a else b.

(** [Math.round]: the integer nearest to the argument, ties towards
    [+infinity]; zeros, infinities and NaN are returned as they are, and a
    result of zero keeps the sign of a negative argument. *)
Definition Math_round (f : float) : float :=
  match Prim2SF f with
  | S754_finite s m e =>
      if (0 <=? e)%Z then f
      else
        let d := (2 ^ (- e))%Z in
        let n := if s then Z.neg m else Z.pos m in
        let r := ((2 * n + d) / (2 * d))%Z in
        if (r =? 0)%Z then (if s then neg_zero else zero) else of_Z r
  | _ => f
  end.

(** Reading element [i] of a typed array: [undefined] out of range, which
    every numeric use turns into NaN. *)
Definition index (data : list Z) (i : Z) : float :=
  if (i <? 0)%Z then nan
  else match nth_error data (Z.to_nat i) with
       | Some v => of_Z v
       | None => nan
       end.

End JS.

(** ** Types ([types.ts] and the interfaces of [particle-engine.ts]) *)

Inductive SlotId := hero | menu_photo | menu_video | menu_music | menu_blog.

Definition SlotId_eqb (a b : SlotId) : bool :=
  match a, b with
  | hero, hero | menu_photo, menu_photo | menu_video, menu_video
  | menu_music, menu_music | menu_blog, menu_blog => true
  | _, _ => false
  end.

Inductive Direction := top | bottom.

Module SlotRect.
Record t := mk { x : float; y : float; w : float; h : float }.
End SlotRect.

Module SlotConfig.
Record t := mk
  { id : SlotId; imageSrc : string; rect : SlotRect.t; direction : Direction }.
Definition with_rect (c : t) (r : SlotRect.t) : t :=
  mk (id c) (imageSrc c) r (direction c).
End SlotConfig.

(** The template string [rgba(r, g, b, a)], kept as its four components. *)
Module Color.
Record t := rgba { r : float; g : float; b : float; a : float }.
End Color.

Module Particle.
Record t := mk
  { x : float; y : float; tx : float; ty : float; vx : float; vy : float;
    color : Color.t; alpha : float; size : float }.
End Particle.

Module AmbientParticle.
Record t := mk
  { x : float; y : float; vx : float; vy : float;
    baseVx : float; baseVy : float; size : float; alpha : float }.
End AmbientParticle.

Definition PromiseId := nat.

Inductive TransitionStatus := assembling | disassembling.

Module TransitionState.
Record t := mk
  { status : TransitionStatus; startTime : float; durationMs : float;
    resolve : PromiseId; direction : Direction }.
End TransitionState.

Inductive SlotStatus :=
  | hidden | st_assembling | assembled | st_disassembling.

Definition status_of (s : TransitionStatus) : SlotStatus :=
  match s with
  | assembling => st_assembling
  | disassembling => st_disassembling
  end.

(** What [getImageData] returns. *)
Module ImageData.
Record t := mk { data : list Z; width : Z; height : Z }.
End ImageData.

(** The image of a slot.  [raster sw sh] is the pixel buffer the browser
    yields when the decoded image is drawn, scaled, on a scratch canvas of
    [sw] by [sh] pixels and read back; [None] when no 2D context can be had
    for the scratch canvas. *)
Module HTMLImageElement.
Record t := mk
  { complete : bool; raster : float -> float -> option ImageData.t }.
End HTMLImageElement.

Inductive PromiseState := Pending | Fulfilled | Rejected.

Module SlotState.
Record t := mk
  { config : SlotConfig.t;
    visible : bool;
    image : HTMLImageElement.t;
    imageReady : PromiseState;
    particles : list Particle.t;
    status : SlotStatus;
    transition : option TransitionState.t;
    alpha : float }.
Definition with_config (s : t) (c : SlotConfig.t) : t :=
  mk c (visible s) (image s) (imageReady s) (particles s) (status s)
     (transition s) (alpha s).
Definition with_particles (s : t) (ps : list Particle.t) : t :=
  mk (config s) (visible s) (image s) (imageReady s) ps (status s)
     (transition s) (alpha s).
Definition with_alpha (s : t) (a : float) : t :=
  mk (config s) (visible s) (image s) (imageReady s) (particles s) (status s)
     (transition s) a.
End SlotState.

Module MouseState.
Record t := mk
  { x : float; y : float; lastX : float; lastY : float;
    vx : float; vy : float; active : bool; down : bool }.
End MouseState.

(** ** Constants *)

Definition DEFAULT_DURATION_MS : float := 1200.
Definition SAMPLE_STEP : Z := 2.
Definition MIN_ALPHA_THRESHOLD : float := 24.
Definition PARTICLE_SIZE : float := 0.92.
Definition SPRING : float := 0.085.
Definition FRICTION : float := 0.84.
Definition INTERACTION_RADIUS : float := 110.
Definition INTERACTION_FORCE : float := 0.42.
Definition DRAG_FORCE : float := 0.72.
Definition AMBIENT_PARTICLE_COUNT : float := 70.
Definition AMBIENT_MOUSE_RADIUS : float := 180.
Definition AMBIENT_MOUSE_FORCE : float := 0.0028.
Definition AMBIENT_FRICTION : float := 0.985.
Definition AMBIENT_RETURN : float := 0.008.
Definition ASSEMBLE_ALPHA_RATE : float := 0.12.
Definition DISASSEMBLE_ALPHA_RATE : float := 0.1.
Definition TRANSITION_SETTLE_DISTANCE : float := 1.4.
Definition TRANSITION_SETTLE_VELOCITY : float := 0.12.

Definition clamp (value min max : float) : float :=
  JS.Math_min max (JS.Math_max min value).

(** ** [prepareParticles]: sampling an image into particles *)

(** The body of the inner loop at pixel [(x, y)]: [None] is [continue]. *)
Definition samplePixel (rect : SlotRect.t) (img : ImageData.t) (y x : Z)
  : option Particle.t :=
  let index := ((y * ImageData.width img + x) * 4)%Z in
  let alpha := JS.index (ImageData.data img) (index + 3) in
  if JS.lt alpha MIN_ALPHA_THRESHOLD then None
  else
    let px := (SlotRect.x rect + JS.of_Z x + JS.of_Z SAMPLE_STEP * 0.5)%float in
    let py := (SlotRect.y rect + JS.of_Z y + JS.of_Z SAMPLE_STEP * 0.5)%float in
    Some (Particle.mk px py px py 0 0
            (Color.rgba (JS.index (ImageData.data img) index)
                        (JS.index (ImageData.data img) (index + 1))
                        (JS.index (ImageData.data img) (index + 2))
                        (alpha / 255)%float)
            (alpha / 255)%float
            PARTICLE_SIZE).

Definition push (ps : list Particle.t) (o : option Particle.t) :=
  match o with
  | Some p => ps ++ [p]
  | None => ps
  end.

(** [for (let x = x0; x < width; x += SAMPLE_STEP)], with the particles
    pushed so far as accumulator.  [fuel] bounds the number of iterations. *)
Fixpoint sampleRow (fuel : nat) (rect : SlotRect.t) (img : ImageData.t)
  (y x : Z) (acc : list Particle.t) : list Particle.t :=
  match fuel with
  | O => acc
  | S fuel' =>
      if (x <? ImageData.width img)%Z
      then sampleRow fuel' rect img y (x + SAMPLE_STEP)
             (push acc (samplePixel rect img y x))
      else acc
  end.

(** [for (let y = y0; y < height; y += SAMPLE_STEP)]. *)
Fixpoint sampleRows (fuel : nat) (rect : SlotRect.t) (img : ImageData.t)
  (y : Z) (acc : list Particle.t) : list Particle.t :=
  match fuel with
  | O => acc
  | S fuel' =>
      if (y <? ImageData.height img)%Z
      then sampleRows fuel' rect img (y + SAMPLE_STEP)
             (sampleRow (Z.to_nat (ImageData.width img)) rect img y 0 acc)
      else acc
  end.

(** The two nested loops.  A loop that starts at 0 and advances by 2 while
    below [n] runs at most [n] times, so the fuel given never runs out
    (see [sampleRow_full] and [samplePoints_In]). *)
Definition samplePoints (rect : SlotRect.t) (img : ImageData.t)
  : list Particle.t :=
  sampleRows (Z.to_nat (ImageData.height img)) rect img 0 [].

(** The size of the scratch canvas. *)
Definition sampleWidth (rect : SlotRect.t) : float :=
  JS.Math_max 1 (JS.Math_round (SlotRect.w rect)).

Definition sampleHeight (rect : SlotRect.t) : float :=
  JS.Math_max 1 (JS.Math_round (SlotRect.h rect)).

Definition prepareParticles (slot : SlotState.t) : SlotState.t :=
  let rect := SlotConfig.rect (SlotState.config slot) in
  if JS.le (SlotRect.w rect) 0 || JS.le (SlotRect.h rect) 0
     || negb (HTMLImageElement.complete (SlotState.image slot))
  then slot
  else
    match HTMLImageElement.raster (SlotState.image slot)
            (sampleWidth rect) (sampleHeight rect) with
    | None => slot
    | Some img => SlotState.with_particles slot (samplePoints rect img)
    end.

(** ** The engine

    The private fields of [CanvasParticleEngine] that the operations below
    read or write, followed by the engine's effects on its environment:
    [busyCalls] lists the arguments of the calls made to [onBusyChange],
    oldest first; [resolved] lists the promises whose [resolve] has been
    invoked, oldest first; [nextPromise] names the next promise to be
    created; [random] is the sequence of values [Math.random] returns and
    [randomCursor] the position of its next value. *)

(** The [pointerEvents] style of the canvas; the engine's [canvas] field is
    the canvas it is mounted on, if any, known by that style. *)
Inductive PointerEvents := pe_none | pe_auto.

Module Engine.
Record t := mk
  { canvas : option PointerEvents;
    context : bool;
    width : float;
    height : float;
    slots : list (SlotId * SlotState.t);
    ambientParticles : list AmbientParticle.t;
    lastFrameTime : float;
    interactionEnabled : bool;
    busy : bool;
    mouse : MouseState.t;
    busyCalls : list bool;
    resolved : list PromiseId;
    nextPromise : PromiseId;
    random : nat -> float;
    randomCursor : nat }.
Definition with_slots (e : t) (m : list (SlotId * SlotState.t)) : t :=
  mk (canvas e) (context e) (width e) (height e) m (ambientParticles e)
     (lastFrameTime e) (interactionEnabled e) (busy e) (mouse e)
     (busyCalls e) (resolved e) (nextPromise e) (random e) (randomCursor e).
Definition with_ambientParticles (e : t) (ps : list AmbientParticle.t) : t :=
  mk (canvas e) (context e) (width e) (height e) (slots e) ps
     (lastFrameTime e) (interactionEnabled e) (busy e) (mouse e)
     (busyCalls e) (resolved e) (nextPromise e) (random e) (randomCursor e).
Definition with_lastFrameTime (e : t) (ts : float) : t :=
  mk (canvas e) (context e) (width e) (height e) (slots e)
     (ambientParticles e) ts (interactionEnabled e) (busy e) (mouse e)
     (busyCalls e) (resolved e) (nextPromise e) (random e) (randomCursor e).
Definition with_interaction (e : t) (c : option PointerEvents) (b : bool) : t :=
  mk c (context e) (width e) (height e) (slots e) (ambientParticles e)
     (lastFrameTime e) b (busy e) (mouse e)
     (busyCalls e) (resolved e) (nextPromise e) (random e) (randomCursor e).
Definition with_busy (e : t) (b : bool) (calls : list bool) : t :=
  mk (canvas e) (context e) (width e) (height e) (slots e)
     (ambientParticles e) (lastFrameTime e) (interactionEnabled e) b
     (mouse e) calls (resolved e) (nextPromise e) (random e)
     (randomCursor e).
Definition with_mouse (e : t) (m : MouseState.t) : t :=
  mk (canvas e) (context e) (width e) (height e) (slots e)
     (ambientParticles e) (lastFrameTime e) (interactionEnabled e) (busy e)
     m (busyCalls e) (resolved e) (nextPromise e) (random e)
     (randomCursor e).
Definition with_resolved (e : t) (l : list PromiseId) : t :=
  mk (canvas e) (context e) (width e) (height e) (slots e)
     (ambientParticles e) (lastFrameTime e) (interactionEnabled e) (busy e)
     (mouse e) (busyCalls e) l (nextPromise e) (random e) (randomCursor e).
Definition with_nextPromise (e : t) (n : PromiseId) : t :=
  mk (canvas e) (context e) (width e) (height e) (slots e)
     (ambientParticles e) (lastFrameTime e) (interactionEnabled e) (busy e)
     (mouse e) (busyCalls e) (resolved e) n (random e) (randomCursor e).
Definition with_randomCursor (e : t) (k : nat) : t :=
  mk (canvas e) (context e) (width e) (height e) (slots e)
     (ambientParticles e) (lastFrameTime e) (interactionEnabled e) (busy e)
     (mouse e) (busyCalls e) (resolved e) (nextPromise e) (random e) k.
End Engine.

(** The slot registry is a JavaScript [Map]: keys are unique and iteration
    follows insertion order. *)
Fixpoint slots_get (m : list (SlotId * SlotState.t)) (id : SlotId)
  : option SlotState.t :=
  match m with
  | [] => None
  | (k, s) :: m' => if SlotId_eqb k id then Some s else slots_get m' id
  end.

Fixpoint slots_set (m : list (SlotId * SlotState.t)) (id : SlotId)
  (s : SlotState.t) : list (SlotId * SlotState.t) :=
  match m with
  | [] => [(id, s)]
  | (k, s0) :: m' =>
      if SlotId_eqb k id then (k, s) :: m' else (k, s0) :: slots_set m' id s
  end.

(** The errors the engine throws, and how a call to [assemble] or
    [disassemble] can stand: rejected with an error, suspended on the
    image's readiness, or returned from [runTransition] with a promise that
    is pending until its [resolve] is invoked. *)
Inductive EngineError :=
  | SlotNotRegistered (id : SlotId)
  | NoMeasurableRect (id : SlotId)
  | ImageLoadFailed.

Inductive Outcome :=
  | Threw (err : EngineError)
  | Suspended
  | Started (p : PromiseId).

Definition randomBetween (u min max : float) : float :=
  (min + u * (max - min))%float.

Definition setInteractionEnabled (e : Engine.t) (enabled : bool) : Engine.t :=
  Engine.with_interaction e
    (match Engine.canvas e with
     | Some _ => Some (if enabled then pe_none else pe_auto)
     | None => None
     end)
    enabled.

Definition hasOpenTransition (s : SlotState.t) : bool :=
  match SlotState.transition s with
  | Some _ => true
  | None => false
  end.

(** [if (this.busy !== hasTransition) { ... }], shared by [updateBusyState]
    and [render]. *)
Definition setBusy (e : Engine.t) (hasTransition : bool) : Engine.t :=
  if Bool.eqb (Engine.busy e) hasTransition then e
  else Engine.with_busy e hasTransition (Engine.busyCalls e ++ [hasTransition]).

Definition updateBusyState (e : Engine.t) : Engine.t :=
  setBusy e (existsb (fun kv => hasOpenTransition (snd kv)) (Engine.slots e)).

(** [getOffscreenY], given the value [u] drawn from [Math.random]. *)
Definition getOffscreenY (height u : float) (direction : Direction)
  (rect : SlotRect.t) : float :=
  match direction with
  | bottom =>
      (height + randomBetween u 16 (JS.Math_max 48 (SlotRect.h rect * 0.6)))%float
  | top =>
      (- randomBetween u 40 (JS.Math_max 120 (SlotRect.h rect * 1.25)))%float
  end.

(** The body of the reseeding loop of [runTransition] for one particle; it
    draws four values from [Math.random], at [k], [k+1], [k+2] and [k+3]. *)
Definition seedParticle (rnd : nat -> float) (status : TransitionStatus)
  (rect : SlotRect.t) (startY : float) (k : nat) (p : Particle.t)
  : Particle.t :=
  let rx := SlotRect.x rect in
  let rw := SlotRect.w rect in
  let rh := SlotRect.h rect in
  match status with
  | assembling =>
      Particle.mk
        (randomBetween (rnd k) rx (rx + rw))
        (startY - randomBetween (rnd (k + 1)%nat) 0 (rh * 0.25))
        (Particle.tx p) (Particle.ty p)
        (randomBetween (rnd (k + 2)%nat) (-0.35) 0.35)
        (randomBetween (rnd (k + 3)%nat) 1.2 3.6)
        (Particle.color p) (Particle.alpha p) (Particle.size p)
  | disassembling =>
      Particle.mk
        (Particle.x p) (Particle.y p)
        (randomBetween (rnd k) rx (rx + rw))
        (startY - randomBetween (rnd (k + 1)%nat) 0 (rh * 0.35))
        (Particle.vx p + randomBetween (rnd (k + 2)%nat) (-0.4) 0.4)
        (Particle.vy p + randomBetween (rnd (k + 3)%nat) (-1.2) 0.4)
        (Particle.color p) (Particle.alpha p) (Particle.size p)
  end.

Fixpoint seedParticles (rnd : nat -> float) (status : TransitionStatus)
  (rect : SlotRect.t) (startY : float) (k : nat) (ps : list Particle.t)
  : list Particle.t :=
  match ps with
  | [] => []
  | p :: ps' =>
      seedParticle rnd status rect startY k p
        :: seedParticles rnd status rect startY (k + 4) ps'
  end.

(** The slot as [runTransition] leaves it: visible, with the requested
    status, its particles reseeded, its alpha reset and the new transition
    record installed.  [getOffscreenY] draws the value at the cursor, the
    particles the values after it; [now] is [performance.now()]. *)
Definition reseedSlot (e : Engine.t) (slot : SlotState.t)
  (status : TransitionStatus) (direction : Direction) (durationMs now : float)
  : SlotState.t :=
  let rect := SlotConfig.rect (SlotState.config slot) in
  let k := Engine.randomCursor e in
  let startY :=
    getOffscreenY (Engine.height e) (Engine.random e k) direction rect in
  SlotState.mk (SlotState.config slot) true (SlotState.image slot)
    (SlotState.imageReady slot)
    (seedParticles (Engine.random e) status rect startY (S k)
       (SlotState.particles slot))
    (status_of status)
    (Some (TransitionState.mk status now durationMs (Engine.nextPromise e)
             direction))
    (match status with assembling => 0 | disassembling => 1 end)%float.

(** The promises [runTransition] has resolved once past its first two
    statements: the stale transition's, if the slot had one in flight. *)
Definition resolveStale (e : Engine.t) (slot : SlotState.t) : list PromiseId :=
  match SlotState.transition slot with
  | Some stale => Engine.resolved e ++ [TransitionState.resolve stale]
  | None => Engine.resolved e
  end.

(** [runTransition] on the slot registered under [id]. *)
Definition runTransition (e : Engine.t) (id : SlotId) (slot : SlotState.t)
  (status : TransitionStatus) (direction : Direction) (durationMs now : float)
  : Outcome * Engine.t :=
  let rect := SlotConfig.rect (SlotState.config slot) in
  if JS.le (SlotRect.w rect) 0 || JS.le (SlotRect.h rect) 0
  then (Threw (NoMeasurableRect (SlotConfig.id (SlotState.config slot))), e)
  else
    let e1 :=
      setInteractionEnabled (Engine.with_resolved e (resolveStale e slot))
        false in
    let slot' := reseedSlot e slot status direction durationMs now in
    let e2 :=
      Engine.with_randomCursor
        (Engine.with_nextPromise
           (Engine.with_slots e1 (slots_set (Engine.slots e) id slot'))
           (S (Engine.nextPromise e)))
        (S (Engine.randomCursor e)
         + 4 * List.length (SlotState.particles slot))%nat in
    (Started (Engine.nextPromise e), updateBusyState e2).

(** [AssembleOptions] and [DisassembleOptions]. *)
Module Options.
Record t := mk { direction : option Direction; durationMs : option float }.
Definition empty : t := mk None None.
End Options.

Definition orElse {A} (o : option A) (d : A) : A :=
  match o with
  | Some v => v
  | None => d
  end.

(** The common body of [assemble] and [disassemble]: [getSlot], then
    [await slot.imageReady], then [runTransition], for a call that nothing
    comes in between: with the image ready the call resumes on the engine
    as the call found it.  A call that finds the image still loading stays
    suspended and leaves the engine as it is.  (What happens between a
    call and its resumption is accounted for further down, by
    [suspendCall] and [resumeCall].) *)
Definition requestTransition (status : TransitionStatus) (e : Engine.t)
  (id : SlotId) (opts : Options.t) (now : float) : Outcome * Engine.t :=
  match slots_get (Engine.slots e) id with
  | None => (Threw (SlotNotRegistered id), e)
  | Some slot =>
      match SlotState.imageReady slot with
      | Pending => (Suspended, e)
      | Rejected =>
          (Threw ImageLoadFailed, e)
      | Fulfilled =>
          runTransition e id slot status
            (orElse (Options.direction opts)
                    (SlotConfig.direction (SlotState.config slot)))
            (orElse (Options.durationMs opts) DEFAULT_DURATION_MS)
            now
      end
  end.

Definition assemble (e : Engine.t) (id : SlotId) (opts : Options.t)
  (now : float) : Outcome * Engine.t :=
  requestTransition assembling e id opts now.

Definition disassemble (e : Engine.t) (id : SlotId) (opts : Options.t)
  (now : float) : Outcome * Engine.t :=
  requestTransition disassembling e id opts now.

(** ** Transition settle detection: [updateTransition] *)

(** The negation of the test that clears [settled] in the loop over the
    particles. *)
Definition particleSettled (p : Particle.t) : bool :=
  let dx := (Particle.tx p - Particle.x p)%float in
  let dy := (Particle.ty p - Particle.y p)%float in
  negb (JS.gt (JS.Math_abs dx) TRANSITION_SETTLE_DISTANCE
        || JS.gt (JS.Math_abs dy) TRANSITION_SETTLE_DISTANCE
        || JS.gt (JS.Math_abs (Particle.vx p)) TRANSITION_SETTLE_VELOCITY
        || JS.gt (JS.Math_abs (Particle.vy p)) TRANSITION_SETTLE_VELOCITY).

Definition snapToTarget (p : Particle.t) : Particle.t :=
  Particle.mk (Particle.tx p) (Particle.ty p) (Particle.tx p) (Particle.ty p)
    0 0 (Particle.color p) (Particle.alpha p) (Particle.size p).

(** The alpha smoothing step that opens [updateTransition]. *)
Definition smoothAlpha (status : TransitionStatus) (alpha : float) : float :=
  match status with
  | assembling => (alpha + (1 - alpha) * ASSEMBLE_ALPHA_RATE)%float
  | disassembling => (alpha + (0 - alpha) * DISASSEMBLE_ALPHA_RATE)%float
  end.

(** [updateTransition]: the slot after the call, and the promise whose
    [resolve] the call invoked, if it invoked one.  The loop that looks for
    an unsettled particle and breaks at the first one is [forallb]. *)
Definition updateTransition (slot : SlotState.t) (timestamp : float)
  : SlotState.t * option PromiseId :=
  match SlotState.transition slot with
  | None => (slot, None)
  | Some transition =>
      let slot1 :=
        SlotState.with_alpha slot
          (smoothAlpha (TransitionState.status transition)
                       (SlotState.alpha slot)) in
      let elapsed := (timestamp - TransitionState.startTime transition)%float in
      if JS.lt elapsed (TransitionState.durationMs transition)
      then (slot1, None)
      else if negb (forallb particleSettled (SlotState.particles slot1))
      then (slot1, None)
      else
        match TransitionState.status transition with
        | assembling =>
            (SlotState.mk (SlotState.config slot1) (SlotState.visible slot1)
               (SlotState.image slot1) (SlotState.imageReady slot1)
               (map snapToTarget (SlotState.particles slot1))
               assembled None 1,
             Some (TransitionState.resolve transition))
        | disassembling =>
            (SlotState.mk (SlotState.config slot1) false
               (SlotState.image slot1) (SlotState.imageReady slot1)
               (SlotState.particles slot1)
               hidden None 0,
             Some (TransitionState.resolve transition))
        end
  end.

(** ** Physics: [updateImageParticles] and [updateAmbientParticles] *)

(** One iteration of the loop of [updateImageParticles]. *)
Definition updateImageParticle (mouse : MouseState.t)
  (interactionEnabled : bool) (delta : float) (p : Particle.t) : Particle.t :=
  let activeMouse := MouseState.active mouse && interactionEnabled in
  let radiusSq := (INTERACTION_RADIUS * INTERACTION_RADIUS)%float in
  let interactionForce :=
    if MouseState.down mouse then DRAG_FORCE else INTERACTION_FORCE in
  let springX := ((Particle.tx p - Particle.x p) * SPRING)%float in
  let springY := ((Particle.ty p - Particle.y p) * SPRING)%float in
  let vx1 := (Particle.vx p + springX * delta)%float in
  let vy1 := (Particle.vy p + springY * delta)%float in
  let dx := (Particle.x p - MouseState.x mouse)%float in
  let dy := (Particle.y p - MouseState.y mouse)%float in
  let distanceSq := (dx * dx + dy * dy)%float in
  let pushed :=
    activeMouse && (JS.lt distanceSq radiusSq && JS.gt distanceSq 0.0001) in
  let distance := JS.Math_sqrt distanceSq in
  let influence := (1 - distance / INTERACTION_RADIUS)%float in
  let force := (influence * interactionForce)%float in
  let nx := (dx / distance)%float in
  let ny := (dy / distance)%float in
  let vx2 :=
    if pushed
    then (vx1 + (nx * force * delta + MouseState.vx mouse * 0.012 * influence))%float
    else vx1 in
  let vy2 :=
    if pushed
    then (vy1 + (ny * force * delta + MouseState.vy mouse * 0.012 * influence))%float
    else vy1 in
  let vx3 := (vx2 * FRICTION)%float in
  let vy3 := (vy2 * FRICTION)%float in
  Particle.mk
    (Particle.x p + vx3 * delta) (Particle.y p + vy3 * delta)
    (Particle.tx p) (Particle.ty p) vx3 vy3
    (Particle.color p) (Particle.alpha p) (Particle.size p).

Definition updateImageParticles (mouse : MouseState.t)
  (interactionEnabled : bool) (slot : SlotState.t) (delta : float)
  : SlotState.t :=
  SlotState.with_particles slot
    (map (updateImageParticle mouse interactionEnabled delta)
         (SlotState.particles slot)).

(** The edge wrap at the end of the loop of [updateAmbientParticles]. *)
Definition wrap (v extent : float) : float :=
  if JS.lt v (-8) then (extent + 8)%float
  else if JS.gt v (extent + 8) then (-8)%float
  else v.

(** One iteration of the loop of [updateAmbientParticles]. *)
Definition updateAmbientParticle (mouse : MouseState.t) (width height : float)
  (delta : float) (p : AmbientParticle.t) : AmbientParticle.t :=
  let activeMouse := MouseState.active mouse in
  let radiusSq := (AMBIENT_MOUSE_RADIUS * AMBIENT_MOUSE_RADIUS)%float in
  let vx1 :=
    (AmbientParticle.vx p
     + (AmbientParticle.baseVx p - AmbientParticle.vx p) * AMBIENT_RETURN * delta)%float in
  let vy1 :=
    (AmbientParticle.vy p
     + (AmbientParticle.baseVy p - AmbientParticle.vy p) * AMBIENT_RETURN * delta)%float in
  let dx := (AmbientParticle.x p - MouseState.x mouse)%float in
  let dy := (AmbientParticle.y p - MouseState.y mouse)%float in
  let distanceSq := (dx * dx + dy * dy)%float in
  let pushed :=
    activeMouse && (JS.lt distanceSq radiusSq && JS.gt distanceSq 0.0001) in
  let distance := JS.Math_sqrt distanceSq in
  let influence := (1 - distance / AMBIENT_MOUSE_RADIUS)%float in
  let vx2 :=
    if pushed then (vx1 + dx * AMBIENT_MOUSE_FORCE * influence * delta)%float
    else vx1 in
  let vy2 :=
    if pushed then (vy1 + dy * AMBIENT_MOUSE_FORCE * influence * delta)%float
    else vy1 in
  let vx3 := (vx2 * AMBIENT_FRICTION)%float in
  let vy3 := (vy2 * AMBIENT_FRICTION)%float in
  AmbientParticle.mk
    (wrap (AmbientParticle.x p + vx3 * delta) width)
    (wrap (AmbientParticle.y p + vy3 * delta) height)
    vx3 vy3
    (AmbientParticle.baseVx p) (AmbientParticle.baseVy p)
    (AmbientParticle.size p) (AmbientParticle.alpha p).

Definition updateAmbientParticles (e : Engine.t) (delta : float) : Engine.t :=
  Engine.with_ambientParticles e
    (map (updateAmbientParticle (Engine.mouse e) (Engine.width e)
            (Engine.height e) delta)
         (Engine.ambientParticles e)).

(** ** The render loop

    [drawAmbientParticles] and [drawSlot] only paint and are left out, as is
    the rescheduling of the next animation frame: a frame is a call of
    [render] with its timestamp. *)

(** Whether the loop of [render] skips the slot. *)
Definition skipped (slot : SlotState.t) : bool :=
  negb (SlotState.visible slot)
  || Nat.eqb (List.length (SlotState.particles slot)) 0.

(** The body of the loop over the slots: the slot after the frame, whether
    the body set [hasTransition], and the promise it resolved, if any. *)
Definition renderSlot (mouse : MouseState.t) (interactionEnabled : bool)
  (timestamp delta : float) (slot : SlotState.t)
  : SlotState.t * bool * option PromiseId :=
  if skipped slot then (slot, false, None)
  else
    let '(slot1, r) :=
      match SlotState.transition slot with
      | Some _ => updateTransition slot timestamp
      | None => (slot, None)
      end in
    (updateImageParticles mouse interactionEnabled slot1 delta,
     hasOpenTransition slot, r).

Fixpoint renderSlots (mouse : MouseState.t) (interactionEnabled : bool)
  (timestamp delta : float) (m : list (SlotId * SlotState.t))
  : list (SlotId * SlotState.t) * bool * list PromiseId :=
  match m with
  | [] => ([], false, [])
  | (id, slot) :: m' =>
      let '(slot', t, r) :=
        renderSlot mouse interactionEnabled timestamp delta slot in
      let '(rest, ts, rs) :=
        renderSlots mouse interactionEnabled timestamp delta m' in
      ((id, slot') :: rest, t || ts,
       match r with Some p => p :: rs | None => rs end)
  end.

Definition frameDelta (e : Engine.t) (timestamp : float) : float :=
  let deltaMs :=
    if (Engine.lastFrameTime e =? 0)%float then 16.67%float
    else (timestamp - Engine.lastFrameTime e)%float in
  clamp (deltaMs / 16.67) 0.6 1.6.

Definition render (e : Engine.t) (timestamp : float) : Engine.t :=
  if negb (Engine.context e) then e
  else
    let delta := frameDelta e timestamp in
    let e1 := updateAmbientParticles (Engine.with_lastFrameTime e timestamp) delta in
    let '(slots', hasTransition, rs) :=
      renderSlots (Engine.mouse e) (Engine.interactionEnabled e)
        timestamp delta (Engine.slots e) in
    let e2 :=
      Engine.with_resolved (Engine.with_slots e1 slots')
        (Engine.resolved e ++ rs) in
    let e3 := setBusy e2 hasTransition in
    if hasTransition then e3 else setInteractionEnabled e3 true.

(** ** Slot registration and geometry *)

Definition registerSlot (e : Engine.t) (config : SlotConfig.t) : Engine.t :=
  match slots_get (Engine.slots e) (SlotConfig.id config) with
  | Some existing =>
      Engine.with_slots e
        (slots_set (Engine.slots e) (SlotConfig.id config)
           (prepareParticles (SlotState.with_config existing config)))
  | None =>
      Engine.with_slots e
        (slots_set (Engine.slots e) (SlotConfig.id config)
           (SlotState.mk config false
              (HTMLImageElement.mk false (fun _ _ => None))
              Pending [] hidden None 0))
  end.

(** The [load] event of a slot's image: the image is complete with the
    given pixels, [imageReady] is fulfilled and its [then] callback samples
    the particles. *)
Definition imageLoaded (e : Engine.t) (id : SlotId)
  (raster : float -> float -> option ImageData.t) : Engine.t :=
  match slots_get (Engine.slots e) id with
  | None => e
  | Some s =>
      Engine.with_slots e
        (slots_set (Engine.slots e) id
           (prepareParticles
              (SlotState.mk (SlotState.config s) (SlotState.visible s)
                 (HTMLImageElement.mk true raster) Fulfilled
                 (SlotState.particles s) (SlotState.status s)
                 (SlotState.transition s) (SlotState.alpha s))))
  end.

(** The part of [updateSlotRect] that runs on the slot found. *)
Definition updateSlotRect_slot (slot : SlotState.t) (rect : SlotRect.t)
  : SlotState.t :=
  let slot1 :=
    SlotState.with_config slot
      (SlotConfig.with_rect (SlotState.config slot) rect) in
  if HTMLImageElement.complete (SlotState.image slot1) then
    let slot2 := prepareParticles slot1 in
    match SlotState.status slot2 with
    | assembled =>
        SlotState.with_particles slot2
          (map snapToTarget (SlotState.particles slot2))
    | _ => slot2
    end
  else slot1.

Definition updateSlotRect (e : Engine.t) (id : SlotId) (rect : SlotRect.t)
  : Engine.t :=
  match slots_get (Engine.slots e) id with
  | None => e
  | Some slot =>
      Engine.with_slots e
        (slots_set (Engine.slots e) id (updateSlotRect_slot slot rect))
  end.

Definition setSlotVisible (e : Engine.t) (id : SlotId) (visible : bool)
  : Engine.t :=
  match slots_get (Engine.slots e) id with
  | None => e
  | Some s =>
      Engine.with_slots e
        (slots_set (Engine.slots e) id
           (if visible
            then SlotState.mk (SlotState.config s) true (SlotState.image s)
                   (SlotState.imageReady s) (SlotState.particles s)
                   (SlotState.status s) (SlotState.transition s)
                   (SlotState.alpha s)
            else SlotState.mk (SlotState.config s) false (SlotState.image s)
                   (SlotState.imageReady s) (SlotState.particles s)
                   hidden None 0))
  end.

(** ** Pointer handlers *)

Definition handlePointerMove (e : Engine.t) (clientX clientY : float)
  : Engine.t :=
  let m := Engine.mouse e in
  Engine.with_mouse e
    (MouseState.mk clientX clientY (MouseState.x m) (MouseState.y m)
       (clientX - MouseState.x m) (clientY - MouseState.y m)
       true (MouseState.down m)).

Definition handlePointerDown (e : Engine.t) : Engine.t :=
  let m := Engine.mouse e in
  Engine.with_mouse e
    (MouseState.mk (MouseState.x m) (MouseState.y m) (MouseState.lastX m)
       (MouseState.lastY m) (MouseState.vx m) (MouseState.vy m)
       (MouseState.active m) true).

Definition handlePointerUp (e : Engine.t) : Engine.t :=
  let m := Engine.mouse e in
  Engine.with_mouse e
    (MouseState.mk (MouseState.x m) (MouseState.y m) (MouseState.lastX m)
       (MouseState.lastY m) (MouseState.vx m) (MouseState.vy m)
       (MouseState.active m) false).

Definition handlePointerLeave (e : Engine.t) : Engine.t :=
  let m := Engine.mouse e in
  Engine.with_mouse e
    (MouseState.mk (MouseState.x m) (MouseState.y m) (MouseState.lastX m)
       (MouseState.lastY m) 0 0 false false).

(** ** Runs of the engine

    Between two calls of its public operations the engine is driven by
    animation frames and pointer events only. *)

Inductive Event :=
  | Frame (timestamp : float)
  | PointerMove (clientX clientY : float)
  | PointerDown
  | PointerUp
  | PointerLeave.

Definition step (e : Engine.t) (ev : Event) : Engine.t :=
  match ev with
  | Frame timestamp => render e timestamp
  | PointerMove clientX clientY => handlePointerMove e clientX clientY
  | PointerDown => handlePointerDown e
  | PointerUp => handlePointerUp e
  | PointerLeave => handlePointerLeave e
  end.

Definition run (e : Engine.t) (evs : list Event) : Engine.t :=
  fold_left step evs e.

(** [n] consecutive frames, 16.67 ms apart, the first at [timestamp]. *)
Fixpoint frames (n : nat) (timestamp : float) : list Event :=
  match n with
  | O => []
  | S n' => Frame timestamp :: frames n' (timestamp + 16.67)%float
  end.

(** ** Vocabulary of the statements *)

(** The RGBA bytes of pixel [(x, y)] of a pixel buffer. *)
Definition pixel (img : ImageData.t) (x y : Z) : option (Z * Z * Z * Z) :=
  let i := Z.to_nat ((y * ImageData.width img + x) * 4) in
  match nth_error (ImageData.data img) i,
        nth_error (ImageData.data img) (i + 1),
        nth_error (ImageData.data img) (i + 2),
        nth_error (ImageData.data img) (i + 3) with
  | Some r, Some g, Some b, Some a => Some (r, g, b, a)
  | _, _, _, _ => None
  end.

(** What [getImageData] guarantees of its result: four bytes per pixel. *)
Definition wellFormed (img : ImageData.t) : Prop :=
  (0 <= ImageData.width img)%Z /\ (0 <= ImageData.height img)%Z
  /\ Z.of_nat (List.length (ImageData.data img))
     = (4 * ImageData.width img * ImageData.height img)%Z
  /\ Forall (fun v => (0 <= v <= 255)%Z) (ImageData.data img).

(** Half the sampling stride, as [prepareParticles] computes it. *)
Definition halfStep : float := (JS.of_Z SAMPLE_STEP * 0.5)%float.

(** The particle that sampling makes of the pixel [(x, y)] with bytes
    [(r, g, b, a)]. *)
Definition sampleOf (rect : SlotRect.t) (x y r g b a : Z) : Particle.t :=
  let px := (SlotRect.x rect + JS.of_Z x + halfStep)%float in
  let py := (SlotRect.y rect + JS.of_Z y + halfStep)%float in
  Particle.mk px py px py 0 0
    (Color.rgba (JS.of_Z r) (JS.of_Z g) (JS.of_Z b) (JS.of_Z a / 255))
    (JS.of_Z a / 255) PARTICLE_SIZE.

(** A particle that sits on its target and does not move. *)
Definition atRest (p : Particle.t) : Prop :=
  Particle.x p = Particle.tx p /\ Particle.y p = Particle.ty p
  /\ Particle.vx p = 0%float /\ Particle.vy p = 0%float.

(** "The pixel's alpha channel exceeds the minimum opacity threshold." *)
Definition exceedsThreshold (a : Z) : bool :=
  JS.gt (JS.of_Z a) MIN_ALPHA_THRESHOLD.

(** "The snap-to-target loop of [updateSlotRect] changes nothing." *)
Definition snapLoopChangesNothing (slot : SlotState.t) (rect : SlotRect.t)
  : Prop :=
  updateSlotRect_slot slot rect
  = prepareParticles
      (SlotState.with_config slot
         (SlotConfig.with_rect (SlotState.config slot) rect)).

(** Elapsed time has reached a duration when it is not below it, and a
    magnitude stays within a bound when it is not above it; these are the
    tests as [updateTransition] writes them.  For numbers other than NaN
    they are [duration <= elapsed] and [a <= bound] (see [reached_le] and
    [notAbove_le]). *)
Definition reached (elapsed duration : float) : Prop :=
  JS.lt elapsed duration = false.

Definition notAbove (a bound : float) : Prop := JS.gt a bound = false.

(** The convergence condition of settle detection on one particle. *)
Definition withinSettleBounds (p : Particle.t) : Prop :=
  notAbove (JS.Math_abs (Particle.tx p - Particle.x p)) TRANSITION_SETTLE_DISTANCE
  /\ notAbove (JS.Math_abs (Particle.ty p - Particle.y p)) TRANSITION_SETTLE_DISTANCE
  /\ notAbove (JS.Math_abs (Particle.vx p)) TRANSITION_SETTLE_VELOCITY
  /\ notAbove (JS.Math_abs (Particle.vy p)) TRANSITION_SETTLE_VELOCITY.

(** "Position within the settle distance of its target on each axis and
    velocity components below the settle threshold." *)
Definition withinDistanceAndBelowThreshold (p : Particle.t) : bool :=
  JS.le (JS.Math_abs (Particle.tx p - Particle.x p)) TRANSITION_SETTLE_DISTANCE
  && JS.le (JS.Math_abs (Particle.ty p - Particle.y p)) TRANSITION_SETTLE_DISTANCE
  && JS.lt (JS.Math_abs (Particle.vx p)) TRANSITION_SETTLE_VELOCITY
  && JS.lt (JS.Math_abs (Particle.vy p)) TRANSITION_SETTLE_VELOCITY.

(** The status a transition of each kind ends in. *)
Definition finalStatus (status : TransitionStatus) : SlotStatus :=
  match status with
  | assembling => assembled
  | disassembling => hidden
  end.

(** The alpha a transition of each kind ends in. *)
Definition finalAlpha (status : TransitionStatus) : float :=
  match status with
  | assembling => 1%float
  | disassembling => 0%float
  end.

(** "The disassemble alpha rate is strictly greater than the assemble
    alpha rate." *)
Definition disassembleRateIsGreater : Prop :=
  JS.gt DISASSEMBLE_ALPHA_RATE ASSEMBLE_ALPHA_RATE = true.

(** "Calling [assemble] on an assembled slot is a no-op that returns
    immediately settled": the engine is left as it was and the promise
    returned is already resolved. *)
Definition assembleIsNoOp (e : Engine.t) (id : SlotId) (opts : Options.t)
  (now : float) : Prop :=
  snd (assemble e id opts now) = e
  /\ exists p, fst (assemble e id opts now) = Started p
               /\ In p (Engine.resolved (snd (assemble e id opts now))).

(** [assemble] or [disassemble], by the status they ask for. *)
Definition request (status : TransitionStatus)
  : Engine.t -> SlotId -> Options.t -> float -> Outcome * Engine.t :=
  match status with
  | assembling => assemble
  | disassembling => disassemble
  end.

(** The rect precondition of [runTransition]. *)
Definition measurable (rect : SlotRect.t) : Prop :=
  JS.le (SlotRect.w rect) 0 = false /\ JS.le (SlotRect.h rect) 0 = false.

(** Whether the loop of [render] sets [hasTransition] at the slot: the slot
    is not skipped and has a transition in flight. *)
Definition counted (slot : SlotState.t) : bool :=
  negb (skipped slot) && hasOpenTransition slot.

(** The promises a frame can resolve: those of the transitions in flight
    of the slots the loop of [render] does not skip. *)
Definition slotPromises (slot : SlotState.t) : list PromiseId :=
  if skipped slot then []
  else match SlotState.transition slot with
       | Some t => [TransitionState.resolve t]
       | None => []
       end.

Definition openPromises (m : list (SlotId * SlotState.t)) : list PromiseId :=
  flat_map (fun kv => slotPromises (snd kv)) m.


(** The busy flag after each event of a run. *)
Fixpoint busyTrace (e : Engine.t) (evs : list Event) : list bool :=
  match evs with
  | [] => []
  | ev :: evs' => Engine.busy (step e ev) :: busyTrace (step e ev) evs'
  end.

(** "Two frame updates that differ only in the pointer state produce
    identical updated states for every slot particle and every ambient
    particle." *)
Definition pointerIndependent (e : Engine.t) (m1 m2 : MouseState.t)
  (timestamp : float) : Prop :=
  Engine.slots (render (Engine.with_mouse e m1) timestamp)
  = Engine.slots (render (Engine.with_mouse e m2) timestamp)
  /\ Engine.ambientParticles (render (Engine.with_mouse e m1) timestamp)
     = Engine.ambientParticles (render (Engine.with_mouse e m2) timestamp).

(** What a run keeps true of a slot without particles: the slot is stored
    unchanged, and the promise [p] is neither resolved nor the promise of a
    transition that a frame could complete. *)
Definition untouched (id : SlotId) (slot : SlotState.t) (p : PromiseId)
  (e : Engine.t) : Prop :=
  slots_get (Engine.slots e) id = Some slot
  /\ ~ In p (Engine.resolved e)
  /\ ~ In p (openPromises (Engine.slots e)).


(** Promise identifiers are handed out in increasing order: in a
    consistent engine every promise that has been resolved and every
    promise held by a transition record was created before the next one
    to be created. *)
Definition createdBefore (n : PromiseId) (slot : SlotState.t) : Prop :=
  forall t, SlotState.transition slot = Some t ->
            (TransitionState.resolve t < n)%nat.

Definition consistent (e : Engine.t) : Prop :=
  Forall (fun p => (p < Engine.nextPromise e)%nat) (Engine.resolved e)
  /\ Forall (fun kv => createdBefore (Engine.nextPromise e) (snd kv))
            (Engine.slots e).

(** The states an engine can be in: it starts without slots and without
    resolved promises, and is then driven by calls of its operations, image
    loads, frames and pointer events. *)
Inductive reachable : Engine.t -> Prop :=
  | reach_start e :
      Engine.slots e = [] -> Engine.resolved e = [] -> reachable e
  | reach_registerSlot e config :
      reachable e -> reachable (registerSlot e config)
  | reach_imageLoaded e id raster :
      reachable e -> reachable (imageLoaded e id raster)
  | reach_updateSlotRect e id rect :
      reachable e -> reachable (updateSlotRect e id rect)
  | reach_setSlotVisible e id visible :
      reachable e -> reachable (setSlotVisible e id visible)
  | reach_setInteractionEnabled e enabled :
      reachable e -> reachable (setInteractionEnabled e enabled)
  | reach_assemble e id opts now :
      reachable e -> reachable (snd (assemble e id opts now))
  | reach_disassemble e id opts now :
      reachable e -> reachable (snd (disassemble e id opts now))
  | reach_step e ev :
      reachable e -> reachable (step e ev).

(** ** The rest of the engine: construction, mounting, resizing, teardown

    The canvas backing store, the context transform, the device pixel
    ratio, the event listeners and the animation-frame handle are drawing
    and scheduling state; like the draw calls they are left out: a pointer
    event or a frame is a call of its handler, made by the environment. *)

(** What a synchronous method throws. *)
Inductive Thrown :=
  | Canvas2DUnavailable
  | InvalidArrayLength.

(** How a synchronous method ends, and the engine it leaves. *)
Inductive Completion :=
  | Normal (e : Engine.t)
  | Throw (err : Thrown) (e : Engine.t).

Definition engineAfter (c : Completion) : Engine.t :=
  match c with
  | Normal e => e
  | Throw _ e => e
  end.

(** The field initialisers and the constructor; [random] is the sequence
    [Math.random] will return. *)
Definition constructed (random : nat -> float) : Engine.t :=
  Engine.mk None false 0 0 [] [] 0 true false
    (MouseState.mk 0 0 0 0 0 0 false false) [] [] 0%nat random 0%nat.

(** The body of the loop of [createAmbientParticles]; it draws six values
    from [Math.random], from [k] on. *)
Definition ambientParticle (rnd : nat -> float) (width height : float)
  (k : nat) : AmbientParticle.t :=
  let baseVx := randomBetween (rnd k) (-0.08) 0.08 in
  let baseVy := randomBetween (rnd (k + 1)%nat) (-0.05) 0.05 in
  AmbientParticle.mk
    (randomBetween (rnd (k + 2)%nat) 0 width)
    (randomBetween (rnd (k + 3)%nat) 0 height)
    baseVx baseVy baseVx baseVy
    (randomBetween (rnd (k + 4)%nat) 0.5 1.4)
    (randomBetween (rnd (k + 5)%nat) 0.14 0.36).

(** [for (let i = i0; i < targetCount; i += 1)]. *)
Fixpoint ambientLoop (fuel : nat) (rnd : nat -> float) (width height : float)
  (targetCount : float) (i : Z) (k : nat) : list AmbientParticle.t :=
  match fuel with
  | O => []
  | S fuel' =>
      if JS.lt (JS.of_Z i) targetCount
      then ambientParticle rnd width height k
             :: ambientLoop fuel' rnd width height targetCount (i + 1) (k + 6)
      else []
  end.

Definition ambientTargetCount (width height : float) : float :=
  let count := JS.Math_max 32 (JS.Math_round (width * height / 26000)) in
  JS.Math_min AMBIENT_PARTICLE_COUNT count.

(** [createAmbientParticles].  [new Array(targetCount)] throws a
    [RangeError] when [targetCount] is NaN; otherwise [targetCount] is at
    most 70 and the loop, given 70 iterations, stops at its guard (see
    [ambientLoop_fuel]). *)
Definition createAmbientParticles (e : Engine.t) : Completion :=
  if JS.le (Engine.width e) 0 || JS.le (Engine.height e) 0 then Normal e
  else
    let targetCount := ambientTargetCount (Engine.width e) (Engine.height e) in
    if is_nan targetCount then Throw InvalidArrayLength e
    else
      let ps :=
        ambientLoop 70 (Engine.random e) (Engine.width e) (Engine.height e)
          targetCount 0 (Engine.randomCursor e) in
      Normal
        (Engine.with_randomCursor (Engine.with_ambientParticles e ps)
           (Engine.randomCursor e + 6 * List.length ps)%nat).

(** [mount]: [pointerEvents] is the style of the canvas handed over,
    [hasContext] whether it yields a 2D context, [now] is
    [performance.now()]. *)
Definition mount (e : Engine.t) (pointerEvents : PointerEvents)
  (hasContext : bool) (now : float) : Completion :=
  let e1 :=
    Engine.mk (Some pointerEvents) hasContext (Engine.width e)
      (Engine.height e) (Engine.slots e) (Engine.ambientParticles e)
      (Engine.lastFrameTime e) (Engine.interactionEnabled e) (Engine.busy e)
      (Engine.mouse e) (Engine.busyCalls e) (Engine.resolved e)
      (Engine.nextPromise e) (Engine.random e) (Engine.randomCursor e) in
  if negb hasContext then Throw Canvas2DUnavailable e1
  else createAmbientParticles (Engine.with_lastFrameTime e1 now).

(** [resize]; the third argument of the source, the device pixel ratio,
    only scales the backing store. *)
Definition resize (e : Engine.t) (width height : float) : Completion :=
  match Engine.canvas e with
  | None => Normal e
  | Some _ =>
      if negb (Engine.context e) then Normal e
      else
        createAmbientParticles
          (Engine.mk (Engine.canvas e) (Engine.context e) width height
             (Engine.slots e) (Engine.ambientParticles e)
             (Engine.lastFrameTime e) (Engine.interactionEnabled e)
             (Engine.busy e) (Engine.mouse e) (Engine.busyCalls e)
             (Engine.resolved e) (Engine.nextPromise e) (Engine.random e)
             (Engine.randomCursor e))
  end.

Definition destroy (e : Engine.t) : Engine.t :=
  Engine.mk None false (Engine.width e) (Engine.height e) [] []
    (Engine.lastFrameTime e) (Engine.interactionEnabled e) (Engine.busy e)
    (Engine.mouse e) (Engine.busyCalls e) (Engine.resolved e)
    (Engine.nextPromise e) (Engine.random e) (Engine.randomCursor e).

(** ** Histories

    What happens to an engine over time: calls of its public methods, the
    [load] events of its images, and the frames and pointer events the
    browser delivers.  A call that throws leaves the engine as the throw
    found it.  A call of [assemble] or [disassemble] is one that resumes
    before anything else happens if its image is ready, and never if it is
    not; calls that stay suspended while other things happen are added
    further down, with the courses of a runtime (see [course_history]).
    The [error] event of an image is not part of a history. *)

Inductive Call :=
  | CallMount (pointerEvents : PointerEvents) (hasContext : bool) (now : float)
  | CallResize (width height : float)
  | CallDestroy
  | CallRegisterSlot (config : SlotConfig.t)
  | ImageLoads (id : SlotId) (raster : float -> float -> option ImageData.t)
  | CallUpdateSlotRect (id : SlotId) (rect : SlotRect.t)
  | CallSetSlotVisible (id : SlotId) (visible : bool)
  | CallSetInteractionEnabled (enabled : bool)
  | CallAssemble (id : SlotId) (opts : Options.t) (now : float)
  | CallDisassemble (id : SlotId) (opts : Options.t) (now : float)
  | Delivers (ev : Event).

Definition call (e : Engine.t) (c : Call) : Engine.t :=
  match c with
  | CallMount pointerEvents hasContext now =>
      engineAfter (mount e pointerEvents hasContext now)
  | CallResize width height => engineAfter (resize e width height)
  | CallDestroy => destroy e
  | CallRegisterSlot config => registerSlot e config
  | ImageLoads id raster => imageLoaded e id raster
  | CallUpdateSlotRect id rect => updateSlotRect e id rect
  | CallSetSlotVisible id visible => setSlotVisible e id visible
  | CallSetInteractionEnabled enabled => setInteractionEnabled e enabled
  | CallAssemble id opts now => snd (assemble e id opts now)
  | CallDisassemble id opts now => snd (disassemble e id opts now)
  | Delivers ev => step e ev
  end.

Definition history (e : Engine.t) (cs : list Call) : Engine.t :=
  fold_left call cs e.

(** ** Vocabulary of the invariants *)

(** The promise held by the transition record of a slot, if it has one. *)
Definition heldPromise (slot : SlotState.t) : list PromiseId :=
  match SlotState.transition slot with
  | Some t => [TransitionState.resolve t]
  | None => []
  end.

Definition heldPromises (m : list (SlotId * SlotState.t)) : list PromiseId :=
  flat_map (fun kv => heldPromise (snd kv)) m.

(** Status, transition record, visibility and alpha of a slot agree: a slot
    is assembling or disassembling exactly while it holds a transition
    record of that kind, and is then visible; without a record it is hidden
    with alpha 0, or assembled, visible and with alpha 1. *)
Definition coherent (slot : SlotState.t) : Prop :=
  match SlotState.transition slot with
  | Some t =>
      SlotState.status slot = status_of (TransitionState.status t)
      /\ SlotState.visible slot = true
  | None =>
      (SlotState.status slot = hidden /\ SlotState.alpha slot = 0%float)
      \/ (SlotState.status slot = assembled
          /\ SlotState.alpha slot = 1%float
          /\ SlotState.visible slot = true)
  end.

(** The registry is a map keyed by the identifier in each slot's
    configuration. *)
Definition keyed (m : list (SlotId * SlotState.t)) : Prop :=
  NoDup (map fst m)
  /\ Forall (fun kv => SlotConfig.id (SlotState.config (snd kv)) = fst kv) m.

(** Every promise created so far is in at most one place, and once: the
    log of resolved promises, or the transition record of one slot. *)
Definition promisesAccounted (e : Engine.t) : Prop :=
  NoDup (Engine.resolved e ++ heldPromises (Engine.slots e))
  /\ Forall (fun p => (p < Engine.nextPromise e)%nat)
            (Engine.resolved e ++ heldPromises (Engine.slots e)).

Definition sound (e : Engine.t) : Prop :=
  keyed (Engine.slots e)
  /\ Forall (fun kv => coherent (snd kv)) (Engine.slots e)
  /\ promisesAccounted e.

(** A promise that was created and is neither resolved nor held by any
    transition record: nothing is left that could resolve it. *)
Definition lost (p : PromiseId) (e : Engine.t) : Prop :=
  (p < Engine.nextPromise e)%nat
  /\ ~ In p (Engine.resolved e)
  /\ ~ In p (heldPromises (Engine.slots e)).

(** A log of the calls of [onBusyChange] in which each call reports a
    change: the values alternate, starting from the opposite of [b]. *)
Fixpoint flips (b : bool) (calls : list bool) : Prop :=
  match calls with
  | [] => True
  | x :: calls' => x = negb b /\ flips x calls'
  end.

(** What a frame leaves of a particle: its target, colour, alpha weight
    and size. *)
Definition identity (p : Particle.t)
  : float * float * Color.t * float * float :=
  (Particle.tx p, Particle.ty p, Particle.color p, Particle.alpha p,
   Particle.size p).

(** A number within the bounds, or NaN. *)
Definition within (lo hi v : float) : Prop :=
  is_nan v = true \/ (JS.le lo v = true /\ JS.le v hi = true).

(** The log of the calls of [onBusyChange] tells the busy flag: each call
    reported a change, and the last value reported is the flag. *)
Definition busyLogged (e : Engine.t) : Prop :=
  flips false (Engine.busyCalls e)
  /\ last (Engine.busyCalls e) false = Engine.busy e.

(** A finite number other than zero. *)
Definition finiteNonzero (v : float) : Prop :=
  exists s m e, Prim2SF v = S754_finite s m e.

(** A particle resting on a target whose coordinates are such numbers. *)
Definition settledOnTarget (p : Particle.t) : Prop :=
  atRest p
  /\ finiteNonzero (Particle.tx p) /\ finiteNonzero (Particle.ty p).

(** The number of 2 by 2 blocks that cover a pixel buffer. *)
Definition sampleBlocks (img : ImageData.t) : nat :=
  (Z.to_nat ((ImageData.width img + 1) / 2)
   * Z.to_nat ((ImageData.height img + 1) / 2))%nat.

(** Whether [registerSlot] has been called for the identifier since the
    last [destroy], over the calls of a history; [before] tells whether the
    slot was registered when the history began. *)
Definition registeredAfter (before : bool) (cs : list Call) (id : SlotId)
  : bool :=
  fold_left
    (fun registered c =>
       match c with
       | CallRegisterSlot config =>
           registered || SlotId_eqb (SlotConfig.id config) id
       | CallDestroy => false
       | _ => registered
       end)
    cs before.

(** * The canvas layer: the caller of the engine

    Source: [GlobalCanvasLayer] and [src/lib/particles/slot-config.ts]. *)

Definition HERO_SLOT : SlotConfig.t :=
  SlotConfig.mk hero "/images/hero.png" (SlotRect.mk 0 0 0 0) top.

Definition HOME_MENU_SLOTS : list SlotConfig.t :=
  [ SlotConfig.mk menu_photo "/images/menu-photo.png" (SlotRect.mk 0 0 0 0) top;
    SlotConfig.mk menu_video "/images/menu-video.png" (SlotRect.mk 0 0 0 0) top;
    SlotConfig.mk menu_music "/images/menu-music.png" (SlotRect.mk 0 0 0 0) top;
    SlotConfig.mk menu_blog "/images/menu-blog.png" (SlotRect.mk 0 0 0 0) top ].

Definition HOME_SLOT_IDS : list SlotId :=
  [hero; menu_photo; menu_video; menu_music; menu_blog].

(** What [getBoundingClientRect] returns. *)
Module DOMRect.
Record t := mk { left : float; top : float; width : float; height : float }.
End DOMRect.

Module GlobalCanvasLayer.

(** The document as the layer reads it: the bounding rect of the anchor
    element of each slot, for the slots that have one. *)
Definition Document := SlotId -> option DOMRect.t.

(** The first effect, run with a canvas and no engine yet: the engine it
    stores in [engineRef], or none when [mount] throws. *)
Definition init (random : nat -> float) (pointerEvents : PointerEvents)
  (hasContext : bool) (now : float) : option Engine.t :=
  match mount (constructed random) pointerEvents hasContext now with
  | Throw _ _ => None
  | Normal engine =>
      Some (fold_left registerSlot HOME_MENU_SLOTS
              (registerSlot engine HERO_SLOT))
  end.

(** [syncSlotRect]: the value returned and [engineRef.current] after the
    call. *)
Definition syncSlotRect (document : Document) (engineRef : option Engine.t)
  (id : SlotId) : bool * option Engine.t :=
  match document id, engineRef with
  | Some rect, Some engine =>
      let slotRect :=
        SlotRect.mk (DOMRect.left rect) (DOMRect.top rect)
          (DOMRect.width rect) (DOMRect.height rect) in
      let shown :=
        JS.gt (DOMRect.width rect) 0 && JS.gt (DOMRect.height rect) 0 in
      (shown,
       Some (setSlotVisible (updateSlotRect engine id slotRect) id shown))
  | _, _ => (false, engineRef)
  end.

Definition refreshAllSlotRects (document : Document)
  (engineRef : option Engine.t) : option Engine.t :=
  fold_left (fun ref slotId => snd (syncSlotRect document ref slotId))
    HOME_SLOT_IDS engineRef.

(** The [assemble] and [disassemble] of the context value: how the call of
    the engine stands, if there is an engine to call, and [engineRef.current]
    after it. *)
Definition transition
  (method : Engine.t -> SlotId -> Options.t -> float -> Outcome * Engine.t)
  (document : Document) (engineRef : option Engine.t) (id : SlotId)
  (durationMs : option float) (now : float)
  : option Outcome * option Engine.t :=
  match snd (syncSlotRect document engineRef id) with
  | Some engine =>
      let '(outcome, engine') :=
        method engine id (Options.mk None durationMs) now in
      (Some outcome, Some engine')
  | None => (None, None)
  end.

(** The engine's [assemble], behind the layer's. *)
Definition assemble := transition assemble.

Definition disassemble := transition disassemble.

End GlobalCanvasLayer.

(** * The home scene controller

    Source: [src/lib/scenes/home-scene-controller.ts].

    [expandMenu] is an asynchronous method.  It calls, at once, an
    asynchronous function, the expansion, stores the promise of it in
    [inFlightExpand] and awaits that promise; its [finally] block clears
    [inFlightExpand] when [expandMenu] resumes, which is after the
    expansion has ended and other code may have run.  The body of the
    expansion is written here as a term of a small language of
    asynchronous computations, read in the order of the source, and run by
    a machine that carries it from one [await] to the next: a call of
    [expandMenu], the firing of a timer, the settling of [Promise.all] and
    the resumption of [expandMenu] are the events that drive the machine.
    The callbacks of the controller are its environment: [refreshSlotRect]
    answers as the environment decides, [assemble] returns a new promise,
    [onStateChange] is logged; they are taken not to call [expandMenu]
    themselves. *)

Module HomeScene.

Inductive HomeSceneState := collapsed | expanding | expanded.

Definition MENU_SLOT_IDS : list SlotId :=
  [menu_photo; menu_video; menu_music; menu_blog].

(** What [expandMenu] can fail with: the error it throws itself, or the
    reason one of the awaited [assemble] promises was rejected with. *)
Inductive Failure :=
  | NoMeasurableMenuRect (slotId : SlotId)
  | AssembleRejected (reason : EngineError).

(** Asynchronous computations: the operations [expandMenu] performs, each
    with the computation that follows it.  [AwaitDelay] and [AwaitAll]
    suspend the computation; [AwaitAll] resumes with the rejection of
    [Promise.all], if it was rejected. *)
Inductive Async (A : Type) : Type :=
  | Return (a : A)
  | Throw (error : Failure)
  | SetState (state : HomeSceneState) (k : Async A)
  | RefreshSlotRect (slotId : SlotId) (k : bool -> Async A)
  | Assemble (slotId : SlotId) (durationMs : float) (k : PromiseId -> Async A)
  | AwaitDelay (ms : float) (k : Async A)
  | AwaitAll (promises : list PromiseId) (k : option Failure -> Async A).

Arguments Return {A} a.
Arguments Throw {A} error.
Arguments SetState {A} state k.
Arguments RefreshSlotRect {A} slotId k.
Arguments Assemble {A} slotId durationMs k.
Arguments AwaitDelay {A} ms k.
Arguments AwaitAll {A} promises k.

Fixpoint bind {A B : Type} (m : Async A) (f : A -> Async B) : Async B :=
  match m with
  | Return a => f a
  | Throw error => Throw error
  | SetState state k => SetState state (bind k f)
  | RefreshSlotRect slotId k => RefreshSlotRect slotId (fun b => bind (k b) f)
  | Assemble slotId durationMs k =>
      Assemble slotId durationMs (fun p => bind (k p) f)
  | AwaitDelay ms k => AwaitDelay ms (bind k f)
  | AwaitAll promises k => AwaitAll promises (fun r => bind (k r) f)
  end.

(** [try { m } catch (error) { handler error }]. *)
Fixpoint tryCatch {A : Type} (m : Async A) (handler : Failure -> Async A)
  : Async A :=
  match m with
  | Return a => Return a
  | Throw error => handler error
  | SetState state k => SetState state (tryCatch k handler)
  | RefreshSlotRect slotId k =>
      RefreshSlotRect slotId (fun b => tryCatch (k b) handler)
  | Assemble slotId durationMs k =>
      Assemble slotId durationMs (fun p => tryCatch (k p) handler)
  | AwaitDelay ms k => AwaitDelay ms (tryCatch k handler)
  | AwaitAll promises k => AwaitAll promises (fun r => tryCatch (k r) handler)
  end.

(** [await delay(ms)] and [await Promise.all(promises)]: the latter throws
    what [Promise.all] was rejected with. *)
Definition delay (ms : float) : Async unit := AwaitDelay ms (Return tt).

Definition awaitAll (promises : list PromiseId) : Async unit :=
  AwaitAll promises
    (fun r => match r with
              | None => Return tt
              | Some error => Throw error
              end).

(** The loop of [expandMenu] from the slot at [index] on, with the promises
    pushed on [pendingAssemblies] so far; it returns [pendingAssemblies]. *)
Fixpoint startAssemblies (staggerMs durationMs : float) (index : nat)
  (slotIds : list SlotId) (pendingAssemblies : list PromiseId)
  : Async (list PromiseId) :=
  match slotIds with
  | [] => Return pendingAssemblies
  | slotId :: rest =>
      bind (if (0 <? index)%nat then delay staggerMs else Return tt)
        (fun _ =>
           RefreshSlotRect slotId
             (fun measured =>
                if negb measured then Throw (NoMeasurableMenuRect slotId)
                else
                  Assemble slotId durationMs
                    (fun p =>
                       startAssemblies staggerMs durationMs (S index) rest
                         (pendingAssemblies ++ [p]))))
  end.

(** What follows the loop inside the [try] block, and the [catch] block. *)
Definition finish (pendingAssemblies : list PromiseId) : Async unit :=
  bind (awaitAll pendingAssemblies) (fun _ => SetState expanded (Return tt)).

Definition recover (error : Failure) : Async unit :=
  SetState collapsed (Throw error).

(** The asynchronous function that [expandMenu] calls at once and stores
    the promise of in [inFlightExpand]. *)
Definition expansion (staggerMs durationMs : float) : Async unit :=
  tryCatch
    (bind (startAssemblies staggerMs durationMs 0 MENU_SLOT_IDS []) finish)
    recover.

(** The controller.  [inFlightExpand] holds the promise of the expansion,
    known here by what is left of the expansion: the computation suspended
    at an [await] while the promise is pending, [Return] once it is
    fulfilled and [Throw] once it is rejected. *)
Module Controller.
Record t := mk
  { state : HomeSceneState;
    staggerMs : float;
    durationMs : float;
    inFlightExpand : option (Async unit) }.
End Controller.

(** The constructor, given [options.staggerMs] and [options.durationMs]. *)
Definition constructed (staggerMs durationMs : option float) : Controller.t :=
  Controller.mk collapsed (orElse staggerMs 350%float)
    (orElse durationMs 1100%float) None.

(** What the controller has done to its environment. *)
Inductive Effect :=
  | StateChanged (state : HomeSceneState)
  | RectRefreshed (slotId : SlotId) (measured : bool)
  | AssembleCalled (slotId : SlotId) (durationMs : float) (promise : PromiseId)
  | TimerSet (ms : float)
  | AllAwaited (promises : list PromiseId)
  | Settled (rejection : option Failure).

(** The controller in its environment: [effects] lists what it has done,
    oldest first; [measures] is the sequence of answers [refreshSlotRect]
    gives and [refreshed] the number of answers given; [nextPromise] names
    the next promise [assemble] returns. *)
Module Machine.
Record t := mk
  { controller : Controller.t;
    effects : list Effect;
    measures : nat -> bool;
    refreshed : nat;
    nextPromise : PromiseId }.
End Machine.

Definition started (staggerMs durationMs : option float)
  (measures : nat -> bool) : Machine.t :=
  Machine.mk (constructed staggerMs durationMs) [] measures 0%nat 0%nat.

(** [setState]. *)
Definition setState (m : Machine.t) (state : HomeSceneState) : Machine.t :=
  let c := Machine.controller m in
  Machine.mk
    (Controller.mk state (Controller.staggerMs c) (Controller.durationMs c)
       (Controller.inFlightExpand c))
    (Machine.effects m ++ [StateChanged state])
    (Machine.measures m) (Machine.refreshed m) (Machine.nextPromise m).

Definition setInFlight (m : Machine.t) (inFlight : option (Async unit))
  (done : list Effect) : Machine.t :=
  let c := Machine.controller m in
  Machine.mk
    (Controller.mk (Controller.state c) (Controller.staggerMs c)
       (Controller.durationMs c) inFlight)
    (Machine.effects m ++ done)
    (Machine.measures m) (Machine.refreshed m) (Machine.nextPromise m).

(** Running the expansion until it suspends at an [await], where its
    promise stays pending, or ends, where its promise settles; in both
    cases the promise is the one in [inFlightExpand]. *)
Fixpoint advance (m : Machine.t) (a : Async unit) : Machine.t :=
  match a with
  | Return _ => setInFlight m (Some a) [Settled None]
  | Throw error => setInFlight m (Some a) [Settled (Some error)]
  | SetState state k => advance (setState m state) k
  | RefreshSlotRect slotId k =>
      let measured := Machine.measures m (Machine.refreshed m) in
      advance
        (Machine.mk (Machine.controller m)
           (Machine.effects m ++ [RectRefreshed slotId measured])
           (Machine.measures m) (S (Machine.refreshed m))
           (Machine.nextPromise m))
        (k measured)
  | Assemble slotId durationMs k =>
      let p := Machine.nextPromise m in
      advance
        (Machine.mk (Machine.controller m)
           (Machine.effects m ++ [AssembleCalled slotId durationMs p])
           (Machine.measures m) (Machine.refreshed m) (S p))
        (k p)
  | AwaitDelay ms _ => setInFlight m (Some a) [TimerSet ms]
  | AwaitAll promises _ => setInFlight m (Some a) [AllAwaited promises]
  end.

(** What happens to the controller: [expandMenu] is called, the timer of a
    [delay] fires, [Promise.all] settles, or the call of [expandMenu] that
    started the expansion resumes after [await this.inFlightExpand].  The
    browser resumes that call once the expansion has ended and the code
    then running has returned; here it may resume at any time after the
    expansion has ended. *)
Inductive Event :=
  | ExpandMenu
  | TimerFires
  | AllSettle (rejection : option Failure)
  | ExpandMenuResumes.

(** The [finally] block of [expandMenu]. *)
Definition clearInFlight (m : Machine.t) : Machine.t :=
  let c := Machine.controller m in
  Machine.mk
    (Controller.mk (Controller.state c) (Controller.staggerMs c)
       (Controller.durationMs c) None)
    (Machine.effects m) (Machine.measures m) (Machine.refreshed m)
    (Machine.nextPromise m).

(** [expandMenu], up to its [await]. *)
Definition expandMenu (m : Machine.t) : Machine.t :=
  let c := Machine.controller m in
  match Controller.state c with
  | expanded => m
  | _ =>
      match Controller.inFlightExpand c with
      | Some _ => m
      | None =>
          advance (setState m expanding)
            (expansion (Controller.staggerMs c) (Controller.durationMs c))
      end
  end.

Definition step (m : Machine.t) (ev : Event) : Machine.t :=
  match ev, Controller.inFlightExpand (Machine.controller m) with
  | ExpandMenu, _ => expandMenu m
  | TimerFires, Some (AwaitDelay _ k) => advance m k
  | AllSettle rejection, Some (AwaitAll _ k) => advance m (k rejection)
  | ExpandMenuResumes, Some (Return _) => clearInFlight m
  | ExpandMenuResumes, Some (Throw _) => clearInFlight m
  | _, _ => m
  end.

Definition run (m : Machine.t) (evs : list Event) : Machine.t :=
  fold_left step evs m.

(** ** Vocabulary of the statements about the controller *)

(** Whether a computation is suspended at an [await]. *)
Definition suspended (a : Async unit) : bool :=
  match a with
  | AwaitDelay _ _ | AwaitAll _ _ => true
  | _ => false
  end.

(** The expansion as it stands suspended at the [delay] before the slot at
    [index], and at [Promise.all], with the promises pushed so far. *)
Definition resumeAt (staggerMs durationMs : float) (index : nat)
  (pendingAssemblies : list PromiseId) : Async unit :=
  tryCatch
    (bind (startAssemblies staggerMs durationMs index
             (skipn index MENU_SLOT_IDS) pendingAssemblies)
          finish)
    recover.

Definition resumeAll (pendingAssemblies : list PromiseId) : Async unit :=
  tryCatch (finish pendingAssemblies) recover.

(** What an expansion has done by the time it is suspended before the slot
    at [index]: for each slot before it, in order, the timer (but for the
    first slot), the measurement that succeeded and the call of
    [assemble]. *)
Fixpoint assemblies (staggerMs durationMs : float) (index : nat)
  (slotIds : list SlotId) (promises : list PromiseId) : list Effect :=
  match slotIds, promises with
  | slotId :: rest, p :: promises' =>
      (if (0 <? index)%nat then [TimerSet staggerMs] else [])
      ++ [RectRefreshed slotId true; AssembleCalled slotId durationMs p]
      ++ assemblies staggerMs durationMs (S index) rest promises'
  | _, _ => []
  end.

(** What an expansion that succeeds has done, from the call of
    [expandMenu] to the resolution of its promise. *)
Definition expansionEffects (staggerMs durationMs : float)
  (promises : list PromiseId) : list Effect :=
  [StateChanged expanding]
  ++ assemblies staggerMs durationMs 0 MENU_SLOT_IDS promises
  ++ [AllAwaited promises; StateChanged expanded; Settled None].

(** Where a controller can stand: at rest, with an expansion suspended at
    a [delay] or at [Promise.all], with an expansion that has ended while
    [expandMenu] has not resumed yet, or expanded. *)
Inductive Phase (m : Machine.t) : Prop :=
  | phase_idle :
      Controller.state (Machine.controller m) = collapsed ->
      Controller.inFlightExpand (Machine.controller m) = None ->
      (Machine.effects m = []
       \/ exists before error,
            Machine.effects m
            = before ++ [StateChanged collapsed; Settled (Some error)]) ->
      Phase m
  | phase_failed before error :
      Controller.state (Machine.controller m) = collapsed ->
      Controller.inFlightExpand (Machine.controller m) = Some (Throw error) ->
      Machine.effects m
      = before ++ [StateChanged collapsed; Settled (Some error)] ->
      Phase m
  | phase_succeeded promises before :
      Controller.state (Machine.controller m) = expanded ->
      List.length promises = 4%nat ->
      Controller.inFlightExpand (Machine.controller m) = Some (Return tt) ->
      Machine.effects m
      = before
        ++ expansionEffects (Controller.staggerMs (Machine.controller m))
             (Controller.durationMs (Machine.controller m)) promises ->
      Phase m
  | phase_delay index promises before :
      Controller.state (Machine.controller m) = expanding ->
      (1 <= index <= 3)%nat ->
      List.length promises = index ->
      Controller.inFlightExpand (Machine.controller m)
      = Some (resumeAt (Controller.staggerMs (Machine.controller m))
                (Controller.durationMs (Machine.controller m)) index promises) ->
      Machine.effects m
      = before
        ++ [StateChanged expanding]
        ++ assemblies (Controller.staggerMs (Machine.controller m))
             (Controller.durationMs (Machine.controller m)) 0
             (firstn index MENU_SLOT_IDS) promises
        ++ [TimerSet (Controller.staggerMs (Machine.controller m))] ->
      Phase m
  | phase_all promises before :
      Controller.state (Machine.controller m) = expanding ->
      List.length promises = 4%nat ->
      Controller.inFlightExpand (Machine.controller m)
      = Some (resumeAll promises) ->
      Machine.effects m
      = before
        ++ [StateChanged expanding]
        ++ assemblies (Controller.staggerMs (Machine.controller m))
             (Controller.durationMs (Machine.controller m)) 0
             MENU_SLOT_IDS promises
        ++ [AllAwaited promises] ->
      Phase m
  | phase_expanded promises before :
      Controller.state (Machine.controller m) = expanded ->
      List.length promises = 4%nat ->
      Controller.inFlightExpand (Machine.controller m) = None ->
      Machine.effects m
      = before
        ++ expansionEffects (Controller.staggerMs (Machine.controller m))
             (Controller.durationMs (Machine.controller m)) promises ->
      Phase m.

End HomeScene.

(** * Calls of [assemble] and [disassemble] in flight

    Source: [src/lib/particles/particle-engine.ts], lines 261-271.

    [assemble] and [disassemble] are asynchronous.  The call looks the slot
    up ([getSlot], which throws for an identifier that is not registered)
    and stops at [await slot.imageReady], holding the slot object.  An
    [await] always yields, so the code that made the call runs on before
    the call resumes, and when it resumes, once the image is ready,
    [runTransition] runs on the object held, without a second look at the
    registry: the rect tested is the one the slot has by then, and if
    [destroy] has cleared the registry meanwhile, the object is no longer
    one of the engine's slots, yet its transition record is still read,
    its promise resolved and a new record installed.

    The registry keeps a slot object under its identifier until [destroy]
    clears it, so a call suspended on a registered slot is known by the
    identifier; [destroy] moves the slot objects out of the registry, each
    with the calls suspended on it.

    [requestTransition] above is the call whose image is ready and which
    resumes before anything else happens to the engine (see
    [resume_at_once]). *)

(** A call stopped at [await slot.imageReady]: the method called and its
    options. *)
Module PendingCall.
Record t := mk { status : TransitionStatus; opts : Options.t }.
End PendingCall.

(** A slot object that [destroy] has removed from the registry, and the
    calls that hold it, oldest first. *)
Module DetachedSlot.
Record t := mk { slot : SlotState.t; calls : list PendingCall.t }.
End DetachedSlot.

(** The engine, the calls suspended on its registered slots, oldest first,
    and the slot objects removed from its registry, oldest first. *)
Module Runtime.
Record t := mk
  { engine : Engine.t;
    pending : list (SlotId * PendingCall.t);
    detached : list DetachedSlot.t }.
End Runtime.

(** The calls suspended on the slot registered under [id]. *)
Definition callsOn (id : SlotId) (pending : list (SlotId * PendingCall.t))
  : list PendingCall.t :=
  map snd (filter (fun c => SlotId_eqb (fst c) id) pending).

(** A list without its element at [k], and with its element at [n]
    replaced. *)
Fixpoint removeNth {A : Type} (k : nat) (l : list A) : list A :=
  match l, k with
  | [], _ => []
  | _ :: l', O => l'
  | x :: l', S k' => x :: removeNth k' l'
  end.

Fixpoint setNth {A : Type} (n : nat) (x : A) (l : list A) : list A :=
  match l, n with
  | [], _ => []
  | _ :: l', O => x :: l'
  | y :: l', S n' => y :: setNth n' x l'
  end.

(** [assemble] or [disassemble] up to its [await]: [getSlot] throws, or the
    call is suspended on the slot. *)
Definition suspendCall (status : TransitionStatus) (w : Runtime.t)
  (id : SlotId) (opts : Options.t) : Outcome * Runtime.t :=
  match slots_get (Engine.slots (Runtime.engine w)) id with
  | None => (Threw (SlotNotRegistered id), w)
  | Some _ =>
      (Suspended,
       Runtime.mk (Runtime.engine w)
         (Runtime.pending w ++ [(id, PendingCall.mk status opts)])
         (Runtime.detached w))
  end.

(** The call at [k] among those suspended on registered slots resumes, at
    time [now]: it stays suspended while the image is loading, throws the
    image's error if the image failed, and otherwise runs [runTransition]
    on the slot as it is now.  (Without such a call nothing happens.) *)
Definition resumeCall (w : Runtime.t) (k : nat) (now : float)
  : Outcome * Runtime.t :=
  match nth_error (Runtime.pending w) k with
  | None => (Suspended, w)
  | Some (id, c) =>
      match slots_get (Engine.slots (Runtime.engine w)) id with
      | None => (Suspended, w)
      | Some slot =>
          match SlotState.imageReady slot with
          | Pending => (Suspended, w)
          | Rejected =>
              (Threw ImageLoadFailed,
               Runtime.mk (Runtime.engine w)
                 (removeNth k (Runtime.pending w)) (Runtime.detached w))
          | Fulfilled =>
              let r :=
                runTransition (Runtime.engine w) id slot
                  (PendingCall.status c)
                  (orElse (Options.direction (PendingCall.opts c))
                          (SlotConfig.direction (SlotState.config slot)))
                  (orElse (Options.durationMs (PendingCall.opts c))
                          DEFAULT_DURATION_MS)
                  now in
              (fst r,
               Runtime.mk (snd r) (removeNth k (Runtime.pending w))
                 (Runtime.detached w))
          end
      end
  end.

(** [runTransition] on a slot object that is not in the registry: the
    engine and the object after the call.  The statements are those of
    [runTransition]; the loop of [updateBusyState] runs over the registry,
    where the object is not. *)
Definition runTransitionDetached (e : Engine.t) (slot : SlotState.t)
  (status : TransitionStatus) (direction : Direction) (durationMs now : float)
  : Outcome * Engine.t * SlotState.t :=
  let rect := SlotConfig.rect (SlotState.config slot) in
  if JS.le (SlotRect.w rect) 0 || JS.le (SlotRect.h rect) 0
  then (Threw (NoMeasurableRect (SlotConfig.id (SlotState.config slot))), e,
        slot)
  else
    let e1 :=
      setInteractionEnabled (Engine.with_resolved e (resolveStale e slot))
        false in
    let slot' := reseedSlot e slot status direction durationMs now in
    let e2 :=
      Engine.with_randomCursor
        (Engine.with_nextPromise e1 (S (Engine.nextPromise e)))
        (S (Engine.randomCursor e)
         + 4 * List.length (SlotState.particles slot))%nat in
    (Started (Engine.nextPromise e), updateBusyState e2, slot').

(** The call at [k] among those that hold the detached slot at [n]
    resumes. *)
Definition resumeDetachedCall (w : Runtime.t) (n k : nat) (now : float)
  : Outcome * Runtime.t :=
  match nth_error (Runtime.detached w) n with
  | None => (Suspended, w)
  | Some d =>
      match nth_error (DetachedSlot.calls d) k with
      | None => (Suspended, w)
      | Some c =>
          let slot := DetachedSlot.slot d in
          match SlotState.imageReady slot with
          | Pending => (Suspended, w)
          | Rejected =>
              (Threw ImageLoadFailed,
               Runtime.mk (Runtime.engine w) (Runtime.pending w)
                 (setNth n
                    (DetachedSlot.mk slot (removeNth k (DetachedSlot.calls d)))
                    (Runtime.detached w)))
          | Fulfilled =>
              let r :=
                runTransitionDetached (Runtime.engine w) slot
                  (PendingCall.status c)
                  (orElse (Options.direction (PendingCall.opts c))
                          (SlotConfig.direction (SlotState.config slot)))
                  (orElse (Options.durationMs (PendingCall.opts c))
                          DEFAULT_DURATION_MS)
                  now in
              (fst (fst r),
               Runtime.mk (snd (fst r)) (Runtime.pending w)
                 (setNth n
                    (DetachedSlot.mk (snd r)
                       (removeNth k (DetachedSlot.calls d)))
                    (Runtime.detached w)))
          end
      end
  end.

(** [destroy]: the slot objects leave the registry, each with the calls
    suspended on it. *)
Definition detachSlots (w : Runtime.t) : Runtime.t :=
  Runtime.mk (destroy (Runtime.engine w)) []
    (Runtime.detached w
     ++ map (fun kv =>
               DetachedSlot.mk (snd kv) (callsOn (fst kv) (Runtime.pending w)))
            (Engine.slots (Runtime.engine w))).

(** What the [load] event of its image does to a slot object: the image is
    complete, [imageReady] is fulfilled and its [then] callback samples the
    particles (as in [imageLoaded]). *)
Definition loadedSlot (s : SlotState.t)
  (raster : float -> float -> option ImageData.t) : SlotState.t :=
  prepareParticles
    (SlotState.mk (SlotState.config s) (SlotState.visible s)
       (HTMLImageElement.mk true raster) Fulfilled
       (SlotState.particles s) (SlotState.status s)
       (SlotState.transition s) (SlotState.alpha s)).

Definition detachedImageLoaded (w : Runtime.t) (n : nat)
  (raster : float -> float -> option ImageData.t) : Runtime.t :=
  match nth_error (Runtime.detached w) n with
  | None => w
  | Some d =>
      Runtime.mk (Runtime.engine w) (Runtime.pending w)
        (setNth n
           (DetachedSlot.mk (loadedSlot (DetachedSlot.slot d) raster)
              (DetachedSlot.calls d))
           (Runtime.detached w))
  end.

(** What happens over time: what happens to the engine in a history, where
    a call of [assemble] or [disassemble] is one that resumes at once if
    its image is ready, and stays suspended otherwise; a call of
    [assemble] or [disassemble] that stops at its [await]; the resumption
    of a suspended call; the [load] event of the image of a detached slot.
    A suspended call may resume at any time from when its image is ready:
    the browser resumes it as soon as the code that is running has
    returned, which is one of these times. *)
Inductive Action :=
  | Does (c : Call)
  | Awaits (status : TransitionStatus) (id : SlotId) (opts : Options.t)
  | Resumes (k : nat) (now : float)
  | ResumesDetached (n k : nat) (now : float)
  | DetachedImageLoads (n : nat)
      (raster : float -> float -> option ImageData.t).

Definition act (w : Runtime.t) (a : Action) : Runtime.t :=
  match a with
  | Does CallDestroy => detachSlots w
  | Does (CallAssemble id opts now) =>
      snd (resumeCall (snd (suspendCall assembling w id opts))
             (List.length (Runtime.pending w)) now)
  | Does (CallDisassemble id opts now) =>
      snd (resumeCall (snd (suspendCall disassembling w id opts))
             (List.length (Runtime.pending w)) now)
  | Does c =>
      Runtime.mk (call (Runtime.engine w) c) (Runtime.pending w)
        (Runtime.detached w)
  | Awaits status id opts => snd (suspendCall status w id opts)
  | Resumes k now => snd (resumeCall w k now)
  | ResumesDetached n k now => snd (resumeDetachedCall w n k now)
  | DetachedImageLoads n raster => detachedImageLoaded w n raster
  end.

Definition course (w : Runtime.t) (acts : list Action) : Runtime.t :=
  fold_left act acts w.

(** A new engine, with no call in flight. *)
Definition launched (random : nat -> float) : Runtime.t :=
  Runtime.mk (constructed random) [] [].

(** ** Vocabulary of the statements about calls in flight *)

(** The promises held by the transition records of the detached slots. *)
Definition detachedPromises (ds : list DetachedSlot.t) : list PromiseId :=
  flat_map (fun d => heldPromise (DetachedSlot.slot d)) ds.

(** The engine with the promises [f] counted among those dealt with. *)
Definition framed (f : list PromiseId) (e : Engine.t) : Engine.t :=
  Engine.with_resolved e (f ++ Engine.resolved e).

(** Every promise created so far is in one place, and once: the log of
    resolved promises, the transition record of a registered slot or that
    of a detached slot; and the registry is sound. *)
Definition accounted (w : Runtime.t) : Prop :=
  sound (framed (detachedPromises (Runtime.detached w)) (Runtime.engine w)).

(** A promise that nothing can resolve any more: it is not resolved, no
    registered slot holds it, and no call holds a detached slot whose
    transition record holds it. *)
Definition abandoned (p : PromiseId) (w : Runtime.t) : Prop :=
  lost p (Runtime.engine w)
  /\ Forall (fun d =>
               In p (heldPromise (DetachedSlot.slot d)) ->
               DetachedSlot.calls d = [])
            (Runtime.detached w).

(** "[The call] fails with a thrown error before any state mutation": [r]
    is what a call, or its resumption, made of the runtime [w]. *)
Definition failedWithoutMutation (r : Outcome * Runtime.t) (w : Runtime.t)
  : Prop :=
  (exists err, fst r = Threw err)
  /\ Runtime.engine (snd r) = Runtime.engine w.

(** "The transition's resolve continuation is never invoked": whatever
    happens to the engine, the promise is not resolved. *)
Definition neverResolved (p : PromiseId) (e : Engine.t) : Prop :=
  forall cs, ~ In p (Engine.resolved (history e cs)).
(** ** Fixtures *)

Module Fixtures.

(** A 4 by 3 image; its sampled pixels are (0,0), (2,0), (0,2), (2,2), with
    alpha 24, 23, 25 and 23. *)
Definition image4x3 : ImageData.t :=
  ImageData.mk
    [1; 2; 3; 24;  0; 0; 0; 255;  9; 9; 9; 23;  5; 5; 5; 200;
     1; 2; 3; 24;  0; 0; 0; 255;  9; 9; 9; 23;  5; 5; 5; 200;
     1; 2; 3; 25;  0; 0; 0; 255;  9; 9; 9; 23;  5; 5; 5; 200]%Z 4 3.

(** A single pixel whose alpha is the threshold itself. *)
Definition image1x1 : ImageData.t := ImageData.mk [10; 20; 30; 24]%Z 1 1.

Definition decoded (img : ImageData.t) : HTMLImageElement.t :=
  HTMLImageElement.mk true (fun _ _ => Some img).

Definition heroRect : SlotRect.t := SlotRect.mk 100 50 4 3.
Definition noRect : SlotRect.t := SlotRect.mk 0 0 0 0.

Definition heroConfig : SlotConfig.t :=
  SlotConfig.mk hero "/images/hero.png" heroRect top.

(** The hero slot, hidden, image decoded, not sampled yet. *)
Definition heroHidden : SlotState.t :=
  SlotState.mk heroConfig false (decoded image4x3) Fulfilled [] hidden None 0.

(** A particle away from its target (101, 51), moving. *)
Definition pushedParticle : Particle.t :=
  Particle.mk 105.5 49 101 51 0.75 (-0.5) (Color.rgba 1 2 3 0.5) 0.5
    PARTICLE_SIZE.

(** The hero slot assembled, with that particle only. *)
Definition heroPushed : SlotState.t :=
  SlotState.mk heroConfig true (decoded image4x3) Fulfilled [pushedParticle]
    assembled None 1.

(** The hero slot with the one-pixel image and a one-pixel rect. *)
Definition pixelRect : SlotRect.t := SlotRect.mk 0 0 1 1.

Definition heroPixel : SlotState.t :=
  SlotState.mk (SlotConfig.mk hero "/images/hero.png" pixelRect top) false
    (decoded image1x1) Fulfilled [] hidden None 0.

Definition mouseIdle : MouseState.t := MouseState.mk 0 0 0 0 0 0 false false.

(** Values for [Math.random]: 0.11, 0.48, 0.85, 0.22, ... *)
Definition randomValues (n : nat) : float :=
  (JS.of_Z (Z.of_nat ((n * 37 + 11) mod 100)) / 100)%float.

(** A mounted engine on an 800 by 600 viewport holding the given slots. *)
Definition engineOf (slots : list (SlotId * SlotState.t)) : Engine.t :=
  Engine.mk (Some pe_none) true 800 600 slots [] 1000 true false mouseIdle
    [] [] 0%nat randomValues 0%nat.

(** A particle on its target [(101, 51)], at rest. *)
Definition restingParticle : Particle.t :=
  Particle.mk 101 51 101 51 0 0 (Color.rgba 1 2 3 0.5) 0.5 PARTICLE_SIZE.

(** A particle on its target whose horizontal velocity is the settle
    velocity threshold itself. *)
Definition edgeParticle : Particle.t :=
  Particle.mk 101 51 101 51 TRANSITION_SETTLE_VELOCITY 0
    (Color.rgba 1 2 3 0.5) 0.5 PARTICLE_SIZE.

(** A transition asked at time 1000 to last 500 ms, with promise 7. *)
Definition transition7 (status : TransitionStatus) : TransitionState.t :=
  TransitionState.mk status 1000 500 7%nat top.

(** The hero slot while the transition above is in flight. *)
Definition heroInFlight (status : TransitionStatus) (ps : list Particle.t)
  : SlotState.t :=
  SlotState.mk heroConfig true (decoded image4x3) Fulfilled ps
    (status_of status) (Some (transition7 status)) 0.5.

(** The hero slot assembled, its particle on its target. *)
Definition heroAssembled : SlotState.t :=
  SlotState.mk heroConfig true (decoded image4x3) Fulfilled [restingParticle]
    assembled None 1.

(** The engine holding the assembled hero slot, idle. *)
Definition engineAssembled : Engine.t := engineOf [(hero, heroAssembled)].

(** The hero slot and a menu slot, hidden, sampled on rects that do not
    overlap. *)
Definition heroSampled : SlotState.t := prepareParticles heroHidden.

Definition photoSampled : SlotState.t :=
  prepareParticles
    (SlotState.mk
       (SlotConfig.mk menu_photo "/images/menu-photo.png"
          (SlotRect.mk 300 200 4 3) top)
       false (decoded image4x3) Fulfilled [] hidden None 0).

Definition durationOf (ms : float) : Options.t := Options.mk None (Some ms).

(** One slot: [assemble("hero", 500 ms)] at time 1000. *)
Definition heroAssembling : Engine.t :=
  snd (assemble (engineOf [(hero, heroSampled)]) hero (durationOf 500) 1000).

(** The same engine 59 frames later: the hero slot is assembled, the busy
    flag cleared and interaction enabled again. *)
Definition heroSettled : Engine.t := run heroAssembling (frames 59 1016.67).

(** Then the pointer comes next to the slot and a frame pushes the
    particles off their targets. *)
Definition heroNudged : Engine.t :=
  run heroSettled [PointerMove 99 50; Frame 2016.67].

(** Two slots: [assemble("hero", 300 ms)] and [assemble("menu-photo",
    1500 ms)], both at time 1000. *)
Definition twoAssembling : Engine.t :=
  snd (assemble
         (snd (assemble
                 (engineOf [(hero, heroSampled); (menu_photo, photoSampled)])
                 hero (durationOf 300) 1000))
         menu_photo (durationOf 1500) 1000).

(** An ambient particle at (10, 10), drifting nowhere. *)
Definition stillAmbient : AmbientParticle.t :=
  AmbientParticle.mk 10 10 0 0 0 0 1 0.25.

(** The engine with the assembled hero slot and one ambient particle,
    after [setInteractionEnabled(false)]. *)
Definition engineLocked : Engine.t :=
  setInteractionEnabled
    (Engine.with_ambientParticles engineAssembled [stillAmbient]) false.

(** The pointer at the origin, over the surface, moving right. *)
Definition mouseNear : MouseState.t := MouseState.mk 0 0 (-3) 0 3 0 true false.

(** The hero slot with an image that has no pixel opaque enough, so that
    sampling yields no particle. *)
Definition heroEmpty : SlotState.t :=
  SlotState.mk heroConfig false
    (decoded (ImageData.mk [0; 0; 0; 0]%Z 1 1)) Fulfilled [] hidden None 0.

(** That slot, sampled, after [assemble("hero", 500 ms)] at time 1000. *)
Definition emptyAssembling : Engine.t :=
  snd (assemble (engineOf [(hero, prepareParticles heroEmpty)]) hero
         (durationOf 500) 1000).


(** The one-slot run above, 20 frames later, when [disassemble("hero")]
    is called at time 1350 with the default duration. *)
Definition heroSuperseded : Engine.t :=
  snd (disassemble (run heroAssembling (frames 20 1016.67)) hero
         Options.empty 1350).

End Fixtures.

(** ** Scenes: engines driven through the public interface *)

Module Scenes.

(** The engine is constructed, mounted at time 1000 on a canvas with a 2D
    context and resized to 800 by 600. *)
Definition mountCalls : list Call :=
  [CallMount pe_none true 1000; CallResize 800 600].

Definition mounted : Engine.t :=
  history (constructed Fixtures.randomValues) mountCalls.

(** Then the hero slot is registered with a measured rect and its image
    loads. *)
Definition stageCalls : list Call :=
  mountCalls
  ++ [CallRegisterSlot Fixtures.heroConfig;
      ImageLoads hero (fun _ _ => Some Fixtures.image4x3)].

(** Then [assemble("hero", 500 ms)] is called at time 1000, and two frames
    pass. *)
Definition assembleCalls : list Call :=
  stageCalls
  ++ [CallAssemble hero (Fixtures.durationOf 500) 1000;
      Delivers (Frame 1016.67); Delivers (Frame 1033.34)].

Definition assembling : Engine.t :=
  history (constructed Fixtures.randomValues) assembleCalls.

(** The hero slot is registered before its anchor has been measured: its
    rect has no area, and its image is loading. *)
Definition unmeasuredCalls : list Call :=
  mountCalls
  ++ [CallRegisterSlot (SlotConfig.with_rect Fixtures.heroConfig Fixtures.noRect)].

(** The hero slot assembled on a rect 400 high, its direction [bottom], on
    the 800 by 600 viewport. *)
Definition tallBottom : Engine.t :=
  Fixtures.engineOf
    [(hero,
      SlotState.with_config Fixtures.heroAssembled
        (SlotConfig.mk hero "/images/hero.png" (SlotRect.mk 100 50 4 400)
           bottom))].

(** An image that is too faint when drawn 4 pixels wide (alpha 10
    everywhere) and opaque enough at any other width (alpha 200
    everywhere, here on 6 by 3 pixels). *)
Definition faintWhenSmall : HTMLImageElement.t :=
  HTMLImageElement.mk true
    (fun sw _ =>
       if (sw =? 4)%float
       then Some (ImageData.mk (List.concat (repeat [5; 5; 5; 10]%Z 12)) 4 3)
       else Some (ImageData.mk (List.concat (repeat [5; 5; 5; 200]%Z 18)) 6 3)).

(** The hero slot with that image, sampled on its rect of 4 by 3: no
    particle; then [assemble("hero", 500 ms)] at time 1000 and 40
    frames. *)
Definition faintHero : Engine.t :=
  Fixtures.engineOf
    [(hero,
      prepareParticles
        (SlotState.mk Fixtures.heroConfig false faintWhenSmall Fulfilled []
           hidden None 0))].

Definition faintOpened : Engine.t :=
  snd (assemble faintHero hero (Fixtures.durationOf 500) 1000).

Definition faintWaiting : Engine.t :=
  run faintOpened (frames 40 1016.67).

(** The engine after [assembleCalls], when [disassemble("hero")] is called
    and stops at its [await]. *)
Definition disassembleSuspended : list Action :=
  map Does assembleCalls ++ [Awaits disassembling hero Options.empty].

(** The document in which the hero anchor has collapsed to no area. *)
Definition heroCollapsed : GlobalCanvasLayer.Document :=
  fun id =>
    match id with
    | hero => Some (DOMRect.mk 100 50 0 0)
    | _ => None
    end.

End Scenes.

(** * Properties *)

(** ** Numbers *)

Section Numbers.

(** A number above zero is not [<= 0]. *)
Lemma gt_zero_not_le (w : float) : JS.gt w 0 = true -> JS.le w 0 = false.
Proof.
  unfold JS.gt, JS.le.
  rewrite ltb_spec, leb_spec.
  change (Prim2SF 0) with (S754_zero false).
  destruct (Prim2SF w) as [s | s | | s m e]; try destruct s; cbn; congruence.
Qed.

(** On bytes the comparison with the opacity threshold is the integer one. *)
Lemma byte_lt_threshold (v : Z) :
  (0 <= v <= 255)%Z -> JS.lt (JS.of_Z v) MIN_ALPHA_THRESHOLD = (v <? 24)%Z.
Proof.
  intros Hv.
  assert (Hall : forallb
            (fun n => Bool.eqb (JS.lt (JS.of_Z (Z.of_nat n)) MIN_ALPHA_THRESHOLD)
                               (Z.of_nat n <? 24)%Z)
            (seq 0 256) = true) by (vm_compute; reflexivity).
  rewrite forallb_forall in Hall.
  specialize (Hall (Z.to_nat v)).
  rewrite Z2Nat.id in Hall by lia.
  apply eqb_prop, Hall, in_seq. lia.
Qed.

Lemma SFcompare_antisym (x y : spec_float) :
  SFcompare y x = option_map CompOpp (SFcompare x y).
Proof.
  destruct x as [s1 | s1 | | s1 m1 e1], y as [s2 | s2 | | s2 m2 e2];
    try (destruct s1; try destruct s2; reflexivity);
    try (destruct s2; reflexivity); try reflexivity.
  simpl. destruct s1, s2; simpl; try reflexivity;
    rewrite (Z.compare_antisym e1 e2);
    destruct (e1 ?= e2)%Z; simpl; try reflexivity;
    rewrite (Pos.compare_cont_antisym m1 m2 Eq); simpl;
    now destruct (Pos.compare_cont Eq m1 m2).
Qed.

Lemma SFcompare_None (x y : spec_float) :
  SFcompare x y = None -> SFeqb x x = false \/ SFeqb y y = false.
Proof.
  destruct x as [s1 | s1 | | s1 m1 e1], y as [s2 | s2 | | s2 m2 e2];
    simpl; try discriminate; unfold SFeqb; simpl; auto.
Qed.

(** Away from NaN, [a < b] is false exactly when [b <= a]. *)
Lemma lt_false_iff_le (a b : float) :
  is_nan a = false -> is_nan b = false ->
  JS.lt a b = false <-> JS.le b a = true.
Proof.
  unfold is_nan, JS.lt, JS.le. rewrite !eqb_spec, ltb_spec, leb_spec.
  intros Ha Hb. apply negb_false_iff in Ha, Hb.
  unfold SFltb, SFleb.
  rewrite (SFcompare_antisym (Prim2SF a) (Prim2SF b)).
  destruct (SFcompare (Prim2SF a) (Prim2SF b)) as [[] |] eqn:E; simpl;
    try (split; congruence).
  apply SFcompare_None in E. destruct E; congruence.
Qed.

Lemma reached_le (elapsed duration : float) :
  is_nan elapsed = false -> is_nan duration = false ->
  reached elapsed duration <-> JS.le duration elapsed = true.
Proof. apply lt_false_iff_le. Qed.

Lemma notAbove_le (a bound : float) :
  is_nan a = false -> is_nan bound = false ->
  notAbove a bound <-> JS.le a bound = true.
Proof. intros Ha Hb. unfold notAbove, JS.gt. now apply lt_false_iff_le. Qed.

End Numbers.

(** ** The slot registry *)

Section Registry.

Lemma SlotId_eqb_refl (id : SlotId) : SlotId_eqb id id = true.
Proof. destruct id; reflexivity. Qed.

Lemma SlotId_eqb_eq (a b : SlotId) : SlotId_eqb a b = true <-> a = b.
Proof. destruct a, b; simpl; split; congruence. Qed.

Lemma slots_get_set_same m id s : slots_get (slots_set m id s) id = Some s.
Proof.
  induction m as [| [k s0] m IH]; simpl.
  - now rewrite SlotId_eqb_refl.
  - destruct (SlotId_eqb k id) eqn:E; simpl; rewrite E; auto.
Qed.

Lemma slots_get_set_other m id id' s :
  id' <> id -> slots_get (slots_set m id s) id' = slots_get m id'.
Proof.
  intros Hne.
  induction m as [| [k s0] m IH]; simpl.
  - destruct (SlotId_eqb id id') eqn:E; auto.
    apply SlotId_eqb_eq in E. congruence.
  - destruct (SlotId_eqb k id) eqn:E; simpl.
    + apply SlotId_eqb_eq in E. subst k.
      destruct (SlotId_eqb id id') eqn:E'; auto.
      apply SlotId_eqb_eq in E'. congruence.
    + now rewrite IH.
Qed.

Lemma slots_get_In m id s : slots_get m id = Some s -> In (id, s) m.
Proof.
  induction m as [| [k s0] m IH]; simpl; [discriminate |].
  destruct (SlotId_eqb k id) eqn:E.
  - apply SlotId_eqb_eq in E. intros [= ->]. subst. now left.
  - intros H. right. auto.
Qed.

(** Storing back the slot read under a key leaves the registry as it is. *)
Lemma slots_set_get_id m id s : slots_get m id = Some s -> slots_set m id s = m.
Proof.
  induction m as [| [k s0] m IH]; simpl; [discriminate |].
  destruct (SlotId_eqb k id) eqn:E.
  - now intros [= ->].
  - intros H. now rewrite IH.
Qed.

Lemma slots_setBusy e b : Engine.slots (setBusy e b) = Engine.slots e.
Proof. unfold setBusy. now destruct (Bool.eqb _ _). Qed.

Lemma resolved_setBusy e b : Engine.resolved (setBusy e b) = Engine.resolved e.
Proof. unfold setBusy. now destruct (Bool.eqb _ _). Qed.

Lemma busy_setBusy e b : Engine.busy (setBusy e b) = b.
Proof.
  unfold setBusy. destruct (Bool.eqb _ _) eqn:E; simpl; auto.
  now apply eqb_prop in E.
Qed.

Lemma busyCalls_setBusy e b :
  Engine.busyCalls (setBusy e b)
  = Engine.busyCalls e ++ (if Bool.eqb (Engine.busy e) b then [] else [b]).
Proof.
  unfold setBusy. destruct (Bool.eqb _ _); simpl; [now rewrite app_nil_r | reflexivity].
Qed.

End Registry.

(** ** Sampling *)

Section Sampling.

Variable rect : SlotRect.t.
Variable img : ImageData.t.

Lemma In_push p acc o : In p (push acc o) <-> In p acc \/ o = Some p.
Proof.
  destruct o as [q |]; simpl.
  - rewrite in_app_iff. simpl. split.
    + intros [H | [H | []]]; auto. right. now subst.
    + intros [H | [= ->]]; auto.
  - split; auto. intros [H | H]; [auto | discriminate].
Qed.

(** The inner loop visits [x], [x + 2], ... while below the width. *)
Lemma sampleRow_In fuel y : forall x acc p,
  In p (sampleRow fuel rect img y x acc) <->
  In p acc \/
  exists k : nat,
    (k < fuel)%nat /\ (x + 2 * Z.of_nat k < ImageData.width img)%Z
    /\ samplePixel rect img y (x + 2 * Z.of_nat k) = Some p.
Proof.
  induction fuel as [| fuel IH]; intros x acc p; cbn [sampleRow].
  - split; auto. intros [H | (k & Hk & _)]; [auto | lia].
  - destruct (Z.ltb_spec x (ImageData.width img)) as [Hlt | Hge].
    + rewrite IH, In_push. unfold SAMPLE_STEP. split.
      * intros [[H | H] | (k & Hk & Hw & Hp)]; auto.
        -- right. exists 0%nat.
           replace (x + 2 * Z.of_nat 0)%Z with x by lia.
           repeat split; auto; lia.
        -- right. exists (S k).
           replace (x + 2 * Z.of_nat (S k))%Z with (x + 2 + 2 * Z.of_nat k)%Z by lia.
           repeat split; auto; lia.
      * intros [H | (k & Hk & Hw & Hp)]; auto.
        destruct k as [| k].
        -- replace (x + 2 * Z.of_nat 0)%Z with x in Hp by lia. auto.
        -- right. exists k.
           replace (x + 2 + 2 * Z.of_nat k)%Z with (x + 2 * Z.of_nat (S k))%Z by lia.
           repeat split; auto; lia.
    + split; auto. intros [H | (k & Hk & Hw & _)]; [auto | lia].
Qed.

(** With the fuel [prepareParticles] gives it, the inner loop stops at its
    guard: it visits every even [x] below the width. *)
Lemma sampleRow_full y acc p :
  In p (sampleRow (Z.to_nat (ImageData.width img)) rect img y 0 acc) <->
  In p acc \/
  exists i : nat,
    (2 * Z.of_nat i < ImageData.width img)%Z
    /\ samplePixel rect img y (2 * Z.of_nat i) = Some p.
Proof.
  rewrite sampleRow_In. split.
  - intros [H | (k & _ & Hw & Hp)]; auto. right. exists k. auto.
  - intros [H | (k & Hw & Hp)]; auto. right. exists k.
    repeat split; auto; lia.
Qed.

Lemma sampleRows_In fuel : forall y acc p,
  In p (sampleRows fuel rect img y acc) <->
  In p acc \/
  exists j i : nat,
    (j < fuel)%nat /\ (y + 2 * Z.of_nat j < ImageData.height img)%Z
    /\ (2 * Z.of_nat i < ImageData.width img)%Z
    /\ samplePixel rect img (y + 2 * Z.of_nat j) (2 * Z.of_nat i) = Some p.
Proof.
  induction fuel as [| fuel IH]; intros y acc p; cbn [sampleRows].
  - split; auto. intros [H | (j & i & Hj & _)]; [auto | lia].
  - destruct (Z.ltb_spec y (ImageData.height img)) as [Hlt | Hge].
    + rewrite IH, sampleRow_full. unfold SAMPLE_STEP. split.
      * intros [[H | (i & Hw & Hp)] | (j & i & Hj & Hh & Hw & Hp)]; auto.
        -- right. exists 0%nat, i.
           replace (y + 2 * Z.of_nat 0)%Z with y by lia.
           repeat split; auto; lia.
        -- right. exists (S j), i.
           replace (y + 2 * Z.of_nat (S j))%Z with (y + 2 + 2 * Z.of_nat j)%Z by lia.
           repeat split; auto; lia.
      * intros [H | (j & i & Hj & Hh & Hw & Hp)]; auto.
        destruct j as [| j].
        -- replace (y + 2 * Z.of_nat 0)%Z with y in Hp by lia.
           left. right. exists i. auto.
        -- right. exists j, i.
           replace (y + 2 + 2 * Z.of_nat j)%Z with (y + 2 * Z.of_nat (S j))%Z by lia.
           repeat split; auto; lia.
    + split; auto. intros [H | (j & i & Hj & Hh & _)]; [auto | lia].
Qed.

(** Both loops stop at their guards: the samples are those of the pixels
    with even coordinates inside the buffer. *)
Lemma samplePoints_In p :
  In p (samplePoints rect img) <->
  exists j i : nat,
    (2 * Z.of_nat j < ImageData.height img)%Z
    /\ (2 * Z.of_nat i < ImageData.width img)%Z
    /\ samplePixel rect img (2 * Z.of_nat j) (2 * Z.of_nat i) = Some p.
Proof.
  unfold samplePoints. rewrite sampleRows_In. split.
  - intros [[] | (j & i & _ & Hh & Hw & Hp)]. exists j, i.
    rewrite Z.add_0_l in Hh, Hp. auto.
  - intros (j & i & Hh & Hw & Hp). right. exists j, i.
    rewrite !Z.add_0_l. repeat split; auto; lia.
Qed.

Lemma samplePixel_atRest y x p : samplePixel rect img y x = Some p -> atRest p.
Proof.
  unfold samplePixel.
  destruct (JS.lt _ _); [discriminate |].
  intros [= <-]. repeat split.
Qed.

Lemma samplePoints_atRest : Forall atRest (samplePoints rect img).
Proof.
  apply Forall_forall. intros p Hp.
  apply samplePoints_In in Hp. destruct Hp as (j & i & _ & _ & Hp).
  eapply samplePixel_atRest; eauto.
Qed.

(** In a well-formed buffer the four bytes of a pixel inside it exist. *)
Lemma pixel_inside x y :
  wellFormed img ->
  (0 <= x < ImageData.width img)%Z -> (0 <= y < ImageData.height img)%Z ->
  exists r g b a,
    pixel img x y = Some (r, g, b, a) /\ (0 <= a <= 255)%Z.
Proof.
  intros (Hw & Hh & Hlen & Hbytes) Hx Hy.
  unfold pixel.
  set (i := Z.to_nat ((y * ImageData.width img + x) * 4)).
  assert (Hi : (i + 3 < List.length (ImageData.data img))%nat).
  { apply Nat2Z.inj_lt. rewrite Hlen. unfold i.
    rewrite Nat2Z.inj_add, Z2Nat.id by nia. nia. }
  destruct (nth_error (ImageData.data img) i) as [r |] eqn:Er;
    [| apply nth_error_None in Er; lia].
  destruct (nth_error (ImageData.data img) (i + 1)) as [g |] eqn:Eg;
    [| apply nth_error_None in Eg; lia].
  destruct (nth_error (ImageData.data img) (i + 2)) as [b |] eqn:Eb;
    [| apply nth_error_None in Eb; lia].
  destruct (nth_error (ImageData.data img) (i + 3)) as [a |] eqn:Ea;
    [| apply nth_error_None in Ea; lia].
  exists r, g, b, a. split; auto.
  rewrite Forall_forall in Hbytes. apply Hbytes.
  eapply nth_error_In; eauto.
Qed.

Lemma index_nth data i v :
  (0 <= i)%Z -> nth_error data (Z.to_nat i) = Some v ->
  JS.index data i = JS.of_Z v.
Proof.
  intros Hi Hn. unfold JS.index.
  destruct (Z.ltb_spec i 0); [lia |]. now rewrite Hn.
Qed.

(** The body of the loops on a pixel inside a well-formed buffer: the
    pixel is kept exactly when its alpha byte is at least 24. *)
Lemma samplePixel_spec x y p :
  wellFormed img ->
  (0 <= x < ImageData.width img)%Z -> (0 <= y < ImageData.height img)%Z ->
  samplePixel rect img y x = Some p <->
  exists r g b a,
    pixel img x y = Some (r, g, b, a) /\ (24 <= a)%Z
    /\ p = sampleOf rect x y r g b a.
Proof.
  intros Hwf Hx Hy.
  destruct (pixel_inside Hwf Hx Hy) as (r & g & b & a & Hpx & Ha).
  assert (H0 : (0 <= (y * ImageData.width img + x) * 4)%Z) by nia.
  pose proof Hpx as Hpx'. unfold pixel in Hpx'.
  set (i := Z.to_nat ((y * ImageData.width img + x) * 4)) in *.
  destruct (nth_error _ i) as [r' |] eqn:Er; [| discriminate].
  destruct (nth_error _ (i + 1)) as [g' |] eqn:Eg; [| discriminate].
  destruct (nth_error _ (i + 2)) as [b' |] eqn:Eb; [| discriminate].
  destruct (nth_error _ (i + 3)) as [a' |] eqn:Ea; [| discriminate].
  injection Hpx' as -> -> -> ->.
  unfold samplePixel.
  rewrite (@index_nth _ ((y * ImageData.width img + x) * 4 + 3)%Z a),
          (@index_nth _ ((y * ImageData.width img + x) * 4)%Z r),
          (@index_nth _ ((y * ImageData.width img + x) * 4 + 1)%Z g),
          (@index_nth _ ((y * ImageData.width img + x) * 4 + 2)%Z b);
    try lia; try (rewrite Z2Nat.inj_add by lia; exact Eb);
    try (rewrite Z2Nat.inj_add by lia; exact Eg);
    try (rewrite Z2Nat.inj_add by lia; exact Ea); try exact Er.
  rewrite (byte_lt_threshold Ha).
  destruct (Z.ltb_spec a 24) as [Hlt | Hge].
  - split; [discriminate |].
    intros (r' & g' & b' & a' & Hpx' & Ha' & _).
    rewrite Hpx in Hpx'. injection Hpx' as <- <- <- <-. lia.
  - split.
    + intros [= <-]. exists r, g, b, a. repeat split; auto.
    + intros (r' & g' & b' & a' & Hpx' & Ha' & ->).
      rewrite Hpx in Hpx'. now injection Hpx' as <- <- <- <-.
Qed.

End Sampling.

(** ** Settle detection *)

Section Settle.

Lemma particleSettled_iff (p : Particle.t) :
  particleSettled p = true <-> withinSettleBounds p.
Proof.
  unfold particleSettled, withinSettleBounds, notAbove.
  rewrite negb_true_iff, !orb_false_iff. tauto.
Qed.

Lemma settled_iff (ps : list Particle.t) :
  forallb particleSettled ps = true <-> Forall withinSettleBounds ps.
Proof.
  rewrite forallb_forall, Forall_forall.
  split; intros H p Hp; apply particleSettled_iff; auto.
Qed.

Lemma snapToTarget_rests (ps : list Particle.t) :
  Forall atRest (map snapToTarget ps).
Proof.
  apply Forall_forall. intros q Hq. apply in_map_iff in Hq.
  destruct Hq as (p & <- & _). repeat split.
Qed.

(** The two ways out of [updateTransition] for a slot with a transition in
    flight: it stays in flight with the alpha smoothed, or it completes. *)
Lemma updateTransition_cases (slot : SlotState.t) (t : TransitionState.t)
  (timestamp : float) :
  SlotState.transition slot = Some t ->
  let elapsed := (timestamp - TransitionState.startTime t)%float in
  let smoothed :=
    SlotState.with_alpha slot
      (smoothAlpha (TransitionState.status t) (SlotState.alpha slot)) in
  (~ (reached elapsed (TransitionState.durationMs t)
      /\ Forall withinSettleBounds (SlotState.particles slot))
   /\ updateTransition slot timestamp = (smoothed, None))
  \/
  (reached elapsed (TransitionState.durationMs t)
   /\ Forall withinSettleBounds (SlotState.particles slot)
   /\ updateTransition slot timestamp
      = (SlotState.mk (SlotState.config slot)
           (match TransitionState.status t with
            | assembling => SlotState.visible slot
            | disassembling => false
            end)
           (SlotState.image slot) (SlotState.imageReady slot)
           (match TransitionState.status t with
            | assembling => map snapToTarget (SlotState.particles slot)
            | disassembling => SlotState.particles slot
            end)
           (finalStatus (TransitionState.status t)) None
           (finalAlpha (TransitionState.status t)),
         Some (TransitionState.resolve t))).
Proof.
  intros Ht elapsed smoothed. unfold updateTransition. rewrite Ht.
  fold elapsed. unfold reached.
  destruct (JS.lt elapsed (TransitionState.durationMs t)) eqn:El.
  - left. split; [intros [H _]; discriminate | reflexivity].
  - simpl SlotState.particles.
    destruct (forallb particleSettled (SlotState.particles slot)) eqn:Es; simpl.
    + right. apply settled_iff in Es. repeat split; auto.
      destruct (TransitionState.status t); reflexivity.
    + left. split; [| reflexivity].
      intros [_ H]. apply settled_iff in H. congruence.
Qed.

End Settle.

(** ** Opening a transition *)

Section RunTransition.

Lemma request_eq (status : TransitionStatus) :
  request status = requestTransition status.
Proof. destruct status; reflexivity. Qed.

Lemma existsb_slots_set m id s :
  hasOpenTransition s = true ->
  existsb (fun kv => hasOpenTransition (snd kv)) (slots_set m id s) = true.
Proof.
  intros Hs. induction m as [| [k s0] m IH]; simpl.
  - now rewrite Hs.
  - destruct (SlotId_eqb k id); simpl.
    + now rewrite Hs.
    + rewrite IH. apply orb_true_r.
Qed.

Lemma runTransition_unmeasurable e id slot status direction durationMs now :
  ~ measurable (SlotConfig.rect (SlotState.config slot)) ->
  runTransition e id slot status direction durationMs now
  = (Threw (NoMeasurableRect (SlotConfig.id (SlotState.config slot))), e).
Proof.
  unfold measurable, runTransition. intros H.
  destruct (JS.le (SlotRect.w _) 0); simpl; auto.
  destruct (JS.le (SlotRect.h _) 0); simpl; auto.
  tauto.
Qed.

(** What [runTransition] does once past the rect precondition. *)
Lemma runTransition_started e id slot status direction durationMs now :
  measurable (SlotConfig.rect (SlotState.config slot)) ->
  let e' := snd (runTransition e id slot status direction durationMs now) in
  fst (runTransition e id slot status direction durationMs now)
  = Started (Engine.nextPromise e)
  /\ slots_get (Engine.slots e') id
     = Some (reseedSlot e slot status direction durationMs now)
  /\ (forall id', id' <> id ->
        slots_get (Engine.slots e') id' = slots_get (Engine.slots e) id')
  /\ Engine.resolved e' = resolveStale e slot
  /\ Engine.interactionEnabled e' = false
  /\ Engine.busy e' = true
  /\ Engine.busyCalls e'
     = Engine.busyCalls e ++ (if Engine.busy e then [] else [true])
  /\ Engine.nextPromise e' = S (Engine.nextPromise e).
Proof.
  intros [Hw Hh]. unfold runTransition. rewrite Hw, Hh. simpl.
  unfold updateBusyState.
  rewrite slots_setBusy, resolved_setBusy, busy_setBusy, busyCalls_setBusy.
  simpl. rewrite existsb_slots_set by reflexivity.
  repeat split.
  - apply slots_get_set_same.
  - intros id' Hne. now apply slots_get_set_other.
  - unfold setBusy. now destruct (Bool.eqb _ _).
  - now destruct (Engine.busy e).
  - unfold setBusy. now destruct (Bool.eqb _ _).
Qed.

Lemma seedParticles_targets rnd status rect startY ps : forall k,
  status = assembling ->
  map Particle.tx (seedParticles rnd status rect startY k ps) = map Particle.tx ps
  /\ map Particle.ty (seedParticles rnd status rect startY k ps) = map Particle.ty ps.
Proof.
  intros k ->. revert k.
  induction ps as [| p ps IH]; intros k; simpl; [auto |].
  destruct (IH (k + 4)%nat) as [-> ->]. auto.
Qed.

End RunTransition.

(** ** The render loop *)

Section Render.

Variables (mouse : MouseState.t) (interactionEnabled : bool).
Variables (timestamp delta : float).

Lemma renderSlot_skipped slot :
  skipped slot = true -> renderSlot mouse interactionEnabled timestamp delta slot = (slot, false, None).
Proof. unfold renderSlot. now intros ->. Qed.

Lemma renderSlot_counted slot :
  snd (fst (renderSlot mouse interactionEnabled timestamp delta slot)) = counted slot.
Proof.
  unfold renderSlot, counted.
  destruct (skipped slot); simpl; [reflexivity |].
  destruct (SlotState.transition slot) as [t |].
  - now destruct (updateTransition slot timestamp).
  - reflexivity.
Qed.

Lemma renderSlots_hasTransition m :
  snd (fst (renderSlots mouse interactionEnabled timestamp delta m)) = existsb (fun kv => counted (snd kv)) m.
Proof.
  induction m as [| [id slot] m IH]; simpl; [reflexivity |].
  pose proof (renderSlot_counted slot) as Hc.
  destruct (renderSlot mouse interactionEnabled timestamp delta slot)
    as [[slot' t] r].
  destruct (renderSlots mouse interactionEnabled timestamp delta m)
    as [[rest ts] rs].
  simpl in *. now rewrite Hc, IH.
Qed.

Lemma renderSlots_get m id :
  slots_get (fst (fst (renderSlots mouse interactionEnabled timestamp delta m))) id
  = option_map (fun s => fst (fst (renderSlot mouse interactionEnabled timestamp delta s))) (slots_get m id).
Proof.
  induction m as [| [k slot] m IH]; simpl; [reflexivity |].
  destruct (renderSlot mouse interactionEnabled timestamp delta slot)
    as [[slot' t] r] eqn:Er.
  destruct (renderSlots mouse interactionEnabled timestamp delta m)
    as [[rest ts] rs].
  simpl in *. destruct (SlotId_eqb k id); simpl; [now rewrite Er | exact IH].
Qed.

(** A slot that is not skipped either keeps its transition in flight, and
    is not skipped after the frame either, or has none after the frame;
    the promise the frame resolves for it, if any, is its transition's. *)
Lemma renderSlot_promises slot :
  let slot' := fst (fst (renderSlot mouse interactionEnabled timestamp delta slot)) in
  (forall p, snd (renderSlot mouse interactionEnabled timestamp delta slot) = Some p -> In p (slotPromises slot))
  /\ (forall p, In p (slotPromises slot') -> In p (slotPromises slot)).
Proof.
  unfold renderSlot, slotPromises. simpl.
  destruct (skipped slot) eqn:Hsk; simpl.
  - rewrite Hsk. split; [discriminate | auto].
  - destruct (SlotState.transition slot) as [t |] eqn:Ht.
    + pose proof (updateTransition_cases slot timestamp Ht) as Hc.
      cbv zeta in Hc. destruct Hc as [(_ & ->) | (_ & _ & ->)]; simpl.
      * split; [discriminate |].
        unfold skipped in *. simpl. rewrite length_map, Hsk, Ht. auto.
      * split.
        -- intros p [= <-]. now left.
        -- intros p.
           destruct (skipped (updateImageParticles _ _ _ _)); simpl; tauto.
    + simpl. split; [discriminate |].
      rewrite Ht. intros p.
      destruct (skipped (updateImageParticles _ _ _ _)); simpl; tauto.
Qed.

Lemma renderSlots_promises m :
  (forall p, In p (snd (renderSlots mouse interactionEnabled timestamp delta m)) -> In p (openPromises m))
  /\ (forall p, In p (openPromises (fst (fst (renderSlots mouse interactionEnabled timestamp delta m)))) ->
                In p (openPromises m)).
Proof.
  induction m as [| [id slot] m [IH1 IH2]]; simpl; [auto |].
  pose proof (renderSlot_promises slot) as Hs. cbv zeta in Hs.
  destruct (renderSlot mouse interactionEnabled timestamp delta slot)
    as [[slot' t] r].
  destruct (renderSlots mouse interactionEnabled timestamp delta m)
    as [[rest ts] rs].
  unfold openPromises in *. simpl in *.
  destruct Hs as [Hs1 Hs2].
  split; intros p Hp.
  - apply in_or_app. destruct r as [q |].
    + destruct Hp as [<- | Hp]; [left; now apply Hs1 | right; auto].
    + right; auto.
  - apply in_app_or in Hp. apply in_or_app.
    destruct Hp as [Hp | Hp]; [left; auto | right; auto].
Qed.

End Render.

Section RenderFrame.

Variable e : Engine.t.
Variable timestamp : float.

Lemma render_effects :
  Engine.context e = true ->
  let hasTransition := existsb (fun kv => counted (snd kv)) (Engine.slots e) in
  Engine.slots (render e timestamp) = fst (fst (renderSlots (Engine.mouse e) (Engine.interactionEnabled e)
                   timestamp (frameDelta e timestamp) (Engine.slots e)))
  /\ Engine.resolved (render e timestamp) = Engine.resolved e
       ++ snd (renderSlots (Engine.mouse e) (Engine.interactionEnabled e)
                 timestamp (frameDelta e timestamp) (Engine.slots e))
  /\ Engine.busy (render e timestamp) = hasTransition
  /\ Engine.busyCalls (render e timestamp)
     = Engine.busyCalls e
       ++ (if Bool.eqb (Engine.busy e) hasTransition then []
           else [hasTransition])
  /\ Engine.interactionEnabled (render e timestamp)
     = (if hasTransition then Engine.interactionEnabled e else true)
  /\ Engine.context (render e timestamp) = true.
Proof.
  intros Hctx hasTransition. unfold render. rewrite Hctx. simpl.
  pose proof (renderSlots_hasTransition (Engine.mouse e)
                (Engine.interactionEnabled e) timestamp
                (frameDelta e timestamp) (Engine.slots e)) as Hh.
  fold hasTransition in Hh.
  destruct (renderSlots _ _ _ _ _) as [[slots' ht] rs]. simpl in *. subst ht.
  destruct hasTransition eqn:E.
  - rewrite slots_setBusy, resolved_setBusy, busy_setBusy, busyCalls_setBusy.
    simpl. repeat split; unfold setBusy; now destruct (Bool.eqb _ _).
  - unfold setInteractionEnabled. simpl.
    rewrite slots_setBusy, resolved_setBusy, busy_setBusy, busyCalls_setBusy.
    simpl. repeat split; unfold setBusy; now destruct (Bool.eqb _ _).
Qed.

End RenderFrame.

(** ** Pointer forces *)

Section Pointer.

Lemma updateImageParticle_locked m1 m2 delta p :
  updateImageParticle m1 false delta p = updateImageParticle m2 false delta p.
Proof.
  unfold updateImageParticle. cbv zeta.
  rewrite !andb_false_r. reflexivity.
Qed.

Lemma updateImageParticles_locked m1 m2 slot delta :
  updateImageParticles m1 false slot delta
  = updateImageParticles m2 false slot delta.
Proof.
  unfold updateImageParticles. f_equal.
  apply map_ext. intros p. apply updateImageParticle_locked.
Qed.

Lemma renderSlots_locked m1 m2 timestamp delta m :
  renderSlots m1 false timestamp delta m
  = renderSlots m2 false timestamp delta m.
Proof.
  induction m as [| [id slot] m IH]; simpl; [reflexivity |].
  rewrite IH. unfold renderSlot.
  destruct (skipped slot); [reflexivity |].
  destruct (match SlotState.transition slot with
            | Some _ => updateTransition slot timestamp
            | None => (slot, None)
            end) as [slot1 r].
  now rewrite (updateImageParticles_locked m1 m2).
Qed.

Lemma frameDelta_with_mouse e m timestamp :
  frameDelta (Engine.with_mouse e m) timestamp = frameDelta e timestamp.
Proof. reflexivity. Qed.

(** With interaction disabled a frame does the same to the slots, the
    promises and the busy flag whatever the pointer state. *)
Lemma render_locked e m1 m2 timestamp :
  Engine.interactionEnabled e = false ->
  let frame1 := render (Engine.with_mouse e m1) timestamp in
  let frame2 := render (Engine.with_mouse e m2) timestamp in
  Engine.slots frame1 = Engine.slots frame2
  /\ Engine.resolved frame1 = Engine.resolved frame2
  /\ Engine.busy frame1 = Engine.busy frame2
  /\ Engine.busyCalls frame1 = Engine.busyCalls frame2.
Proof.
  intros Hie. cbv zeta.
  destruct (Engine.context e) eqn:Hctx.
  - destruct (render_effects (Engine.with_mouse e m1) timestamp Hctx)
      as (Hs1 & Hr1 & Hb1 & Hc1 & _).
    destruct (render_effects (Engine.with_mouse e m2) timestamp Hctx)
      as (Hs2 & Hr2 & Hb2 & Hc2 & _).
    rewrite Hs1, Hs2, Hr1, Hr2, Hb1, Hb2, Hc1, Hc2.
    rewrite !frameDelta_with_mouse.
    change (Engine.interactionEnabled (Engine.with_mouse e m1))
      with (Engine.interactionEnabled e).
    change (Engine.interactionEnabled (Engine.with_mouse e m2))
      with (Engine.interactionEnabled e).
    change (Engine.mouse (Engine.with_mouse e m1)) with m1.
    change (Engine.mouse (Engine.with_mouse e m2)) with m2.
    change (Engine.slots (Engine.with_mouse e m1)) with (Engine.slots e).
    change (Engine.slots (Engine.with_mouse e m2)) with (Engine.slots e).
    rewrite Hie, (renderSlots_locked m1 m2).
    repeat split; reflexivity.
  - unfold render.
    change (Engine.context (Engine.with_mouse e m1)) with (Engine.context e).
    change (Engine.context (Engine.with_mouse e m2)) with (Engine.context e).
    rewrite Hctx. repeat split; reflexivity.
Qed.

End Pointer.

(** ** Runs with a slot that has no particle *)

Section EmptySlot.

Variables (id : SlotId) (slot : SlotState.t) (p : PromiseId).
Hypothesis Hempty : SlotState.particles slot = [].

Lemma skipped_empty : skipped slot = true.
Proof. unfold skipped. rewrite Hempty. apply orb_true_r. Qed.

Lemma render_untouched e timestamp :
  untouched id slot p e -> untouched id slot p (render e timestamp).
Proof.
  intros (Hget & Hres & Hopen).
  destruct (Engine.context e) eqn:Hctx.
  - destruct (render_effects e timestamp Hctx) as (Hs & Hr & _).
    pose proof (renderSlots_promises (Engine.mouse e)
                  (Engine.interactionEnabled e) timestamp
                  (frameDelta e timestamp) (Engine.slots e)) as [Hp1 Hp2].
    unfold untouched. rewrite Hs, Hr, renderSlots_get, Hget. simpl.
    rewrite renderSlot_skipped by apply skipped_empty. simpl.
    repeat split.
    + intros Hin. apply in_app_or in Hin. destruct Hin; auto.
    + auto.
  - unfold render. rewrite Hctx. simpl. repeat split; auto.
Qed.

Lemma step_untouched e ev :
  untouched id slot p e -> untouched id slot p (step e ev).
Proof.
  destruct ev; simpl; auto using render_untouched.
Qed.

Lemma run_untouched evs : forall e,
  untouched id slot p e -> untouched id slot p (run e evs).
Proof.
  unfold run. induction evs as [| ev evs IH]; intros e H; simpl; auto.
  apply IH, step_untouched, H.
Qed.

End EmptySlot.

(** ** Promise identifiers *)

Section Promises.

Lemma createdBefore_le n n' slot :
  (n <= n')%nat -> createdBefore n slot -> createdBefore n' slot.
Proof. intros Hle H t Ht. specialize (H t Ht). lia. Qed.

Lemma Forall_slots_set (P : SlotId * SlotState.t -> Prop) m id s :
  (forall k, P (k, s)) -> Forall P m -> Forall P (slots_set m id s).
Proof.
  intros Hs. induction 1 as [| [k s0] m Hk Hm IH]; simpl.
  - constructor; auto.
  - destruct (SlotId_eqb k id); constructor; auto.
Qed.

Lemma Forall_slots_get (P : SlotId * SlotState.t -> Prop) m id s :
  Forall P m -> slots_get m id = Some s -> P (id, s).
Proof.
  intros H Hget. rewrite Forall_forall in H.
  apply H. now apply slots_get_In.
Qed.

Lemma prepareParticles_transition slot :
  SlotState.transition (prepareParticles slot) = SlotState.transition slot.
Proof.
  unfold prepareParticles.
  destruct (_ || _); [reflexivity |].
  now destruct (HTMLImageElement.raster _ _ _).
Qed.

Lemma updateSlotRect_slot_transition slot rect :
  SlotState.transition (updateSlotRect_slot slot rect)
  = SlotState.transition slot.
Proof.
  unfold updateSlotRect_slot. simpl.
  destruct (HTMLImageElement.complete _); [| reflexivity].
  destruct (SlotState.status _); simpl;
    now rewrite ?prepareParticles_transition.
Qed.

(** A frame leaves a slot's transition as it is or removes it. *)
Lemma renderSlot_transition mouse interactionEnabled timestamp delta slot :
  let slot' :=
    fst (fst (renderSlot mouse interactionEnabled timestamp delta slot)) in
  SlotState.transition slot' = SlotState.transition slot
  \/ SlotState.transition slot' = None.
Proof.
  unfold renderSlot.
  destruct (skipped slot); simpl; [now left |].
  destruct (SlotState.transition slot) as [t |] eqn:Ht.
  - pose proof (updateTransition_cases slot timestamp Ht) as Hc.
    cbv zeta in Hc. destruct Hc as [(_ & ->) | (_ & _ & ->)]; simpl; auto.
  - simpl. now left.
Qed.

Lemma renderSlots_createdBefore mouse interactionEnabled timestamp delta n m :
  Forall (fun kv => createdBefore n (snd kv)) m ->
  Forall (fun kv => createdBefore n (snd kv))
    (fst (fst (renderSlots mouse interactionEnabled timestamp delta m))).
Proof.
  induction 1 as [| [id slot] m Hs Hm IH]; simpl; [constructor |].
  pose proof (renderSlot_transition mouse interactionEnabled timestamp delta
                slot) as Ht. cbv zeta in Ht.
  destruct (renderSlot mouse interactionEnabled timestamp delta slot)
    as [[slot' t] r].
  destruct (renderSlots mouse interactionEnabled timestamp delta m)
    as [[rest ts] rs].
  simpl in *. constructor; auto.
  intros t' Ht'. simpl in *.
  destruct Ht as [Ht | Ht]; rewrite Ht in Ht'; [auto | discriminate].
Qed.

Lemma openPromises_createdBefore n m p :
  Forall (fun kv => createdBefore n (snd kv)) m ->
  In p (openPromises m) -> (p < n)%nat.
Proof.
  unfold openPromises. intros H Hin.
  apply in_flat_map in Hin. destruct Hin as ([id slot] & Hkv & Hp).
  rewrite Forall_forall in H. specialize (H _ Hkv). simpl in *.
  unfold slotPromises in Hp.
  destruct (skipped slot); [destruct Hp |].
  destruct (SlotState.transition slot) as [t |] eqn:Ht; [| destruct Hp].
  destruct Hp as [<- | []]. auto.
Qed.

Lemma consistent_render e timestamp : consistent e -> consistent (render e timestamp).
Proof.
  intros [Hr Hs].
  destruct (Engine.context e) eqn:Hctx.
  - destruct (render_effects e timestamp Hctx) as (Es & Er & _).
    assert (Hn : Engine.nextPromise (render e timestamp) = Engine.nextPromise e).
    { unfold render. rewrite Hctx. simpl.
      destruct (renderSlots _ _ _ _ _) as [[slots' h] rs].
      destruct h; unfold setInteractionEnabled, setBusy; simpl;
        now destruct (Bool.eqb _ _). }
    unfold consistent. rewrite Hn, Es, Er. split.
    + apply Forall_app. split; [exact Hr |].
      apply Forall_forall. intros p Hp.
      apply (@openPromises_createdBefore _ (Engine.slots e)); auto.
      now apply renderSlots_promises in Hp.
    + now apply renderSlots_createdBefore.
  - unfold render. rewrite Hctx. simpl. now split.
Qed.

Lemma consistent_step e ev : consistent e -> consistent (step e ev).
Proof. destruct ev; simpl; auto using consistent_render. Qed.

Lemma consistent_requestTransition status e id opts now :
  consistent e -> consistent (snd (requestTransition status e id opts now)).
Proof.
  intros [Hr Hs]. unfold requestTransition.
  destruct (slots_get (Engine.slots e) id) as [slot |] eqn:Hget;
    [| now split].
  destruct (SlotState.imageReady slot); try now split.
  unfold runTransition.
  destruct (_ || _); [now split |].
  unfold updateBusyState, consistent. simpl.
  rewrite slots_setBusy, resolved_setBusy. simpl.
  assert (Hn : forall b e0, Engine.nextPromise (setBusy e0 b) = Engine.nextPromise e0)
    by (intros b e0; unfold setBusy; now destruct (Bool.eqb _ _)).
  rewrite Hn. simpl. split.
  - unfold resolveStale.
    pose proof (Forall_slots_get _ Hs Hget) as Hslot. simpl in Hslot.
    destruct (SlotState.transition slot) as [stale |] eqn:Hst.
    + apply Forall_app. split.
      * eapply Forall_impl; [| exact Hr]. simpl. intros; lia.
      * constructor; [| constructor]. specialize (Hslot stale Hst). lia.
    + eapply Forall_impl; [| exact Hr]. simpl. intros; lia.
  - apply Forall_slots_set.
    + intros k t [= <-]. simpl. lia.
    + eapply Forall_impl; [| exact Hs].
      intros kv H. eapply createdBefore_le; [| exact H]. lia.
Qed.

Lemma reachable_consistent e : reachable e -> consistent e.
Proof.
  induction 1 as [e Hs Hr | e c _ [Hr Hs] | e id raster _ [Hr Hs]
                 | e id rect _ [Hr Hs] | e id visible _ [Hr Hs]
                 | e enabled _ [Hr Hs] | e id opts now _ IH
                 | e id opts now _ IH | e ev _ IH].
  - unfold consistent. rewrite Hs, Hr. split; constructor.
  - unfold registerSlot.
    destruct (slots_get _ _) as [existing |] eqn:Hget; split; simpl; auto;
      apply Forall_slots_set; auto.
    + intros k t. simpl. rewrite prepareParticles_transition. simpl.
      apply (Forall_slots_get _ Hs Hget).
    + intros k t. simpl. discriminate.
  - unfold imageLoaded.
    destruct (slots_get _ _) as [s |] eqn:Hget; split; simpl; auto.
    apply Forall_slots_set; auto.
    intros k t. simpl. rewrite prepareParticles_transition. simpl.
    apply (Forall_slots_get _ Hs Hget).
  - unfold updateSlotRect.
    destruct (slots_get _ _) as [s |] eqn:Hget; split; simpl; auto.
    apply Forall_slots_set; auto.
    intros k t. simpl. rewrite updateSlotRect_slot_transition.
    apply (Forall_slots_get _ Hs Hget).
  - unfold setSlotVisible.
    destruct (slots_get _ _) as [s |] eqn:Hget; split; simpl; auto.
    apply Forall_slots_set; auto.
    intros k t. destruct visible; simpl; [| discriminate].
    apply (Forall_slots_get _ Hs Hget).
  - split; simpl; auto.
  - now apply consistent_requestTransition.
  - now apply consistent_requestTransition.
  - now apply consistent_step.
Qed.

Lemma openPromises_slots_set m id s p :
  In p (openPromises (slots_set m id s)) ->
  In p (slotPromises s) \/ In p (openPromises m).
Proof.
  unfold openPromises.
  induction m as [| [k s0] m IH]; simpl.
  - rewrite app_nil_r. auto.
  - destruct (SlotId_eqb k id); simpl; rewrite !in_app_iff.
    + tauto.
    + intros [H | H]; [tauto |]. destruct (IH H); tauto.
Qed.

Lemma seedParticles_nil rnd status rect startY k :
  seedParticles rnd status rect startY k [] = [].
Proof. reflexivity. Qed.

(** The promise about to be created is not among those resolved once
    [runTransition] has resolved the stale one. *)
Lemma resolveStale_fresh e id slot :
  consistent e ->
  slots_get (Engine.slots e) id = Some slot ->
  ~ In (Engine.nextPromise e) (resolveStale e slot).
Proof.
  intros [Hr Hs] Hget. unfold resolveStale.
  pose proof (Forall_slots_get _ Hs Hget) as Hc. simpl in Hc.
  rewrite Forall_forall in Hr.
  destruct (SlotState.transition slot) as [stale |] eqn:Hst.
  - intros Hin. apply in_app_or in Hin. destruct Hin as [Hin | [Hin | []]].
    + specialize (Hr _ Hin). lia.
    + specialize (Hc stale Hst). lia.
  - intros Hin. specialize (Hr _ Hin). lia.
Qed.

(** A transition opened on a slot without particles, in a consistent
    engine: the slot as [runTransition] leaves it is one that runs do not
    touch. *)
Lemma opened_empty_untouched status e id slot opts now :
  consistent e ->
  slots_get (Engine.slots e) id = Some slot ->
  SlotState.particles slot = [] ->
  SlotState.imageReady slot = Fulfilled ->
  measurable (SlotConfig.rect (SlotState.config slot)) ->
  let direction :=
    orElse (Options.direction opts)
           (SlotConfig.direction (SlotState.config slot)) in
  let durationMs := orElse (Options.durationMs opts) DEFAULT_DURATION_MS in
  fst (requestTransition status e id opts now) = Started (Engine.nextPromise e)
  /\ untouched id (reseedSlot e slot status direction durationMs now)
       (Engine.nextPromise e)
       (snd (requestTransition status e id opts now)).
Proof.
  intros [Hr Hs] Hget Hempty Hready Hm. cbv zeta.
  unfold requestTransition. rewrite Hget, Hready.
  pose proof (@runTransition_started e id slot status
                (orElse (Options.direction opts)
                   (SlotConfig.direction (SlotState.config slot)))
                (orElse (Options.durationMs opts) DEFAULT_DURATION_MS)
                now Hm) as H.
  cbv zeta in H. destruct H as (Hf & Hslot & _ & Hres & _).
  split; [exact Hf |]. unfold untouched. split; [exact Hslot |]. split.
  - rewrite Hres. apply (@resolveStale_fresh e id slot); [now split | exact Hget].
  - unfold runTransition. destruct Hm as [-> ->]. simpl.
    unfold updateBusyState. rewrite slots_setBusy. simpl.
    intros Hin. apply openPromises_slots_set in Hin. destruct Hin as [Hin | Hin].
    + unfold slotPromises, skipped, reseedSlot in Hin. simpl in Hin.
      rewrite Hempty in Hin. simpl in Hin. exact Hin.
    + apply (openPromises_createdBefore _ Hs) in Hin. lia.
Qed.

(** No frame counts a transition when every transition in flight belongs
    to a slot without particles. *)
Lemma render_clears_busy e timestamp :
  Engine.context e = true ->
  (forall id slot,
      In (id, slot) (Engine.slots e) ->
      SlotState.particles slot <> [] -> SlotState.transition slot = None) ->
  Engine.busy (render e timestamp) = false.
Proof.
  intros Hctx Hall.
  destruct (render_effects e timestamp Hctx) as (_ & _ & Hb & _).
  rewrite Hb.
  destruct (existsb _ _) eqn:E; [| reflexivity].
  apply existsb_exists in E. destruct E as ([id slot] & Hin & Hc).
  unfold counted, skipped in Hc. simpl in Hc.
  destruct (SlotState.particles slot) as [| q qs] eqn:Eps.
  - simpl in Hc. rewrite orb_true_r in Hc. discriminate.
  - assert (Hn : SlotState.transition slot = None)
      by (apply (Hall id slot Hin); rewrite Eps; discriminate).
    unfold hasOpenTransition in Hc. rewrite Hn in Hc.
    now rewrite andb_false_r in Hc.
Qed.

End Promises.

(** * More lemmas *)

From Stdlib Require Import Permutation.

Unset Implicit Arguments.

(** ** The order of numbers

    [<] and [<=] on numbers other than NaN form a total order; the lemmas
    below are the instances the bounds of [clamp], of the ambient particle
    count and of the edge wrap need. *)

Section Order.

Lemma SFcompare_lt_trans (x y z : spec_float) :
  SFcompare x y = Some Lt ->
  SFcompare y z = Some Lt \/ SFcompare y z = Some Eq ->
  SFcompare x z = Some Lt.
Proof.
  destruct x as [s1 | s1 | | s1 m1 e1], y as [s2 | s2 | | s2 m2 e2],
           z as [s3 | s3 | | s3 m3 e3];
    simpl; intros H1 [H2 | H2]; try discriminate;
    repeat match goal with s : bool |- _ => destruct s end;
    simpl in *; try discriminate; try reflexivity;
    injection H1 as H1; injection H2 as H2; f_equal;
    repeat match goal with
    | H : context [Pos.compare_cont Eq ?a ?b] |- _ =>
        change (Pos.compare_cont Eq a b) with (Pos.compare a b) in H
    | |- context [Pos.compare_cont Eq ?a ?b] =>
        change (Pos.compare_cont Eq a b) with (Pos.compare a b)
    end;
    repeat match goal with
    | H : context [(?a ?= ?b)%Z] |- _ =>
        destruct (Z.compare_spec a b); simpl in H; try discriminate
    | H : context [(?a ?= ?b)%positive] |- _ =>
        destruct (Pos.compare_spec a b); simpl in H; try discriminate
    end;
    repeat match goal with
    | |- context [(?a ?= ?b)%Z] => destruct (Z.compare_spec a b); simpl
    | |- context [(?a ?= ?b)%positive] =>
        destruct (Pos.compare_spec a b); simpl
    end;
    subst; try reflexivity; try discriminate; try lia.
Qed.

Lemma SFcompare_refl (x : spec_float) :
  SFeqb x x = true -> SFcompare x x = Some Eq.
Proof.
  unfold SFeqb. destruct (SFcompare x x) as [[] |]; congruence.
Qed.

Lemma SFcompare_Some (x y : spec_float) c :
  SFcompare x y = Some c -> SFeqb x x = true /\ SFeqb y y = true.
Proof.
  intros H.
  destruct (SFeqb x x) eqn:Ex, (SFeqb y y) eqn:Ey; auto;
    destruct x, y; simpl in *; try discriminate;
    unfold SFeqb in *; simpl in *;
    repeat match goal with s : bool |- _ => destruct s end;
    simpl in *; try discriminate;
    repeat match goal with
    | H : context [Pos.compare_cont Eq ?a ?a] |- _ =>
        change (Pos.compare_cont Eq a a) with (Pos.compare a a) in H;
        rewrite Pos.compare_refl in H
    | H : context [(?a ?= ?a)%Z] |- _ => rewrite Z.compare_refl in H
    end; simpl in *; try discriminate.
Qed.

Lemma is_nan_SFeqb (a : float) :
  is_nan a = false <-> SFeqb (Prim2SF a) (Prim2SF a) = true.
Proof.
  unfold is_nan. rewrite eqb_spec. apply negb_false_iff.
Qed.

Lemma le_not_nan (a b : float) :
  JS.le a b = true -> is_nan a = false /\ is_nan b = false.
Proof.
  unfold JS.le. rewrite leb_spec, !is_nan_SFeqb. unfold SFleb.
  destruct (SFcompare (Prim2SF a) (Prim2SF b)) as [c |] eqn:E;
    [| discriminate].
  intros _. exact (SFcompare_Some _ _ _ E).
Qed.

Lemma lt_le (a b : float) : JS.lt a b = true -> JS.le a b = true.
Proof.
  unfold JS.lt, JS.le. rewrite ltb_spec, leb_spec. unfold SFltb, SFleb.
  destruct (SFcompare (Prim2SF a) (Prim2SF b)) as [[] |]; congruence.
Qed.

Lemma le_refl (a : float) : is_nan a = false -> JS.le a a = true.
Proof.
  rewrite is_nan_SFeqb. intros H. unfold JS.le. rewrite leb_spec.
  unfold SFleb. now rewrite SFcompare_refl.
Qed.

Lemma lt_le_trans (a b c : float) :
  JS.lt a b = true -> JS.le b c = true -> JS.lt a c = true.
Proof.
  unfold JS.lt, JS.le. rewrite !ltb_spec, leb_spec. unfold SFltb, SFleb.
  destruct (SFcompare (Prim2SF a) (Prim2SF b)) as [[] |] eqn:E1;
    try discriminate.
  destruct (SFcompare (Prim2SF b) (Prim2SF c)) as [[] |] eqn:E2;
    try discriminate; intros _ _.
  - now rewrite (SFcompare_lt_trans _ _ _ E1 (or_intror E2)).
  - now rewrite (SFcompare_lt_trans _ _ _ E1 (or_introl E2)).
Qed.

(** [Math.max] and [Math.min] of two numbers other than NaN return one of
    them, and it bounds both. *)
Lemma Math_max_spec (a b : float) :
  is_nan a = false -> is_nan b = false ->
  (JS.Math_max a b = a \/ JS.Math_max a b = b)
  /\ JS.le a (JS.Math_max a b) = true /\ JS.le b (JS.Math_max a b) = true.
Proof.
  intros Ha Hb. unfold JS.Math_max. rewrite Ha, Hb. simpl.
  destruct (a <? b)%float eqn:E1.
  - split; [now right | split; [now apply lt_le | now apply le_refl]].
  - destruct (b <? a)%float eqn:E2.
    + split; [now left | split; [now apply le_refl | now apply lt_le]].
    + apply (proj1 (@lt_false_iff_le a b Ha Hb)) in E1.
      apply (proj1 (@lt_false_iff_le b a Hb Ha)) in E2.
      destruct (get_sign a).
      * split; [now right | split; [assumption | now apply le_refl]].
      * split; [now left | split; [now apply le_refl | assumption]].
Qed.

Lemma Math_min_spec (a b : float) :
  is_nan a = false -> is_nan b = false ->
  (JS.Math_min a b = a \/ JS.Math_min a b = b)
  /\ JS.le (JS.Math_min a b) a = true /\ JS.le (JS.Math_min a b) b = true.
Proof.
  intros Ha Hb. unfold JS.Math_min. rewrite Ha, Hb. simpl.
  destruct (a <? b)%float eqn:E1.
  - split; [now left | split; [now apply le_refl | now apply lt_le]].
  - destruct (b <? a)%float eqn:E2.
    + split; [now right | split; [now apply lt_le | now apply le_refl]].
    + apply (proj1 (@lt_false_iff_le a b Ha Hb)) in E1.
      apply (proj1 (@lt_false_iff_le b a Hb Ha)) in E2.
      destruct (get_sign a).
      * split; [now left | split; [now apply le_refl | assumption]].
      * split; [now right | split; [assumption | now apply le_refl]].
Qed.

Lemma Math_max_nan (a b : float) :
  is_nan b = true -> JS.Math_max a b = nan.
Proof.
  intros H. unfold JS.Math_max. rewrite H. now rewrite orb_true_r.
Qed.

Lemma Math_min_nan (a b : float) :
  is_nan b = true -> JS.Math_min a b = nan.
Proof.
  intros H. unfold JS.Math_min. rewrite H. now rewrite orb_true_r.
Qed.

(** [Math.min(hi, Math.max(lo, v))] for bounds in order: NaN exactly when
    [v] is, and between the bounds otherwise. *)
Lemma between_bounds (lo hi v : float) :
  JS.le lo hi = true ->
  is_nan (JS.Math_min hi (JS.Math_max lo v)) = is_nan v
  /\ (is_nan v = false ->
      JS.le lo (JS.Math_min hi (JS.Math_max lo v)) = true
      /\ JS.le (JS.Math_min hi (JS.Math_max lo v)) hi = true).
Proof.
  intros Hle. destruct (le_not_nan _ _ Hle) as [Hlo Hhi].
  destruct (is_nan v) eqn:Hv.
  - rewrite (Math_max_nan lo v Hv).
    rewrite (Math_min_nan hi nan eq_refl). split; [reflexivity | discriminate].
  - destruct (Math_max_spec _ _ Hlo Hv) as [Hm [Hm1 _]].
    assert (Hn : is_nan (JS.Math_max lo v) = false)
      by (destruct Hm as [-> | ->]; assumption).
    destruct (Math_min_spec _ _ Hhi Hn) as [Hr [Hr1 _]].
    split.
    + destruct Hr as [-> | ->]; assumption.
    + intros _. split; [| assumption].
      destruct Hr as [-> | ->]; assumption.
Qed.

End Order.

(** ** The registry as a map *)

Section RegistryMore.

Lemma SlotId_eqb_neq (a b : SlotId) : SlotId_eqb a b = false <-> a <> b.
Proof. destruct a, b; simpl; split; congruence. Qed.

Lemma slots_get_keys m id :
  slots_get m id = None -> ~ In id (map fst m).
Proof.
  induction m as [| [k s0] m IH]; simpl; [tauto |].
  destruct (SlotId_eqb k id) eqn:E; [discriminate |].
  intros H [Hk | Hin]; [| now apply IH].
  apply SlotId_eqb_neq in E. contradiction.
Qed.

Lemma slots_set_keys m id s :
  map fst (slots_set m id s)
  = match slots_get m id with
    | Some _ => map fst m
    | None => map fst m ++ [id]
    end.
Proof.
  induction m as [| [k s0] m IH]; simpl; [reflexivity |].
  destruct (SlotId_eqb k id) eqn:E; simpl; [reflexivity |].
  rewrite IH. now destruct (slots_get m id).
Qed.

Lemma slots_set_keys_NoDup m id s :
  NoDup (map fst m) -> NoDup (map fst (slots_set m id s)).
Proof.
  intros H. rewrite slots_set_keys.
  destruct (slots_get m id) eqn:E; [assumption |].
  apply NoDup_app; [assumption | repeat constructor; simpl; tauto |].
  intros k Hk [Heq | []]. subst k. now apply (slots_get_keys m id).
Qed.

Lemma Forall_slots_set_key (P : SlotId * SlotState.t -> Prop) m id s :
  P (id, s) -> Forall P m -> Forall P (slots_set m id s).
Proof.
  intros Hs. induction 1 as [| [k s0] m Hk Hm IH]; simpl.
  - now repeat constructor.
  - destruct (SlotId_eqb k id) eqn:E.
    + apply SlotId_eqb_eq in E. subst k. now constructor.
    + now constructor.
Qed.

Lemma slots_set_idem m id s :
  slots_set (slots_set m id s) id s = slots_set m id s.
Proof.
  apply slots_set_get_id, slots_get_set_same.
Qed.

Lemma slots_get_registered m id s id' :
  slots_get m id' <> None -> slots_get (slots_set m id s) id' <> None.
Proof.
  intros H. destruct (SlotId_eqb id' id) eqn:E.
  - apply SlotId_eqb_eq in E. subst id'. now rewrite slots_get_set_same.
  - apply SlotId_eqb_neq in E. now rewrite slots_get_set_other.
Qed.

End RegistryMore.

(** ** The promises held by transition records *)

Section Held.

Lemma heldPromises_cons k s m :
  heldPromises ((k, s) :: m) = heldPromise s ++ heldPromises m.
Proof. reflexivity. Qed.

Lemma heldPromises_split m id s0 :
  slots_get m id = Some s0 ->
  exists l1 l2,
    heldPromises m = l1 ++ heldPromise s0 ++ l2
    /\ forall s, heldPromises (slots_set m id s) = l1 ++ heldPromise s ++ l2.
Proof.
  induction m as [| [k s1] m IH]; cbn [slots_get slots_set];
    [discriminate |].
  destruct (SlotId_eqb k id) eqn:E; intros H.
  - injection H as ->. exists [], (heldPromises m).
    split; [reflexivity | intros s; reflexivity].
  - destruct (IH H) as (l1 & l2 & H1 & H2).
    exists (heldPromise s1 ++ l1), l2. split.
    + rewrite heldPromises_cons, H1. now rewrite app_assoc.
    + intros s. rewrite heldPromises_cons, H2. now rewrite app_assoc.
Qed.

Lemma heldPromises_new m id s :
  slots_get m id = None ->
  heldPromises (slots_set m id s) = heldPromises m ++ heldPromise s.
Proof.
  induction m as [| [k s1] m IH]; cbn [slots_get slots_set].
  - intros _. unfold heldPromises. simpl. now rewrite app_nil_r.
  - destruct (SlotId_eqb k id) eqn:E; [discriminate |]. intros H.
    rewrite !heldPromises_cons, IH by assumption. now rewrite app_assoc.
Qed.

Lemma heldPromises_set_In m id s p :
  In p (heldPromises (slots_set m id s)) ->
  In p (heldPromise s) \/ In p (heldPromises m).
Proof.
  destruct (slots_get m id) as [s0 |] eqn:E.
  - destruct (heldPromises_split m id _ E) as (l1 & l2 & H1 & H2).
    rewrite H2, H1, !in_app_iff. tauto.
  - rewrite heldPromises_new by assumption. rewrite in_app_iff. tauto.
Qed.

Lemma heldPromises_get_In m id s p :
  slots_get m id = Some s -> In p (heldPromise s) -> In p (heldPromises m).
Proof.
  intros E H. destruct (heldPromises_split m id _ E) as (l1 & l2 & H1 & _).
  rewrite H1, !in_app_iff. tauto.
Qed.

End Held.

(** ** What one frame does to one slot *)

Section FrameSlot.

Variables (mouse : MouseState.t) (interactionEnabled : bool)
          (timestamp delta : float).

(** A frame leaves a slot's transition record in place, or completes the
    transition and resolves the promise the record held. *)
Lemma renderSlot_held slot :
  let slot' :=
    fst (fst (renderSlot mouse interactionEnabled timestamp delta slot)) in
  let r := snd (renderSlot mouse interactionEnabled timestamp delta slot) in
  (r = None /\ heldPromise slot' = heldPromise slot)
  \/ (exists p, r = Some p /\ heldPromise slot = [p] /\ heldPromise slot' = []).
Proof.
  unfold renderSlot, updateTransition, heldPromise.
  destruct (skipped slot); simpl; [now left |].
  destruct (SlotState.transition slot) as [t |] eqn:E; simpl;
    [| left; now rewrite E].
  destruct (JS.lt _ _); simpl; [left; now rewrite E |].
  destruct (forallb _ _); simpl; [| left; now rewrite E].
  destruct (TransitionState.status t); simpl; right; eauto.
Qed.

Lemma renderSlot_coherent slot :
  coherent slot ->
  coherent (fst (fst (renderSlot mouse interactionEnabled timestamp delta slot))).
Proof.
  unfold renderSlot, updateTransition, coherent.
  destruct (skipped slot); simpl; [tauto |].
  destruct (SlotState.transition slot) as [t |] eqn:E; simpl;
    [| now rewrite E].
  destruct (JS.lt _ _); simpl; [now rewrite E |].
  destruct (forallb _ _); simpl; [| now rewrite E].
  destruct (TransitionState.status t); simpl; intros [H1 H2]; tauto.
Qed.

Lemma renderSlot_config slot :
  SlotState.config
    (fst (fst (renderSlot mouse interactionEnabled timestamp delta slot)))
  = SlotState.config slot.
Proof.
  unfold renderSlot, updateTransition.
  destruct (skipped slot); simpl; [reflexivity |].
  destruct (SlotState.transition slot) as [t |]; simpl; [| reflexivity].
  destruct (JS.lt _ _); simpl; [reflexivity |].
  destruct (forallb _ _); simpl; [| reflexivity].
  destruct (TransitionState.status t); reflexivity.
Qed.

Lemma renderSlots_keys m :
  map fst (fst (fst (renderSlots mouse interactionEnabled timestamp delta m)))
  = map fst m.
Proof.
  induction m as [| [k s] m IH]; simpl; [reflexivity |].
  destruct (renderSlot mouse interactionEnabled timestamp delta s)
    as [[s' t] r].
  destruct (renderSlots mouse interactionEnabled timestamp delta m)
    as [[rest ts] rs].
  simpl in *. now rewrite IH.
Qed.

Lemma renderSlots_Forall (P Q : SlotId * SlotState.t -> Prop) m :
  (forall k s,
      P (k, s) ->
      Q (k, fst (fst (renderSlot mouse interactionEnabled timestamp delta s)))) ->
  Forall P m ->
  Forall Q (fst (fst (renderSlots mouse interactionEnabled timestamp delta m))).
Proof.
  intros HPQ. induction 1 as [| [k s] m Hk Hm IH]; simpl; [constructor |].
  specialize (HPQ k s Hk).
  destruct (renderSlot mouse interactionEnabled timestamp delta s)
    as [[s' t] r].
  destruct (renderSlots mouse interactionEnabled timestamp delta m)
    as [[rest ts] rs].
  simpl in *. now constructor.
Qed.

(** The promises a frame resolves are taken out of the transition records:
    together with those still held they are the promises held before. *)
Lemma renderSlots_held m :
  Permutation
    (snd (renderSlots mouse interactionEnabled timestamp delta m)
     ++ heldPromises
          (fst (fst (renderSlots mouse interactionEnabled timestamp delta m))))
    (heldPromises m).
Proof.
  induction m as [| [k s] m IH]; [constructor |].
  pose proof (renderSlot_held s) as Hs.
  cbn [renderSlots].
  destruct (renderSlot mouse interactionEnabled timestamp delta s)
    as [[s' t] r].
  destruct (renderSlots mouse interactionEnabled timestamp delta m)
    as [[rest ts] rs].
  cbn [fst snd] in *. rewrite !heldPromises_cons.
  destruct Hs as [[-> Hh] | [p [-> [Hp Hh]]]]; rewrite Hh.
  - rewrite Permutation_app_swap_app. now apply Permutation_app_head.
  - rewrite Hp. cbn [app]. now constructor.
Qed.

End FrameSlot.

(** ** Soundness of the engine state is kept by every operation *)

Section Sound.

Lemma sound_ext e e' :
  Engine.slots e' = Engine.slots e ->
  Engine.resolved e' = Engine.resolved e ->
  Engine.nextPromise e' = Engine.nextPromise e ->
  sound e -> sound e'.
Proof.
  unfold sound, promisesAccounted. intros -> -> ->. tauto.
Qed.

Lemma NoDup_remove_middle (A : Type) (a b c : list A) :
  NoDup (a ++ b ++ c) -> NoDup (a ++ c).
Proof.
  intros H. apply (NoDup_app_remove_l b).
  apply (Permutation_NoDup (Permutation_app_swap_app a b c) H).
Qed.

Lemma Forall_remove_middle (A : Type) (P : A -> Prop) (a b c : list A) :
  Forall P (a ++ b ++ c) -> Forall P (a ++ c).
Proof.
  rewrite !Forall_app. tauto.
Qed.

Lemma prepareParticles_standing slot :
  SlotState.config (prepareParticles slot) = SlotState.config slot
  /\ SlotState.visible (prepareParticles slot) = SlotState.visible slot
  /\ SlotState.image (prepareParticles slot) = SlotState.image slot
  /\ SlotState.imageReady (prepareParticles slot) = SlotState.imageReady slot
  /\ SlotState.status (prepareParticles slot) = SlotState.status slot
  /\ SlotState.transition (prepareParticles slot) = SlotState.transition slot
  /\ SlotState.alpha (prepareParticles slot) = SlotState.alpha slot.
Proof.
  unfold prepareParticles.
  destruct (_ || _ || _); [tauto |].
  destruct (HTMLImageElement.raster _ _ _); simpl; tauto.
Qed.

Lemma updateSlotRect_slot_standing slot rect :
  SlotState.config (updateSlotRect_slot slot rect)
  = SlotConfig.with_rect (SlotState.config slot) rect
  /\ SlotState.visible (updateSlotRect_slot slot rect) = SlotState.visible slot
  /\ SlotState.image (updateSlotRect_slot slot rect) = SlotState.image slot
  /\ SlotState.imageReady (updateSlotRect_slot slot rect)
     = SlotState.imageReady slot
  /\ SlotState.status (updateSlotRect_slot slot rect) = SlotState.status slot
  /\ SlotState.transition (updateSlotRect_slot slot rect)
     = SlotState.transition slot
  /\ SlotState.alpha (updateSlotRect_slot slot rect) = SlotState.alpha slot.
Proof.
  unfold updateSlotRect_slot.
  set (slot1 := SlotState.with_config slot _).
  destruct (HTMLImageElement.complete (SlotState.image slot1));
    [| simpl; tauto].
  destruct (prepareParticles_standing slot1)
    as (H1 & H2 & H3 & H4 & H5 & H6 & H7).
  destruct (SlotState.status (prepareParticles slot1)) eqn:E; simpl;
    rewrite ?H1, ?H2, ?H3, ?H4, ?H6, ?H7, <- ?H5, ?E; simpl; tauto.
Qed.

Lemma coherent_standing s s' :
  SlotState.status s' = SlotState.status s ->
  SlotState.transition s' = SlotState.transition s ->
  SlotState.visible s' = SlotState.visible s ->
  SlotState.alpha s' = SlotState.alpha s ->
  coherent s -> coherent s'.
Proof.
  unfold coherent. now intros -> -> -> ->.
Qed.

Lemma heldPromise_transition s s' :
  SlotState.transition s' = SlotState.transition s ->
  heldPromise s' = heldPromise s.
Proof.
  unfold heldPromise. now intros ->.
Qed.

(** Replacing a registered slot by one that holds the same promise, or
    none. *)
Lemma sound_set e id s0 s :
  sound e ->
  slots_get (Engine.slots e) id = Some s0 ->
  heldPromise s = heldPromise s0 \/ heldPromise s = [] ->
  coherent s ->
  SlotConfig.id (SlotState.config s) = id ->
  sound (Engine.with_slots e (slots_set (Engine.slots e) id s)).
Proof.
  intros ((Hk1 & Hk2) & Hc & Hp1 & Hp2) Hget Hheld Hcoh Hid.
  unfold sound, keyed, promisesAccounted. cbn [Engine.slots Engine.with_slots
    Engine.resolved Engine.nextPromise].
  split; [split |]; [| | split; [| split]].
  - now apply slots_set_keys_NoDup.
  - now apply Forall_slots_set_key.
  - now apply Forall_slots_set_key.
  - destruct (heldPromises_split _ _ _ Hget) as (l1 & l2 & H1 & H2).
    rewrite H2. rewrite H1 in Hp1.
    destruct Hheld as [-> | ->]; [assumption |].
    rewrite app_assoc in Hp1 |- *. cbn [app].
    now apply NoDup_remove_middle in Hp1.
  - destruct (heldPromises_split _ _ _ Hget) as (l1 & l2 & H1 & H2).
    rewrite H2. rewrite H1 in Hp2.
    destruct Hheld as [-> | ->]; [assumption |].
    rewrite app_assoc in Hp2 |- *. cbn [app].
    now apply Forall_remove_middle in Hp2.
Qed.

Lemma sound_registerSlot e config : sound e -> sound (registerSlot e config).
Proof.
  intros Hs. unfold registerSlot.
  destruct (slots_get (Engine.slots e) (SlotConfig.id config))
    as [existing |] eqn:Hget.
  - pose proof Hs as (_ & Hc & _).
    pose proof (Forall_slots_get _ Hc Hget) as Hcoh. simpl in Hcoh.
    destruct (prepareParticles_standing
                (SlotState.with_config existing config))
      as (H1 & H2 & _ & _ & H5 & H6 & H7).
    apply (sound_set _ _ _ _ Hs Hget).
    + left. now rewrite (heldPromise_transition _ _ H6).
    + now apply (coherent_standing existing).
    + now rewrite H1.
  - destruct Hs as ((Hk1 & Hk2) & Hc & Hp1 & Hp2).
    unfold sound, keyed, promisesAccounted.
    cbn [Engine.slots Engine.with_slots Engine.resolved Engine.nextPromise].
    rewrite heldPromises_new by assumption.
    change (heldPromise (SlotState.mk config false
                           (HTMLImageElement.mk false (fun _ _ => None))
                           Pending [] hidden None 0)) with (@nil PromiseId).
    rewrite !app_nil_r.
    split; [split |]; [| | split; [| split]]; try assumption.
    + now apply slots_set_keys_NoDup.
    + now apply Forall_slots_set_key.
    + apply Forall_slots_set_key; [| assumption]. simpl. left. now split.
Qed.

Lemma sound_imageLoaded e id raster : sound e -> sound (imageLoaded e id raster).
Proof.
  intros Hs. unfold imageLoaded.
  destruct (slots_get (Engine.slots e) id) as [s |] eqn:Hget; [| assumption].
  pose proof Hs as ((_ & Hk) & Hc & _).
  pose proof (Forall_slots_get _ Hc Hget) as Hcoh. simpl in Hcoh.
  pose proof (Forall_slots_get _ Hk Hget) as Hid. simpl in Hid.
  match goal with |- context [prepareParticles ?x] =>
    destruct (prepareParticles_standing x) as (H1 & H2 & _ & _ & H5 & H6 & H7)
  end.
  apply (sound_set _ _ _ _ Hs Hget).
  - left. now rewrite (heldPromise_transition _ _ H6).
  - now apply (coherent_standing s).
  - now rewrite H1.
Qed.

Lemma sound_updateSlotRect e id rect : sound e -> sound (updateSlotRect e id rect).
Proof.
  intros Hs. unfold updateSlotRect.
  destruct (slots_get (Engine.slots e) id) as [s |] eqn:Hget; [| assumption].
  pose proof Hs as ((_ & Hk) & Hc & _).
  pose proof (Forall_slots_get _ Hc Hget) as Hcoh. simpl in Hcoh.
  pose proof (Forall_slots_get _ Hk Hget) as Hid. simpl in Hid.
  destruct (updateSlotRect_slot_standing s rect)
    as (H1 & H2 & _ & _ & H5 & H6 & H7).
  apply (sound_set _ _ _ _ Hs Hget).
  - left. now rewrite (heldPromise_transition _ _ H6).
  - now apply (coherent_standing s).
  - now rewrite H1.
Qed.

Lemma sound_setSlotVisible e id visible :
  sound e -> sound (setSlotVisible e id visible).
Proof.
  intros Hs. unfold setSlotVisible.
  destruct (slots_get (Engine.slots e) id) as [s |] eqn:Hget; [| assumption].
  pose proof Hs as ((_ & Hk) & Hc & _).
  pose proof (Forall_slots_get _ Hc Hget) as Hcoh. simpl in Hcoh.
  pose proof (Forall_slots_get _ Hk Hget) as Hid. simpl in Hid.
  apply (sound_set _ _ _ _ Hs Hget); destruct visible; simpl; auto.
  - unfold coherent in *. simpl.
    destruct (SlotState.transition s); [tauto |].
    destruct Hcoh as [H | H]; [now left | now right].
  - unfold coherent. simpl. now left.
Qed.

Lemma runTransition_fields e id slot status direction durationMs now :
  JS.le (SlotRect.w (SlotConfig.rect (SlotState.config slot))) 0
  || JS.le (SlotRect.h (SlotConfig.rect (SlotState.config slot))) 0 = false ->
  let e' := snd (runTransition e id slot status direction durationMs now) in
  Engine.slots e'
  = slots_set (Engine.slots e) id
      (reseedSlot e slot status direction durationMs now)
  /\ Engine.resolved e' = Engine.resolved e ++ heldPromise slot
  /\ Engine.nextPromise e' = S (Engine.nextPromise e).
Proof.
  intros Hm. unfold runTransition. rewrite Hm. cbn [snd].
  unfold updateBusyState. rewrite slots_setBusy, resolved_setBusy.
  unfold setBusy. 
  split; [reflexivity | split].
  - cbn. unfold resolveStale, heldPromise.
    destruct (SlotState.transition slot); [reflexivity | now rewrite app_nil_r].
  - match goal with |- context [if ?c then _ else _] => destruct c end;
      reflexivity.
Qed.

Lemma sound_runTransition e id slot status direction durationMs now :
  sound e ->
  slots_get (Engine.slots e) id = Some slot ->
  sound (snd (runTransition e id slot status direction durationMs now)).
Proof.
  intros Hs Hget.
  destruct (JS.le (SlotRect.w (SlotConfig.rect (SlotState.config slot))) 0
            || JS.le (SlotRect.h (SlotConfig.rect (SlotState.config slot))) 0)
    eqn:Hm.
  - unfold runTransition. now rewrite Hm.
  - destruct (runTransition_fields e id slot status direction durationMs now Hm)
      as (H1 & H2 & H3).
    destruct Hs as ((Hk1 & Hk2) & Hc & Hp1 & Hp2).
    pose proof (Forall_slots_get _ Hk2 Hget) as Hid. simpl in Hid.
    unfold sound, keyed, promisesAccounted. rewrite H1, H2, H3.
    destruct (heldPromises_split _ _ _ Hget) as (l1 & l2 & E1 & E2).
    rewrite E2. rewrite E1 in Hp1, Hp2.
    assert (Hperm :
      Permutation
        (Engine.nextPromise e
           :: Engine.resolved e ++ l1 ++ heldPromise slot ++ l2)
        ((Engine.resolved e ++ heldPromise slot)
           ++ l1 ++ heldPromise
                      (reseedSlot e slot status direction durationMs now)
           ++ l2)).
    { change (heldPromise (reseedSlot e slot status direction durationMs now))
        with [Engine.nextPromise e].
      generalize (heldPromise slot) as h, (Engine.resolved e) as R,
                 (Engine.nextPromise e) as n.
      intros h R n.
      transitivity (n :: (R ++ h) ++ l1 ++ l2).
      - constructor. rewrite <- app_assoc. apply Permutation_app_head.
        apply Permutation_app_swap_app.
      - change ([n] ++ l2) with (n :: l2).
        rewrite (app_assoc (R ++ h) l1 (n :: l2)).
        rewrite (app_assoc (R ++ h) l1 l2).
        apply Permutation_middle. }
    split; [split |]; [| | split; [| split]].
    + now apply slots_set_keys_NoDup.
    + now apply Forall_slots_set_key.
    + apply Forall_slots_set_key; [| assumption].
      unfold coherent. simpl. now split.
    + apply (Permutation_NoDup Hperm). constructor; [| assumption].
      intros Hin. rewrite Forall_forall in Hp2.
      specialize (Hp2 _ Hin). lia.
    + apply (Permutation_Forall Hperm). constructor; [lia |].
      eapply Forall_impl; [| exact Hp2]. simpl. intros; lia.
Qed.

Lemma sound_requestTransition status e id opts now :
  sound e -> sound (snd (requestTransition status e id opts now)).
Proof.
  intros Hs. unfold requestTransition.
  destruct (slots_get (Engine.slots e) id) as [slot |] eqn:Hget;
    [| assumption].
  destruct (SlotState.imageReady slot); try assumption.
  now apply sound_runTransition.
Qed.

Lemma render_nextPromise e timestamp :
  Engine.nextPromise (render e timestamp) = Engine.nextPromise e.
Proof.
  unfold render. destruct (negb (Engine.context e)); [reflexivity |].
  destruct (renderSlots _ _ _ _ _) as [[slots' h] rs].
  unfold setBusy, setInteractionEnabled.
  destruct h; destruct (Bool.eqb _ _); reflexivity.
Qed.

Lemma sound_render e timestamp : sound e -> sound (render e timestamp).
Proof.
  intros Hs. destruct (Engine.context e) eqn:Hctx.
  - destruct (@render_effects e timestamp Hctx) as (H1 & H2 & _).
    destruct Hs as ((Hk1 & Hk2) & Hc & Hp1 & Hp2).
    unfold sound, keyed, promisesAccounted.
    rewrite H1, H2, render_nextPromise, renderSlots_keys.
    assert (Hperm :
      Permutation
        (Engine.resolved e ++ heldPromises (Engine.slots e))
        ((Engine.resolved e
            ++ snd (renderSlots (Engine.mouse e) (Engine.interactionEnabled e)
                      timestamp (frameDelta e timestamp) (Engine.slots e)))
           ++ heldPromises
                (fst (fst (renderSlots (Engine.mouse e)
                             (Engine.interactionEnabled e) timestamp
                             (frameDelta e timestamp) (Engine.slots e)))))).
    { rewrite <- app_assoc. apply Permutation_app_head.
      symmetry. apply renderSlots_held. }
    split; [split |]; [| | split; [| split]].
    + assumption.
    + apply (renderSlots_Forall _ _ _ _
               (fun kv => SlotConfig.id (SlotState.config (snd kv)) = fst kv));
        [| assumption].
      intros k s H. simpl in *. now rewrite renderSlot_config.
    + apply (renderSlots_Forall _ _ _ _ (fun kv => coherent (snd kv)));
        [| assumption].
      intros k s H. simpl in *. now apply renderSlot_coherent.
    + apply (Permutation_NoDup Hperm Hp1).
    + apply (Permutation_Forall Hperm Hp2).
  - unfold render. now rewrite Hctx.
Qed.

Lemma sound_step e ev : sound e -> sound (step e ev).
Proof.
  destruct ev; simpl; [apply sound_render | | | |];
    now apply sound_ext.
Qed.

Lemma createAmbientParticles_keeps e :
  let e' := engineAfter (createAmbientParticles e) in
  Engine.slots e' = Engine.slots e
  /\ Engine.resolved e' = Engine.resolved e
  /\ Engine.nextPromise e' = Engine.nextPromise e
  /\ Engine.busy e' = Engine.busy e
  /\ Engine.busyCalls e' = Engine.busyCalls e
  /\ Engine.canvas e' = Engine.canvas e
  /\ Engine.context e' = Engine.context e.
Proof.
  unfold createAmbientParticles.
  destruct (_ || _); [simpl; tauto |].
  destruct (is_nan _); simpl; tauto.
Qed.

Lemma mount_keeps e pointerEvents hasContext now :
  let e' := engineAfter (mount e pointerEvents hasContext now) in
  Engine.slots e' = Engine.slots e
  /\ Engine.resolved e' = Engine.resolved e
  /\ Engine.nextPromise e' = Engine.nextPromise e
  /\ Engine.busy e' = Engine.busy e
  /\ Engine.busyCalls e' = Engine.busyCalls e.
Proof.
  unfold mount. destruct hasContext; cbn [negb]; [| simpl; tauto].
  match goal with |- context [createAmbientParticles ?x] =>
    destruct (createAmbientParticles_keeps x) as (H1 & H2 & H3 & H4 & H5 & _)
  end.
  cbv zeta. rewrite H1, H2, H3, H4, H5. simpl. tauto.
Qed.

Lemma resize_keeps e width height :
  let e' := engineAfter (resize e width height) in
  Engine.slots e' = Engine.slots e
  /\ Engine.resolved e' = Engine.resolved e
  /\ Engine.nextPromise e' = Engine.nextPromise e
  /\ Engine.busy e' = Engine.busy e
  /\ Engine.busyCalls e' = Engine.busyCalls e
  /\ Engine.canvas e' = Engine.canvas e
  /\ Engine.context e' = Engine.context e.
Proof.
  unfold resize. destruct (Engine.canvas e) eqn:Hc; [| simpl; tauto].
  destruct (Engine.context e) eqn:Hx; cbn [negb]; [| simpl; tauto].
  match goal with |- context [createAmbientParticles ?x] =>
    destruct (createAmbientParticles_keeps x)
      as (H1 & H2 & H3 & H4 & H5 & H6 & H7)
  end.
  cbv zeta. rewrite H1, H2, H3, H4, H5, H6, H7. simpl. tauto.
Qed.

Lemma sound_destroy e : sound e -> sound (destroy e).
Proof.
  intros (_ & _ & Hp1 & Hp2).
  unfold sound, keyed, promisesAccounted, destroy. simpl.
  rewrite app_nil_r.
  split; [split; constructor |]. split; [constructor |]. split.
  - now apply NoDup_app_remove_r in Hp1.
  - rewrite Forall_app in Hp2. tauto.
Qed.

Lemma sound_call e c : sound e -> sound (call e c).
Proof.
  intros Hs. destruct c; cbn [call].
  - destruct (mount_keeps e pointerEvents hasContext now)
      as (H1 & H2 & H3 & _).
    now apply (sound_ext e).
  - destruct (resize_keeps e width height) as (H1 & H2 & H3 & _).
    now apply (sound_ext e).
  - now apply sound_destroy.
  - now apply sound_registerSlot.
  - now apply sound_imageLoaded.
  - now apply sound_updateSlotRect.
  - now apply sound_setSlotVisible.
  - now apply (sound_ext e).
  - now apply (sound_requestTransition assembling).
  - now apply (sound_requestTransition disassembling).
  - now apply sound_step.
Qed.

Lemma sound_history cs : forall e, sound e -> sound (history e cs).
Proof.
  induction cs as [| c cs IH]; intros e Hs; [assumption |].
  apply IH. now apply sound_call.
Qed.

Lemma sound_constructed random : sound (constructed random).
Proof.
  unfold sound, keyed, promisesAccounted, constructed. simpl.
  repeat split; constructor.
Qed.

End Sound.

Lemma NoDup_app_disjoint (A : Type) (l1 l2 : list A) :
  NoDup (l1 ++ l2) -> forall a, In a l1 -> ~ In a l2.
Proof.
  induction l1 as [| x l1 IH]; simpl; [tauto |].
  intros H a [-> | Hin] H2; inversion H; subst.
  - apply H3. apply in_app_iff. now right.
  - now apply (IH H4 a).
Qed.

(** ** Promises nothing can resolve any more *)

Section Lost.

Variable p : PromiseId.

Lemma lost_ext e e' :
  Engine.slots e' = Engine.slots e ->
  Engine.resolved e' = Engine.resolved e ->
  Engine.nextPromise e' = Engine.nextPromise e ->
  lost p e -> lost p e'.
Proof.
  unfold lost. intros -> -> ->. tauto.
Qed.

Lemma lost_slots_set e id s :
  lost p e -> ~ In p (heldPromise s) ->
  lost p (Engine.with_slots e (slots_set (Engine.slots e) id s)).
Proof.
  intros (H1 & H2 & H3) Hs. unfold lost.
  cbn [Engine.slots Engine.with_slots Engine.resolved Engine.nextPromise].
  repeat split; try assumption.
  intros Hin. apply heldPromises_set_In in Hin. tauto.
Qed.

Lemma lost_not_held e id s :
  lost p e -> slots_get (Engine.slots e) id = Some s ->
  ~ In p (heldPromise s).
Proof.
  intros (_ & _ & H3) Hget Hin. apply H3.
  now apply (heldPromises_get_In _ id s).
Qed.

Lemma lost_registerSlot e config : lost p e -> lost p (registerSlot e config).
Proof.
  intros Hl. unfold registerSlot.
  destruct (slots_get (Engine.slots e) (SlotConfig.id config))
    as [existing |] eqn:Hget; apply lost_slots_set; try assumption.
  - rewrite (heldPromise_transition existing).
    + now apply (lost_not_held e (SlotConfig.id config)).
    + now rewrite prepareParticles_transition.
  - simpl. tauto.
Qed.

Lemma lost_imageLoaded e id raster : lost p e -> lost p (imageLoaded e id raster).
Proof.
  intros Hl. unfold imageLoaded.
  destruct (slots_get (Engine.slots e) id) as [s |] eqn:Hget; [| assumption].
  apply lost_slots_set; [assumption |].
  rewrite (heldPromise_transition s).
  - now apply (lost_not_held e id).
  - now rewrite prepareParticles_transition.
Qed.

Lemma lost_updateSlotRect e id rect : lost p e -> lost p (updateSlotRect e id rect).
Proof.
  intros Hl. unfold updateSlotRect.
  destruct (slots_get (Engine.slots e) id) as [s |] eqn:Hget; [| assumption].
  apply lost_slots_set; [assumption |].
  rewrite (heldPromise_transition s).
  - now apply (lost_not_held e id).
  - now rewrite updateSlotRect_slot_transition.
Qed.

Lemma lost_setSlotVisible e id visible :
  lost p e -> lost p (setSlotVisible e id visible).
Proof.
  intros Hl. unfold setSlotVisible.
  destruct (slots_get (Engine.slots e) id) as [s |] eqn:Hget; [| assumption].
  apply lost_slots_set; [assumption |].
  destruct visible.
  - intros Hin. apply (lost_not_held e id s Hl Hget). exact Hin.
  - simpl. tauto.
Qed.

Lemma lost_requestTransition status e id opts now :
  lost p e -> lost p (snd (requestTransition status e id opts now)).
Proof.
  intros Hl. unfold requestTransition.
  destruct (slots_get (Engine.slots e) id) as [slot |] eqn:Hget;
    [| assumption].
  destruct (SlotState.imageReady slot); try assumption.
  destruct (JS.le (SlotRect.w (SlotConfig.rect (SlotState.config slot))) 0
            || JS.le (SlotRect.h (SlotConfig.rect (SlotState.config slot))) 0)
    eqn:Hm.
  - unfold runTransition. now rewrite Hm.
  - match goal with |- lost p (snd (runTransition ?e ?id ?s ?st ?d ?ms ?n)) =>
      destruct (runTransition_fields e id s st d ms n Hm) as (H1 & H2 & H3)
    end.
    pose proof (lost_not_held e id slot Hl Hget) as Hslot.
    destruct Hl as (L1 & L2 & L3).
    unfold lost. rewrite H1, H2, H3. split; [lia | split].
    + rewrite in_app_iff. tauto.
    + intros Hin. apply heldPromises_set_In in Hin.
      destruct Hin as [Hin | Hin]; [| tauto].
      simpl in Hin. lia.
Qed.

Lemma lost_render e timestamp : lost p e -> lost p (render e timestamp).
Proof.
  intros Hl. destruct (Engine.context e) eqn:Hctx.
  - destruct (@render_effects e timestamp Hctx) as (H1 & H2 & _).
    destruct Hl as (L1 & L2 & L3).
    unfold lost. rewrite H1, H2, render_nextPromise.
    pose proof (renderSlots_held (Engine.mouse e)
                  (Engine.interactionEnabled e) timestamp
                  (frameDelta e timestamp) (Engine.slots e)) as Hperm.
    split; [assumption | split].
    + rewrite in_app_iff. intros [Hin | Hin]; [tauto |].
      apply L3. apply (Permutation_in _ Hperm).
      rewrite in_app_iff. now left.
    + intros Hin. apply L3. apply (Permutation_in _ Hperm).
      rewrite in_app_iff. now right.
  - unfold render. now rewrite Hctx.
Qed.

Lemma lost_call e c : lost p e -> lost p (call e c).
Proof.
  intros Hl. destruct c; cbn [call].
  - destruct (mount_keeps e pointerEvents hasContext now)
      as (H1 & H2 & H3 & _).
    now apply (lost_ext e).
  - destruct (resize_keeps e width height) as (H1 & H2 & H3 & _).
    now apply (lost_ext e).
  - destruct Hl as (L1 & L2 & L3). unfold lost, destroy. simpl. tauto.
  - now apply lost_registerSlot.
  - now apply lost_imageLoaded.
  - now apply lost_updateSlotRect.
  - now apply lost_setSlotVisible.
  - now apply (lost_ext e).
  - now apply (lost_requestTransition assembling).
  - now apply (lost_requestTransition disassembling).
  - destruct ev; simpl; [now apply lost_render | | | |];
      now apply (lost_ext e).
Qed.

Lemma lost_history cs : forall e, lost p e -> lost p (history e cs).
Proof.
  induction cs as [| c cs IH]; intros e Hl; [assumption |].
  apply IH. now apply lost_call.
Qed.

End Lost.

(** ** The log of busy changes *)

Section BusyLog.

Lemma last_default (A : Type) (l : list A) (x d d' : A) :
  last (x :: l) d = last (x :: l) d'.
Proof.
  revert x. induction l as [| y l IH]; intros x; [reflexivity |].
  change (last (y :: l) d = last (y :: l) d'). apply IH.
Qed.

Lemma flips_app b calls x :
  flips b (calls ++ [x]) <-> flips b calls /\ x = negb (last calls b).
Proof.
  revert b. induction calls as [| y calls IH]; intros b.
  - simpl. tauto.
  - cbn [app flips]. rewrite IH.
    destruct calls as [| z calls]; [simpl; tauto |].
    change (last (y :: z :: calls) b) with (last (z :: calls) b).
    rewrite (last_default bool calls z y b). tauto.
Qed.

Lemma busyLogged_ext e e' :
  Engine.busy e' = Engine.busy e ->
  Engine.busyCalls e' = Engine.busyCalls e ->
  busyLogged e -> busyLogged e'.
Proof.
  unfold busyLogged. now intros -> ->.
Qed.

Lemma busyLogged_change e e' b :
  Engine.busy e' = b ->
  Engine.busyCalls e'
  = Engine.busyCalls e ++ (if Bool.eqb (Engine.busy e) b then [] else [b]) ->
  busyLogged e -> busyLogged e'.
Proof.
  unfold busyLogged. intros <- -> [H1 H2].
  destruct (Bool.eqb (Engine.busy e) (Engine.busy e')) eqn:E.
  - rewrite app_nil_r. apply eqb_prop in E. now rewrite <- E.
  - rewrite flips_app, last_last. split; [split |]; try tauto.
    rewrite H2. apply eqb_false_iff in E.
    destruct (Engine.busy e), (Engine.busy e'); simpl; congruence.
Qed.

Lemma busyLogged_requestTransition status e id opts now :
  busyLogged e -> busyLogged (snd (requestTransition status e id opts now)).
Proof.
  intros Hl. unfold requestTransition.
  destruct (slots_get (Engine.slots e) id) as [slot |] eqn:Hget;
    [| assumption].
  destruct (SlotState.imageReady slot); try assumption.
  destruct (JS.le (SlotRect.w (SlotConfig.rect (SlotState.config slot))) 0
            || JS.le (SlotRect.h (SlotConfig.rect (SlotState.config slot))) 0)
    eqn:Hm.
  - unfold runTransition. now rewrite Hm.
  - apply orb_false_iff in Hm.
    match goal with |- busyLogged (snd (runTransition ?e ?id ?s ?st ?d ?ms ?n)) =>
      destruct (@runTransition_started e id s st d ms n Hm)
        as (_ & _ & _ & _ & _ & H1 & H2 & _)
    end.
    apply (busyLogged_change e _ true); try assumption.
    rewrite H2. now destruct (Engine.busy e).
Qed.

Lemma busyLogged_render e timestamp :
  busyLogged e -> busyLogged (render e timestamp).
Proof.
  intros Hl. destruct (Engine.context e) eqn:Hctx.
  - destruct (@render_effects e timestamp Hctx) as (_ & _ & H1 & H2 & _).
    now apply (busyLogged_change e _ _ H1 H2).
  - unfold render. now rewrite Hctx.
Qed.

Lemma busyLogged_call e c : busyLogged e -> busyLogged (call e c).
Proof.
  intros Hl. destruct c; cbn [call].
  - destruct (mount_keeps e pointerEvents hasContext now)
      as (_ & _ & _ & H1 & H2).
    now apply (busyLogged_ext e).
  - destruct (resize_keeps e width height) as (_ & _ & _ & H1 & H2 & _).
    now apply (busyLogged_ext e).
  - now apply (busyLogged_ext e).
  - apply (busyLogged_ext e); try assumption;
      unfold registerSlot; now destruct (slots_get _ _).
  - apply (busyLogged_ext e); try assumption;
      unfold imageLoaded; now destruct (slots_get _ _).
  - apply (busyLogged_ext e); try assumption;
      unfold updateSlotRect; now destruct (slots_get _ _).
  - apply (busyLogged_ext e); try assumption;
      unfold setSlotVisible; now destruct (slots_get _ _).
  - now apply (busyLogged_ext e).
  - now apply (busyLogged_requestTransition assembling).
  - now apply (busyLogged_requestTransition disassembling).
  - destruct ev; simpl; [now apply busyLogged_render | | | |];
      now apply (busyLogged_ext e).
Qed.

Lemma busyLogged_history cs : forall e, busyLogged e -> busyLogged (history e cs).
Proof.
  induction cs as [| c cs IH]; intros e Hl; [assumption |].
  apply IH. now apply busyLogged_call.
Qed.

End BusyLog.

(** ** Calls in flight *)

Section Framed.

Variable f : list PromiseId.

Lemma setBusy_framed e b : setBusy (framed f e) b = framed f (setBusy e b).
Proof.
  unfold setBusy, framed. cbn.
  destruct (Bool.eqb (Engine.busy e) b); reflexivity.
Qed.

Lemma createAmbientParticles_framed e :
  engineAfter (createAmbientParticles (framed f e))
  = framed f (engineAfter (createAmbientParticles e)).
Proof.
  unfold createAmbientParticles, framed. cbn.
  destruct (_ || _); [reflexivity |].
  destruct (is_nan _); reflexivity.
Qed.

Lemma render_framed e timestamp :
  render (framed f e) timestamp = framed f (render e timestamp).
Proof.
  unfold render. cbn [framed Engine.context Engine.with_resolved].
  destruct (negb (Engine.context e)); [reflexivity |].
  change (frameDelta (framed f e) timestamp) with (frameDelta e timestamp).
  cbn [framed Engine.mouse Engine.interactionEnabled Engine.slots
       Engine.with_resolved].
  destruct (renderSlots _ _ _ _ _) as [[slots' h] rs].
  match goal with
  | |- (if h then setBusy ?a h else _) = _ =>
      replace a with
        (framed f
           (Engine.with_resolved
              (Engine.with_slots
                 (updateAmbientParticles
                    (Engine.with_lastFrameTime e timestamp)
                    (frameDelta e timestamp)) slots')
              (Engine.resolved e ++ rs)))
  end.
  - rewrite setBusy_framed. destruct h; reflexivity.
  - unfold framed. cbn. now rewrite app_assoc.
Qed.

Lemma runTransition_framed e id slot status direction durationMs now :
  runTransition (framed f e) id slot status direction durationMs now
  = (fst (runTransition e id slot status direction durationMs now),
     framed f (snd (runTransition e id slot status direction durationMs now))).
Proof.
  unfold runTransition.
  destruct (_ || _); [reflexivity |]. cbn [fst snd].
  f_equal. unfold updateBusyState.
  match goal with
  | |- setBusy ?a ?b = framed f (setBusy ?c ?d) =>
      change b with d; replace a with (framed f c)
  end.
  - apply setBusy_framed.
  - unfold framed, resolveStale, setInteractionEnabled. cbn.
    destruct (SlotState.transition slot); cbn; now rewrite ?app_assoc.
Qed.

Lemma requestTransition_framed status e id opts now :
  requestTransition status (framed f e) id opts now
  = (fst (requestTransition status e id opts now),
     framed f (snd (requestTransition status e id opts now))).
Proof.
  unfold requestTransition. cbn [framed Engine.slots Engine.with_resolved].
  destruct (slots_get (Engine.slots e) id) as [slot |]; [| reflexivity].
  destruct (SlotState.imageReady slot); try reflexivity.
  apply runTransition_framed.
Qed.

Lemma call_framed e c : call (framed f e) c = framed f (call e c).
Proof.
  destruct c; cbn [call].
  - unfold mount. destruct hasContext; cbn [negb]; [| reflexivity].
    match goal with
    | |- engineAfter (createAmbientParticles ?a)
         = framed f (engineAfter (createAmbientParticles ?b)) =>
        change a with (framed f b)
    end.
    apply createAmbientParticles_framed.
  - unfold resize. cbn [framed Engine.canvas Engine.context Engine.with_resolved].
    destruct (Engine.canvas e); [| reflexivity].
    destruct (negb (Engine.context e)); [reflexivity |].
    match goal with
    | |- engineAfter (createAmbientParticles ?a)
         = framed f (engineAfter (createAmbientParticles ?b)) =>
        change a with (framed f b)
    end.
    apply createAmbientParticles_framed.
  - reflexivity.
  - unfold registerSlot. cbn [framed Engine.slots Engine.with_resolved].
    destruct (slots_get _ _); reflexivity.
  - unfold imageLoaded. cbn [framed Engine.slots Engine.with_resolved].
    destruct (slots_get _ _); reflexivity.
  - unfold updateSlotRect. cbn [framed Engine.slots Engine.with_resolved].
    destruct (slots_get _ _); reflexivity.
  - unfold setSlotVisible. cbn [framed Engine.slots Engine.with_resolved].
    destruct (slots_get _ _); reflexivity.
  - reflexivity.
  - unfold assemble. now rewrite requestTransition_framed.
  - unfold disassemble. now rewrite requestTransition_framed.
  - destruct ev; cbn [step]; [apply render_framed | | | |]; reflexivity.
Qed.

End Framed.

(** ** Lists of promises *)

Section PromiseLists.

Lemma Permutation_occurrences (l1 l2 : list PromiseId) :
  (forall x, count_occ Nat.eq_dec l1 x = count_occ Nat.eq_dec l2 x) ->
  Permutation l1 l2.
Proof. apply (Permutation_count_occ Nat.eq_dec). Qed.

Lemma setNth_split (A : Type) (x : A) : forall l n d,
  nth_error l n = Some d ->
  exists l1 l2, l = l1 ++ d :: l2 /\ setNth n x l = l1 ++ x :: l2.
Proof.
  induction l as [| y l IH]; intros [| n] d H; try discriminate.
  - injection H as ->. now exists [], l.
  - destruct (IH n d H) as (l1 & l2 & H1 & H2).
    exists (y :: l1), l2. cbn [setNth app]. now rewrite <- H1, H2.
Qed.

Lemma detachedPromises_app ds1 ds2 :
  detachedPromises (ds1 ++ ds2) = detachedPromises ds1 ++ detachedPromises ds2.
Proof. apply flat_map_app. Qed.

Lemma detachedPromises_cons d ds :
  detachedPromises (d :: ds)
  = heldPromise (DetachedSlot.slot d) ++ detachedPromises ds.
Proof. reflexivity. Qed.

Lemma detachedPromises_slots (calls : SlotId -> list PendingCall.t) m :
  detachedPromises
    (map (fun kv => DetachedSlot.mk (snd kv) (calls (fst kv))) m)
  = heldPromises m.
Proof.
  induction m as [| [k s] m IH]; [reflexivity |].
  cbn [map]. rewrite detachedPromises_cons, heldPromises_cons. now rewrite IH.
Qed.

(** Replacing a detached slot by one that holds the same promise. *)
Lemma detachedPromises_setNth ds n d d' :
  nth_error ds n = Some d ->
  heldPromise (DetachedSlot.slot d') = heldPromise (DetachedSlot.slot d) ->
  detachedPromises (setNth n d' ds) = detachedPromises ds.
Proof.
  intros Hn Hh. destruct (setNth_split _ d' ds n d Hn) as (l1 & l2 & -> & ->).
  rewrite !detachedPromises_app, !detachedPromises_cons. now rewrite Hh.
Qed.

End PromiseLists.

Ltac occurrences :=
  apply Permutation_occurrences; intros ?;
  repeat (progress (repeat rewrite count_occ_app; cbn [count_occ]));
  repeat match goal with
         | |- context [Nat.eq_dec ?a ?b] => destruct (Nat.eq_dec a b)
         end;
  lia.

(** ** Every promise stays accounted for *)

Section Accounted.

Lemma accounted_launched random : accounted (launched random).
Proof.
  unfold accounted, launched, sound, keyed, promisesAccounted. simpl.
  repeat split; constructor.
Qed.

Lemma runTransitionDetached_fields e slot status direction durationMs now :
  JS.le (SlotRect.w (SlotConfig.rect (SlotState.config slot))) 0
  || JS.le (SlotRect.h (SlotConfig.rect (SlotState.config slot))) 0 = false ->
  let r := runTransitionDetached e slot status direction durationMs now in
  fst (fst r) = Started (Engine.nextPromise e)
  /\ snd r = reseedSlot e slot status direction durationMs now
  /\ Engine.slots (snd (fst r)) = Engine.slots e
  /\ Engine.resolved (snd (fst r)) = Engine.resolved e ++ heldPromise slot
  /\ Engine.nextPromise (snd (fst r)) = S (Engine.nextPromise e).
Proof.
  intros Hm. unfold runTransitionDetached. rewrite Hm. cbn [fst snd].
  unfold updateBusyState. rewrite slots_setBusy, resolved_setBusy.
  split; [reflexivity |]. split; [reflexivity |]. split; [reflexivity |].
  split.
  - cbn. unfold resolveStale, heldPromise.
    destruct (SlotState.transition slot); [reflexivity | now rewrite app_nil_r].
  - unfold setBusy.
    match goal with |- context [if ?c then _ else _] => destruct c end;
      reflexivity.
Qed.

Lemma runTransitionDetached_unmeasurable e slot status direction durationMs now :
  JS.le (SlotRect.w (SlotConfig.rect (SlotState.config slot))) 0
  || JS.le (SlotRect.h (SlotConfig.rect (SlotState.config slot))) 0 = true ->
  runTransitionDetached e slot status direction durationMs now
  = (Threw (NoMeasurableRect (SlotConfig.id (SlotState.config slot))), e, slot).
Proof.
  intros Hm. unfold runTransitionDetached. now rewrite Hm.
Qed.

(** What the resumption of a call on a registered slot does to the
    engine is what [requestTransition] does, when it does anything. *)
Lemma resumeCall_cases w k now :
  snd (resumeCall w k now) = w
  \/ exists id c,
       nth_error (Runtime.pending w) k = Some (id, c)
       /\ snd (resumeCall w k now)
          = Runtime.mk
              (snd (requestTransition (PendingCall.status c)
                      (Runtime.engine w) id (PendingCall.opts c) now))
              (removeNth k (Runtime.pending w)) (Runtime.detached w).
Proof.
  unfold resumeCall.
  destruct (nth_error (Runtime.pending w) k) as [[id c] |] eqn:Hk;
    [| now left].
  destruct (slots_get (Engine.slots (Runtime.engine w)) id) as [slot |] eqn:Hget;
    [| now left].
  destruct (SlotState.imageReady slot) eqn:Hready; [now left | |];
    right; exists id, c; (split; [reflexivity |]);
    unfold requestTransition; rewrite Hget, Hready; reflexivity.
Qed.

Lemma suspendCall_cases status w id opts :
  snd (suspendCall status w id opts) = w
  \/ snd (suspendCall status w id opts)
     = Runtime.mk (Runtime.engine w)
         (Runtime.pending w ++ [(id, PendingCall.mk status opts)])
         (Runtime.detached w).
Proof.
  unfold suspendCall.
  destruct (slots_get (Engine.slots (Runtime.engine w)) id);
    [now right | now left].
Qed.

Lemma accounted_suspendCall status w id opts :
  accounted w -> accounted (snd (suspendCall status w id opts)).
Proof.
  destruct (suspendCall_cases status w id opts) as [-> | ->]; auto.
Qed.

Lemma accounted_resumeCall w k now :
  accounted w -> accounted (snd (resumeCall w k now)).
Proof.
  intros Ha.
  destruct (resumeCall_cases w k now) as [-> | (id & c & _ & ->)];
    [assumption |].
  unfold accounted. cbn [Runtime.engine Runtime.detached].
  pose proof (requestTransition_framed
                (detachedPromises (Runtime.detached w))
                (PendingCall.status c) (Runtime.engine w) id
                (PendingCall.opts c) now) as H.
  apply (f_equal snd) in H. cbn [snd] in H. rewrite <- H.
  now apply sound_requestTransition.
Qed.

Lemma accounted_detachSlots w : accounted w -> accounted (detachSlots w).
Proof.
  unfold accounted, detachSlots, sound, keyed, promisesAccounted.
  cbn [Runtime.engine Runtime.detached framed destroy Engine.slots
       Engine.resolved Engine.nextPromise Engine.with_resolved].
  intros (_ & _ & Hp1 & Hp2).
  change (heldPromises []) with (@nil PromiseId).
  rewrite detachedPromises_app, app_nil_r.
  rewrite (detachedPromises_slots (fun id => callsOn id (Runtime.pending w))).
  assert (Hperm :
    Permutation
      ((detachedPromises (Runtime.detached w)
          ++ Engine.resolved (Runtime.engine w))
         ++ heldPromises (Engine.slots (Runtime.engine w)))
      ((detachedPromises (Runtime.detached w)
          ++ heldPromises (Engine.slots (Runtime.engine w)))
         ++ Engine.resolved (Runtime.engine w)))
    by occurrences.
  split; [split; constructor |]. split; [constructor |]. split.
  - apply (Permutation_NoDup Hperm Hp1).
  - apply (Permutation_Forall Hperm Hp2).
Qed.

Lemma accounted_resumeDetachedCall w n k now :
  accounted w -> accounted (snd (resumeDetachedCall w n k now)).
Proof.
  intros Ha. unfold resumeDetachedCall.
  destruct (nth_error (Runtime.detached w) n) as [d |] eqn:Hn;
    [| assumption].
  destruct (nth_error (DetachedSlot.calls d) k) as [c |]; [| assumption].
  destruct (SlotState.imageReady (DetachedSlot.slot d)); [assumption | |].
  - cbn [snd].
    destruct (JS.le (SlotRect.w (SlotConfig.rect
                                   (SlotState.config (DetachedSlot.slot d)))) 0
              || JS.le (SlotRect.h (SlotConfig.rect
                                      (SlotState.config (DetachedSlot.slot d)))) 0)
      eqn:Hm.
    + rewrite runTransitionDetached_unmeasurable by assumption.
      unfold accounted in *. cbn [fst snd Runtime.engine Runtime.detached].
      rewrite (detachedPromises_setNth _ n d);
        [assumption | assumption | reflexivity].
    + match goal with |- context [runTransitionDetached ?e ?s ?st ?dir ?dur ?t] =>
        destruct (runTransitionDetached_fields e s st dir dur t Hm)
          as (_ & H2 & H3 & H4 & H5);
        set (r := runTransitionDetached e s st dir dur t) in *
      end.
      unfold accounted, sound, keyed, promisesAccounted in *.
      cbn [Runtime.engine Runtime.detached framed Engine.slots Engine.resolved
           Engine.nextPromise Engine.with_resolved] in *.
      rewrite H3, H4, H5.
      destruct Ha as (Hk & Hc & Hp1 & Hp2).
      destruct (setNth_split _
                  (DetachedSlot.mk (snd r) (removeNth k (DetachedSlot.calls d)))
                  _ n d Hn) as (l1 & l2 & E1 & E2).
      rewrite E2. rewrite E1 in Hp1, Hp2.
      rewrite !detachedPromises_app, !detachedPromises_cons in *.
      cbn [DetachedSlot.slot] in *. rewrite H2.
      change (heldPromise (reseedSlot _ _ _ _ _ _))
        with [Engine.nextPromise (Runtime.engine w)].
      set (h := heldPromise (DetachedSlot.slot d)) in *.
      assert (Hperm :
        Permutation
          (Engine.nextPromise (Runtime.engine w)
             :: ((detachedPromises l1 ++ h ++ detachedPromises l2)
                   ++ Engine.resolved (Runtime.engine w))
                ++ heldPromises (Engine.slots (Runtime.engine w)))
          (((detachedPromises l1
               ++ [Engine.nextPromise (Runtime.engine w)]
               ++ detachedPromises l2)
              ++ Engine.resolved (Runtime.engine w) ++ h)
             ++ heldPromises (Engine.slots (Runtime.engine w))))
        by occurrences.
      split; [exact Hk |]. split; [exact Hc |]. split.
      * apply (Permutation_NoDup Hperm). constructor; [| assumption].
        intros Hin. rewrite Forall_forall in Hp2.
        specialize (Hp2 _ Hin). lia.
      * apply (Permutation_Forall Hperm). constructor; [lia |].
        eapply Forall_impl; [| exact Hp2]. simpl. intros; lia.
  - (* the image failed *)
    unfold accounted in *. cbn [snd Runtime.engine Runtime.detached].
    rewrite (detachedPromises_setNth _ n d);
      [assumption | assumption | reflexivity].
Qed.

Lemma loadedSlot_transition s raster :
  SlotState.transition (loadedSlot s raster) = SlotState.transition s.
Proof.
  unfold loadedSlot.
  match goal with |- context [prepareParticles ?x] =>
    destruct (prepareParticles_standing x) as (_ & _ & _ & _ & _ & H & _)
  end.
  now rewrite H.
Qed.

Lemma accounted_detachedImageLoaded w n raster :
  accounted w -> accounted (detachedImageLoaded w n raster).
Proof.
  intros Ha. unfold detachedImageLoaded.
  destruct (nth_error (Runtime.detached w) n) as [d |] eqn:Hn;
    [| assumption].
  unfold accounted in *. cbn [Runtime.engine Runtime.detached].
  rewrite (detachedPromises_setNth _ n d); [assumption | assumption |].
  apply heldPromise_transition, loadedSlot_transition.
Qed.

Lemma accounted_does w c :
  accounted w ->
  accounted
    (Runtime.mk (call (Runtime.engine w) c) (Runtime.pending w)
       (Runtime.detached w)).
Proof.
  unfold accounted. cbn [Runtime.engine Runtime.detached]. intros Ha.
  rewrite <- call_framed. now apply sound_call.
Qed.

Lemma accounted_act w a : accounted w -> accounted (act w a).
Proof.
  intros Ha. destruct a as [c | status id opts | k now | n k now | n raster];
    cbn [act].
  - destruct c; try now apply accounted_does.
    + now apply accounted_detachSlots.
    + now apply accounted_resumeCall, accounted_suspendCall.
    + now apply accounted_resumeCall, accounted_suspendCall.
  - now apply accounted_suspendCall.
  - now apply accounted_resumeCall.
  - now apply accounted_resumeDetachedCall.
  - now apply accounted_detachedImageLoaded.
Qed.

Lemma accounted_course acts : forall w, accounted w -> accounted (course w acts).
Proof.
  induction acts as [| a acts IH]; intros w Ha; [assumption |].
  apply IH. now apply accounted_act.
Qed.

End Accounted.

(** ** A promise that nothing can resolve stays unresolved *)

Section Abandoned.

Variable p : PromiseId.

Lemma Forall_setNth (A : Type) (P : A -> Prop) (x : A) : forall l n,
  P x -> Forall P l -> Forall P (setNth n x l).
Proof.
  induction l as [| y l IH]; intros [| n] Hx Hl; cbn [setNth];
    try constructor; inversion Hl; subst; auto.
Qed.

Lemma Forall_nth_error (A : Type) (P : A -> Prop) l n (d : A) :
  Forall P l -> nth_error l n = Some d -> P d.
Proof.
  intros Hl Hn. rewrite Forall_forall in Hl.
  apply Hl. now apply (nth_error_In l n).
Qed.

Lemma abandoned_does w c :
  abandoned p w ->
  abandoned p
    (Runtime.mk (call (Runtime.engine w) c) (Runtime.pending w)
       (Runtime.detached w)).
Proof.
  intros [Hl Hd]. split; [now apply lost_call | exact Hd].
Qed.

Lemma abandoned_detachSlots w : abandoned p w -> abandoned p (detachSlots w).
Proof.
  intros [Hl Hd]. split.
  - exact (lost_call p _ CallDestroy Hl).
  - cbn [detachSlots Runtime.detached]. apply Forall_app. split; [exact Hd |].
    apply Forall_forall. intros d Hin Hp.
    apply in_map_iff in Hin. destruct Hin as ([k s] & <- & Hin).
    cbn [DetachedSlot.slot snd] in Hp.
    destruct Hl as (_ & _ & Hheld). exfalso. apply Hheld.
    unfold heldPromises. apply in_flat_map. now exists (k, s).
Qed.

Lemma abandoned_suspendCall status w id opts :
  abandoned p w -> abandoned p (snd (suspendCall status w id opts)).
Proof.
  destruct (suspendCall_cases status w id opts) as [-> | ->]; auto.
Qed.

Lemma abandoned_resumeCall w k now :
  abandoned p w -> abandoned p (snd (resumeCall w k now)).
Proof.
  intros [Hl Hd].
  destruct (resumeCall_cases w k now) as [-> | (id & c & _ & ->)];
    [now split |].
  split; [| exact Hd]. now apply lost_requestTransition.
Qed.

Lemma abandoned_resumeDetachedCall w n k now :
  abandoned p w -> abandoned p (snd (resumeDetachedCall w n k now)).
Proof.
  intros [Hl Hd]. unfold resumeDetachedCall.
  destruct (nth_error (Runtime.detached w) n) as [d |] eqn:Hn;
    [| now split].
  destruct (nth_error (DetachedSlot.calls d) k) as [c |] eqn:Hk;
    [| now split].
  assert (Hnot : ~ In p (heldPromise (DetachedSlot.slot d))).
  { intros Hin. pose proof (Forall_nth_error _ _ _ _ _ Hd Hn Hin) as H.
    rewrite H in Hk. now destruct k. }
  destruct (SlotState.imageReady (DetachedSlot.slot d)); [now split | |].
  - cbn [snd].
    destruct (JS.le (SlotRect.w (SlotConfig.rect
                                   (SlotState.config (DetachedSlot.slot d)))) 0
              || JS.le (SlotRect.h (SlotConfig.rect
                                      (SlotState.config (DetachedSlot.slot d)))) 0)
      eqn:Hm.
    + rewrite runTransitionDetached_unmeasurable by assumption.
      split; [exact Hl |]. cbn [fst snd Runtime.detached].
      apply Forall_setNth; [| exact Hd]. cbn [DetachedSlot.slot]. tauto.
    + match goal with |- context [runTransitionDetached ?e ?s ?st ?dir ?dur ?t] =>
        destruct (runTransitionDetached_fields e s st dir dur t Hm)
          as (_ & H2 & H3 & H4 & H5);
        set (r := runTransitionDetached e s st dir dur t) in *
      end.
      destruct Hl as (L1 & L2 & L3).
      split.
      * unfold lost. cbn [Runtime.engine]. rewrite H3, H4, H5.
        split; [lia |]. split; [| exact L3].
        rewrite in_app_iff. tauto.
      * cbn [Runtime.detached]. apply Forall_setNth; [| exact Hd].
        cbn [DetachedSlot.slot DetachedSlot.calls]. rewrite H2.
        change (heldPromise (reseedSlot _ _ _ _ _ _))
          with [Engine.nextPromise (Runtime.engine w)].
        intros [Heq | []]. lia.
  - split; [exact Hl |]. cbn [snd Runtime.detached].
    apply Forall_setNth; [| exact Hd]. cbn [DetachedSlot.slot]. tauto.
Qed.

Lemma abandoned_detachedImageLoaded w n raster :
  abandoned p w -> abandoned p (detachedImageLoaded w n raster).
Proof.
  intros [Hl Hd]. unfold detachedImageLoaded.
  destruct (nth_error (Runtime.detached w) n) as [d |] eqn:Hn;
    [| now split].
  split; [exact Hl |]. cbn [Runtime.detached].
  apply Forall_setNth; [| exact Hd].
  cbn [DetachedSlot.slot DetachedSlot.calls].
  rewrite (heldPromise_transition _ _ (loadedSlot_transition _ raster)).
  exact (Forall_nth_error _ _ _ _ _ Hd Hn).
Qed.

Lemma abandoned_act w a : abandoned p w -> abandoned p (act w a).
Proof.
  intros Ha. destruct a as [c | status id opts | k now | n k now | n raster];
    cbn [act].
  - destruct c; try now apply abandoned_does.
    + now apply abandoned_detachSlots.
    + now apply abandoned_resumeCall, abandoned_suspendCall.
    + now apply abandoned_resumeCall, abandoned_suspendCall.
  - now apply abandoned_suspendCall.
  - now apply abandoned_resumeCall.
  - now apply abandoned_resumeDetachedCall.
  - now apply abandoned_detachedImageLoaded.
Qed.

Lemma abandoned_course acts : forall w,
  abandoned p w -> abandoned p (course w acts).
Proof.
  induction acts as [| a acts IH]; intros w Ha; [assumption |].
  apply IH. now apply abandoned_act.
Qed.

End Abandoned.

(** ** What [destroy] detaches *)

Section Detach.

Lemma slots_get_nth m id s :
  slots_get m id = Some s -> exists i, nth_error m i = Some (id, s).
Proof.
  induction m as [| [k s0] m IH]; cbn [slots_get]; [discriminate |].
  destruct (SlotId_eqb k id) eqn:E.
  - intros H. injection H as ->. apply SlotId_eqb_eq in E. subst k.
    now exists 0%nat.
  - intros H. destruct (IH H) as (i & Hi). now exists (S i).
Qed.

(** In a sound registry a promise has one holder. *)
Lemma held_once p id s : forall m,
  NoDup (heldPromises m) ->
  slots_get m id = Some s -> In p (heldPromise s) ->
  forall k s', In (k, s') m -> In p (heldPromise s') -> k = id.
Proof.
  induction m as [| [k0 s0] m IH]; intros Hnd Hget Hp k s' Hin Hp';
    [contradiction |].
  rewrite heldPromises_cons in Hnd. cbn [slots_get] in Hget.
  assert (Hheld : forall k1 s1,
             In (k1, s1) m -> In p (heldPromise s1) -> In p (heldPromises m)).
  { intros k1 s1 H1 H2. unfold heldPromises. apply in_flat_map.
    now exists (k1, s1). }
  destruct (SlotId_eqb k0 id) eqn:E.
  - injection Hget as ->. apply SlotId_eqb_eq in E. subst k0.
    destruct Hin as [Heq | Hin]; [now injection Heq as -> _ |].
    exfalso. exact (NoDup_app_disjoint _ _ _ Hnd p Hp (Hheld _ _ Hin Hp')).
  - destruct Hin as [Heq | Hin].
    + injection Heq as -> ->. exfalso.
      apply (NoDup_app_disjoint _ _ _ Hnd p Hp').
      now apply (heldPromises_get_In _ id s).
    + apply NoDup_app_remove_l in Hnd. now apply (IH Hnd Hget Hp k s').
Qed.

Lemma detachSlots_nth w id slot :
  slots_get (Engine.slots (Runtime.engine w)) id = Some slot ->
  exists n,
    nth_error (Runtime.detached (detachSlots w)) n
    = Some (DetachedSlot.mk slot (callsOn id (Runtime.pending w))).
Proof.
  intros Hget. destruct (slots_get_nth _ _ _ Hget) as (i & Hi).
  exists (List.length (Runtime.detached w) + i)%nat.
  cbn [detachSlots Runtime.detached].
  rewrite nth_error_app2 by lia.
  replace (List.length (Runtime.detached w) + i
           - List.length (Runtime.detached w))%nat with i by lia.
  rewrite nth_error_map, Hi. reflexivity.
Qed.

(** A promise in flight when [destroy] is called, on a slot no call is
    suspended on, is one that nothing can resolve any more. *)
Lemma abandoned_by_destroy w id slot p :
  accounted w ->
  slots_get (Engine.slots (Runtime.engine w)) id = Some slot ->
  In p (heldPromise slot) ->
  callsOn id (Runtime.pending w) = [] ->
  abandoned p (detachSlots w).
Proof.
  intros ((_ & _) & _ & Hp1 & Hp2) Hget Hp Hcalls.
  cbn [framed Engine.slots Engine.resolved Engine.nextPromise
       Engine.with_resolved] in Hp1, Hp2.
  assert (Hin : In p (heldPromises (Engine.slots (Runtime.engine w))))
    by now apply (heldPromises_get_In _ id slot).
  assert (Hnot : ~ In p (detachedPromises (Runtime.detached w)
                         ++ Engine.resolved (Runtime.engine w)))
    by (intros H; exact (NoDup_app_disjoint _ _ _ Hp1 _ H Hin)).
  rewrite in_app_iff in Hnot.
  split.
  - unfold lost, detachSlots, destroy.
    cbn [Runtime.engine Engine.nextPromise Engine.resolved Engine.slots].
    split; [| split; [tauto | intros []]].
    rewrite Forall_forall in Hp2. apply Hp2. apply in_app_iff. now right.
  - cbn [detachSlots Runtime.detached]. apply Forall_app. split.
    + apply Forall_forall. intros d Hd Hheld. exfalso. apply Hnot. left.
      unfold detachedPromises. apply in_flat_map. now exists d.
    + apply Forall_forall. intros d Hd Hheld.
      apply in_map_iff in Hd. destruct Hd as ([k s] & <- & Hd).
      cbn [DetachedSlot.slot DetachedSlot.calls fst snd] in *.
      apply NoDup_app_remove_l in Hp1.
      now rewrite (held_once p id slot _ Hp1 Hget Hp k s Hd Hheld).
Qed.

(** A call suspended on the slot resumes after [destroy]: it resolves the
    promise the slot held. *)
Lemma resumed_after_destroy w n d k c now :
  nth_error (Runtime.detached w) n = Some d ->
  nth_error (DetachedSlot.calls d) k = Some c ->
  SlotState.imageReady (DetachedSlot.slot d) = Fulfilled ->
  measurable (SlotConfig.rect (SlotState.config (DetachedSlot.slot d))) ->
  Engine.resolved (Runtime.engine (snd (resumeDetachedCall w n k now)))
  = Engine.resolved (Runtime.engine w) ++ heldPromise (DetachedSlot.slot d).
Proof.
  intros Hn Hk Hready [Hw Hh]. unfold resumeDetachedCall.
  rewrite Hn, Hk, Hready. cbn [snd Runtime.engine].
  match goal with |- context [runTransitionDetached ?e ?s ?st ?dir ?dur ?t] =>
    destruct (runTransitionDetached_fields e s st dir dur t)
      as (_ & _ & _ & H4 & _)
  end.
  - now rewrite Hw, Hh.
  - exact H4.
Qed.

End Detach.

(** ** Histories are the courses in which calls resume at once or never *)

Section AtOnce.

Lemma removeNth_last (A : Type) (x : A) : forall l,
  removeNth (List.length l) (l ++ [x]) = l.
Proof.
  induction l as [| y l IH]; [reflexivity |].
  cbn [List.length app removeNth]. now rewrite IH.
Qed.

Lemma nth_error_last (A : Type) (x : A) (l : list A) :
  nth_error (l ++ [x]) (List.length l) = Some x.
Proof.
  rewrite nth_error_app2 by lia. now rewrite Nat.sub_diag.
Qed.

(** A call whose image is ready and which resumes before anything else
    happens does to the engine what [requestTransition] does, and is then
    over. *)
Lemma resume_at_once status w id opts now slot :
  slots_get (Engine.slots (Runtime.engine w)) id = Some slot ->
  SlotState.imageReady slot <> Pending ->
  resumeCall (snd (suspendCall status w id opts))
    (List.length (Runtime.pending w)) now
  = (fst (requestTransition status (Runtime.engine w) id opts now),
     Runtime.mk (snd (requestTransition status (Runtime.engine w) id opts now))
       (Runtime.pending w) (Runtime.detached w)).
Proof.
  intros Hget Hready. unfold suspendCall, resumeCall, requestTransition.
  rewrite Hget. cbn [snd Runtime.pending Runtime.engine Runtime.detached].
  rewrite nth_error_last, Hget, removeNth_last.
  cbn [PendingCall.status PendingCall.opts].
  destruct (SlotState.imageReady slot); [congruence | |]; reflexivity.
Qed.

Lemma act_does_engine w c :
  Runtime.engine (act w (Does c)) = call (Runtime.engine w) c.
Proof.
  assert (H : forall status id opts now,
             Runtime.engine
               (snd (resumeCall (snd (suspendCall status w id opts))
                       (List.length (Runtime.pending w)) now))
             = snd (requestTransition status (Runtime.engine w) id opts now)).
  { intros status id opts now.
    destruct (slots_get (Engine.slots (Runtime.engine w)) id) as [slot |]
      eqn:Hget.
    - destruct (SlotState.imageReady slot) eqn:Hready.
      + unfold suspendCall, resumeCall, requestTransition.
        rewrite Hget.
        cbn [snd Runtime.pending Runtime.engine Runtime.detached].
        now rewrite nth_error_last, Hget, Hready.
      + rewrite (resume_at_once status w id opts now slot Hget); [reflexivity |].
        congruence.
      + rewrite (resume_at_once status w id opts now slot Hget); [reflexivity |].
        congruence.
    - unfold suspendCall, resumeCall, requestTransition. rewrite Hget.
      cbn [snd].
      rewrite (proj2 (nth_error_None (Runtime.pending w)
                        (List.length (Runtime.pending w)))) by lia.
      reflexivity. }
  destruct c; cbn [act call]; try reflexivity; apply H.
Qed.

Lemma course_history cs : forall w,
  Runtime.engine (course w (map Does cs)) = history (Runtime.engine w) cs.
Proof.
  induction cs as [| c cs IH]; intros w; [reflexivity |].
  cbn [map course fold_left history].
  change (fold_left act (map Does cs) (act w (Does c)))
    with (course (act w (Does c)) (map Does cs)).
  rewrite IH, act_does_engine. reflexivity.
Qed.

End AtOnce.

(** ** What a frame leaves alone *)

Section Frames.

Lemma updateImageParticle_inactive m1 m2 interactionEnabled delta p :
  MouseState.active m1 = false -> MouseState.active m2 = false ->
  updateImageParticle m1 interactionEnabled delta p
  = updateImageParticle m2 interactionEnabled delta p.
Proof.
  intros H1 H2. unfold updateImageParticle. cbv zeta.
  rewrite H1, H2. reflexivity.
Qed.

Lemma renderSlots_inactive m1 m2 interactionEnabled timestamp delta m :
  MouseState.active m1 = false -> MouseState.active m2 = false ->
  renderSlots m1 interactionEnabled timestamp delta m
  = renderSlots m2 interactionEnabled timestamp delta m.
Proof.
  intros H1 H2.
  induction m as [| [id slot] m IH]; simpl; [reflexivity |].
  rewrite IH. unfold renderSlot.
  destruct (skipped slot); [reflexivity |].
  destruct (match SlotState.transition slot with
            | Some _ => updateTransition slot timestamp
            | None => (slot, None)
            end) as [slot1 r].
  unfold updateImageParticles.
  rewrite (map_ext _ _
             (fun p => updateImageParticle_inactive m1 m2 interactionEnabled
                         delta p H1 H2)).
  reflexivity.
Qed.

Lemma updateAmbientParticle_inactive m1 m2 width height delta p :
  MouseState.active m1 = false -> MouseState.active m2 = false ->
  updateAmbientParticle m1 width height delta p
  = updateAmbientParticle m2 width height delta p.
Proof.
  intros H1 H2. unfold updateAmbientParticle. cbv zeta.
  rewrite H1, H2. reflexivity.
Qed.

(** What a frame keeps of a slot: its configuration and image, and of each
    particle the identity; without a transition in flight also its
    standing. *)
Lemma renderSlot_keeps mouse interactionEnabled timestamp delta slot :
  let slot' :=
    fst (fst (renderSlot mouse interactionEnabled timestamp delta slot)) in
  SlotState.config slot' = SlotState.config slot
  /\ SlotState.image slot' = SlotState.image slot
  /\ SlotState.imageReady slot' = SlotState.imageReady slot
  /\ map identity (SlotState.particles slot')
     = map identity (SlotState.particles slot)
  /\ (SlotState.transition slot = None ->
      SlotState.transition slot' = None
      /\ SlotState.status slot' = SlotState.status slot
      /\ SlotState.alpha slot' = SlotState.alpha slot
      /\ SlotState.visible slot' = SlotState.visible slot).
Proof.
  unfold renderSlot, updateTransition.
  destruct (skipped slot); cbn [fst snd]; [tauto |].
  destruct (SlotState.transition slot) as [t |] eqn:E.
  - destruct (JS.lt _ _);
      [| destruct (forallb _ _); [destruct (TransitionState.status t) |]];
      cbn; rewrite ?map_map; repeat split; try discriminate;
      try reflexivity.
  - cbn. rewrite ?map_map. repeat split; try reflexivity; assumption.
Qed.

Lemma step_slot e ev id slot :
  slots_get (Engine.slots e) id = Some slot ->
  exists mouse interactionEnabled timestamp delta,
    slots_get (Engine.slots (step e ev)) id = Some slot
    \/ slots_get (Engine.slots (step e ev)) id
       = Some (fst (fst (renderSlot mouse interactionEnabled timestamp delta
                           slot))).
Proof.
  intros Hget. destruct ev as [timestamp | | | |]; cbn [step];
    try (exists (Engine.mouse e), true, 0%float, 0%float; now left).
  exists (Engine.mouse e), (Engine.interactionEnabled e), timestamp,
    (frameDelta e timestamp).
  destruct (Engine.context e) eqn:Hctx.
  - right. destruct (@render_effects e timestamp Hctx) as (H1 & _).
    rewrite H1, renderSlots_get, Hget. reflexivity.
  - left. unfold render. now rewrite Hctx.
Qed.

End Frames.

(** ** The canvas layer *)

Section Layer.

(** The engine after [updateSlotRect] followed by [setSlotVisible], as
    [syncSlotRect] calls them. *)
Lemma sync_slot engine id slot rect shown :
  slots_get (Engine.slots engine) id = Some slot ->
  let e1 := setSlotVisible (updateSlotRect engine id rect) id shown in
  let s0 := updateSlotRect_slot slot rect in
  slots_get (Engine.slots e1) id
  = Some (if shown
          then SlotState.mk (SlotState.config s0) true (SlotState.image s0)
                 (SlotState.imageReady s0) (SlotState.particles s0)
                 (SlotState.status s0) (SlotState.transition s0)
                 (SlotState.alpha s0)
          else SlotState.mk (SlotState.config s0) false (SlotState.image s0)
                 (SlotState.imageReady s0) (SlotState.particles s0)
                 hidden None 0)
  /\ Engine.resolved e1 = Engine.resolved engine
  /\ Engine.nextPromise e1 = Engine.nextPromise engine
  /\ (forall id',
        id' <> id ->
        slots_get (Engine.slots e1) id' = slots_get (Engine.slots engine) id').
Proof.
  intros Hget. cbv zeta. unfold updateSlotRect. rewrite Hget.
  unfold setSlotVisible. cbn [Engine.slots Engine.with_slots].
  rewrite slots_get_set_same.
  cbn [Engine.slots Engine.with_slots Engine.resolved Engine.nextPromise].
  rewrite slots_get_set_same.
  repeat split.
  intros id' Hne. now rewrite !slots_get_set_other by assumption.
Qed.

Lemma not_gt_zero (w : float) :
  is_nan w = false -> JS.gt w 0 = false -> JS.le w 0 = true.
Proof.
  intros Hn H. unfold JS.gt in H.
  exact (proj1 (@lt_false_iff_le 0 w eq_refl Hn) H).
Qed.

End Layer.

Section Refresh.

Variable document : GlobalCanvasLayer.Document.

(** [engineRef.current] stays an engine through [syncSlotRect]. *)
Lemma syncSlotRect_engine engine id :
  exists engine',
    snd (GlobalCanvasLayer.syncSlotRect document (Some engine) id)
    = Some engine'
    /\ Engine.resolved engine' = Engine.resolved engine
    /\ Engine.busy engine' = Engine.busy engine
    /\ Engine.busyCalls engine' = Engine.busyCalls engine
    /\ Engine.nextPromise engine' = Engine.nextPromise engine
    /\ (forall id',
          id' <> id ->
          slots_get (Engine.slots engine') id'
          = slots_get (Engine.slots engine) id')
    /\ (forall other,
          slots_get (Engine.slots other) id = slots_get (Engine.slots engine) id ->
          forall other',
            snd (GlobalCanvasLayer.syncSlotRect document (Some other) id)
            = Some other' ->
            slots_get (Engine.slots other') id
            = slots_get (Engine.slots engine') id).
Proof.
  unfold GlobalCanvasLayer.syncSlotRect.
  destruct (document id) as [rect |]; cbn [snd].
  - eexists. split; [reflexivity |].
    set (slotRect := SlotRect.mk _ _ _ _). set (shown := _ && _).
    destruct (slots_get (Engine.slots engine) id) as [slot |] eqn:Hget.
    + destruct (sync_slot engine id slot slotRect shown Hget)
        as (H1 & H2 & H3 & H4).
      split; [exact H2 |].
      split; [unfold setSlotVisible, updateSlotRect; rewrite Hget;
              cbn [Engine.slots Engine.with_slots];
              rewrite slots_get_set_same; reflexivity |].
      split; [unfold setSlotVisible, updateSlotRect; rewrite Hget;
              cbn [Engine.slots Engine.with_slots];
              rewrite slots_get_set_same; reflexivity |].
      split; [exact H3 |]. split; [exact H4 |].
      intros other Ho other' Ho'. injection Ho' as <-.
      destruct (sync_slot other id slot slotRect shown Ho) as (O1 & _).
      now rewrite O1, H1.
    + assert (Hnone : forall other,
                slots_get (Engine.slots other) id = None ->
                setSlotVisible (updateSlotRect other id slotRect) id shown
                = other).
      { intros other Ho. unfold updateSlotRect. rewrite Ho.
        unfold setSlotVisible. now rewrite Ho. }
      rewrite (Hnone engine Hget). repeat split.
      intros other Ho other' Ho'. injection Ho' as <-.
      rewrite (Hnone other Ho). congruence.
  - exists engine. repeat split.
    intros other Ho other' Ho'. now injection Ho' as <-.
Qed.

End Refresh.

(** ** Frame delta, edge wrap and the ambient particles *)

Section Ambient.

Lemma wrap_within (v extent : float) :
  JS.le (-8) (extent + 8) = true ->
  within (-8) (extent + 8) (wrap v extent).
Proof.
  intros Hle. destruct (le_not_nan _ _ Hle) as [Hlo Hhi].
  unfold wrap, within.
  destruct (JS.lt v (-8)) eqn:E1.
  - right. split; [assumption | now apply le_refl].
  - destruct (JS.gt v (extent + 8)) eqn:E2.
    + right. split; [now apply le_refl | assumption].
    + destruct (is_nan v) eqn:Hv; [now left | right]. split.
      * now apply (proj1 (@lt_false_iff_le v (-8) Hv Hlo)).
      * unfold JS.gt in E2.
        now apply (proj1 (@lt_false_iff_le (extent + 8) v Hhi Hv)).
Qed.

Lemma render_ambientParticles e timestamp :
  Engine.context e = true ->
  Engine.ambientParticles (render e timestamp)
  = map (updateAmbientParticle (Engine.mouse e) (Engine.width e)
           (Engine.height e) (frameDelta e timestamp))
        (Engine.ambientParticles e).
Proof.
  intros Hctx. unfold render. rewrite Hctx. cbn [negb].
  destruct (renderSlots _ _ _ _ _) as [[slots' h] rs].
  unfold setBusy, setInteractionEnabled.
  destruct h; destruct (Bool.eqb _ _); reflexivity.
Qed.

(** Integers below 32 are below every count from 32 on. *)
Lemma below_32 (i : Z) (targetCount : float) :
  (0 <= i < 32)%Z -> JS.le 32 targetCount = true ->
  JS.lt (JS.of_Z i) targetCount = true.
Proof.
  intros Hi Hle. apply (lt_le_trans _ 32); [| assumption].
  assert (H : forallb (fun n => JS.lt (JS.of_Z (Z.of_nat n)) 32) (seq 0 32)
              = true) by (vm_compute; reflexivity).
  rewrite forallb_forall in H.
  specialize (H (Z.to_nat i)). rewrite Z2Nat.id in H by lia.
  apply H. apply in_seq. lia.
Qed.

Variables (rnd : nat -> float) (width height targetCount : float).

Lemma ambientLoop_length_le fuel : forall i k,
  (List.length (ambientLoop fuel rnd width height targetCount i k) <= fuel)%nat.
Proof.
  induction fuel as [| fuel IH]; intros i k; simpl; [lia |].
  destruct (JS.lt _ _); simpl; [| lia]. specialize (IH (i + 1)%Z (k + 6)%nat).
  lia.
Qed.

Lemma ambientLoop_length_ge fuel : forall i k,
  JS.le 32 targetCount = true -> (0 <= i)%Z ->
  (32 <= i + Z.of_nat fuel)%Z ->
  (32 - i
   <= Z.of_nat (List.length (ambientLoop fuel rnd width height targetCount i k)))%Z.
Proof.
  induction fuel as [| fuel IH]; intros i k Hle Hi Hf; cbn [ambientLoop].
  - cbn [List.length]. lia.
  - destruct (Z_lt_ge_dec i 32) as [Hlt | Hge].
    + rewrite below_32 by (assumption || lia).
      specialize (IH (i + 1)%Z (k + 6)%nat Hle). cbn [List.length]. lia.
    + destruct (JS.lt _ _); lia.
Qed.

(** The loop stops at its guard: with a count of at most 70, iterations
    beyond the 70 given change nothing. *)
Lemma ambientLoop_fuel fuel : forall more i k,
  JS.lt (JS.of_Z 70) targetCount = false ->
  (i + Z.of_nat fuel = 70)%Z ->
  ambientLoop (fuel + more) rnd width height targetCount i k
  = ambientLoop fuel rnd width height targetCount i k.
Proof.
  induction fuel as [| fuel IH]; intros more i k H70 Hi.
  - assert (i = 70%Z) by lia. subst i.
    destruct more; simpl; [reflexivity | now rewrite H70].
  - simpl. destruct (JS.lt (JS.of_Z i) targetCount); [| reflexivity].
    f_equal. apply IH; [assumption | lia].
Qed.

End Ambient.

Lemma ambientTargetCount_within (width height : float) :
  within 32 70 (ambientTargetCount width height).
Proof.
  unfold ambientTargetCount, AMBIENT_PARTICLE_COUNT, within.
  destruct (@between_bounds 32 70
              (JS.Math_round (width * height / 26000)) eq_refl) as [H1 H2].
  destruct (is_nan (JS.Math_round (width * height / 26000))) eqn:E.
  - left. exact H1.
  - right. now apply H2.
Qed.

Section AmbientLoop.

Variables (rnd : nat -> float) (width height targetCount : float).

Lemma ambientLoop_guard fuel : forall i k j,
  (j < List.length (ambientLoop fuel rnd width height targetCount i k))%nat ->
  JS.lt (JS.of_Z (i + Z.of_nat j)) targetCount = true.
Proof.
  induction fuel as [| fuel IH]; intros i k j; cbn [ambientLoop].
  - cbn [List.length]. lia.
  - destruct (JS.lt (JS.of_Z i) targetCount) eqn:E; cbn [List.length]; [| lia].
    destruct j as [| j]; intros Hj.
    + now rewrite Z.add_0_r.
    + replace (i + Z.of_nat (S j))%Z with (i + 1 + Z.of_nat j)%Z by lia.
      apply (IH (i + 1)%Z (k + 6)%nat). lia.
Qed.

Lemma ambientLoop_stops fuel : forall i k,
  (List.length (ambientLoop fuel rnd width height targetCount i k) < fuel)%nat ->
  JS.lt
    (JS.of_Z
       (i + Z.of_nat
              (List.length (ambientLoop fuel rnd width height targetCount i k))))
    targetCount
  = false.
Proof.
  induction fuel as [| fuel IH]; intros i k; cbn [ambientLoop].
  - cbn [List.length]. lia.
  - destruct (JS.lt (JS.of_Z i) targetCount) eqn:E; cbn [List.length].
    + intros H.
      replace (i + Z.of_nat (S (List.length
                 (ambientLoop fuel rnd width height targetCount (i + 1) (k + 6)))))%Z
        with (i + 1 + Z.of_nat (List.length
                 (ambientLoop fuel rnd width height targetCount (i + 1) (k + 6))))%Z
        by lia.
      apply IH. lia.
    + intros _. now rewrite Z.add_0_r.
Qed.

End AmbientLoop.

(** ** Registration *)

Section Registration.

Lemma prepareParticles_idem slot :
  prepareParticles (prepareParticles slot) = prepareParticles slot.
Proof.
  unfold prepareParticles at 2.
  destruct (_ || _ || _) eqn:Hg.
  - unfold prepareParticles. now rewrite Hg.
  - destruct (HTMLImageElement.raster _ _ _) as [img |] eqn:Hr.
    + unfold prepareParticles.
      cbn [SlotState.config SlotState.image SlotState.with_particles].
      now rewrite Hg, Hr.
    + unfold prepareParticles. now rewrite Hg, Hr.
Qed.

Lemma registerSlot_registered e config id :
  slots_get (Engine.slots e) id <> None ->
  slots_get (Engine.slots (registerSlot e config)) id <> None.
Proof.
  unfold registerSlot. destruct (slots_get _ (SlotConfig.id config));
    cbn [Engine.slots Engine.with_slots]; apply slots_get_registered.
Qed.

End Registration.

Lemma registerSlot_then_slot e config :
  exists s,
    slots_get (Engine.slots (registerSlot e config)) (SlotConfig.id config)
    = Some s.
Proof.
  unfold registerSlot.
  destruct (slots_get (Engine.slots e) (SlotConfig.id config));
    cbn [Engine.slots Engine.with_slots]; eexists; apply slots_get_set_same.
Qed.

Lemma registerSlot_other e config id :
  id <> SlotConfig.id config ->
  slots_get (Engine.slots (registerSlot e config)) id
  = slots_get (Engine.slots e) id.
Proof.
  intros Hne. unfold registerSlot.
  destruct (slots_get (Engine.slots e) (SlotConfig.id config));
    cbn [Engine.slots Engine.with_slots]; now apply slots_get_set_other.
Qed.

(** ** Arithmetic at rest, and the size of a sample *)

Section Rest.

Lemma sub_self (x : float) : finiteNonzero x -> (x - x)%float = 0%float.
Proof.
  intros (s & m & e & H). apply Prim2SF_inj. rewrite sub_spec, H.
  unfold SF64sub, SFsub. rewrite Z.min_id. unfold shl_align.
  rewrite Z.sub_diag. reflexivity.
Qed.

Lemma add_zero (x : float) : finiteNonzero x -> (x + 0)%float = x.
Proof.
  intros (s & m & e & H). apply Prim2SF_inj. rewrite add_spec, H.
  reflexivity.
Qed.

Lemma zero_mul (d : float) m e :
  Prim2SF d = S754_finite false m e -> (0 * d)%float = 0%float.
Proof.
  intros H. apply Prim2SF_inj. rewrite mul_spec, H. reflexivity.
Qed.

(** A number between 0.6 and 1.6 is finite and positive. *)
Lemma delta_positive (d : float) :
  JS.le 0.6 d = true -> JS.le d 1.6 = true ->
  exists m e, Prim2SF d = S754_finite false m e.
Proof.
  unfold JS.le. rewrite !leb_spec. unfold SFleb.
  set (lo := Prim2SF 0.6). vm_compute in lo. subst lo.
  set (hi := Prim2SF 1.6). vm_compute in hi. subst hi.
  destruct (Prim2SF d) as [s | s | | s m e].
  - destruct s; cbn [SFcompare]; discriminate.
  - destruct s; cbn [SFcompare]; [discriminate |]. intros _. discriminate.
  - cbn [SFcompare]. discriminate.
  - destruct s; [cbn [SFcompare]; discriminate |]. intros _ _. eauto.
Qed.

Lemma updateImageParticle_rest mouse interactionEnabled delta p m e :
  settledOnTarget p ->
  Prim2SF delta = S754_finite false m e ->
  MouseState.active mouse && interactionEnabled = false ->
  updateImageParticle mouse interactionEnabled delta p = p.
Proof.
  intros ((Hx & Hy & Hvx & Hvy) & Htx & Hty) Hd Hm.
  destruct p as [x y tx ty vx vy color alpha size].
  cbn [Particle.x Particle.y Particle.tx Particle.ty Particle.vx Particle.vy]
    in *.
  subst x y vx vy.
  unfold updateImageParticle. cbv zeta.
  cbn [Particle.x Particle.y Particle.tx Particle.ty Particle.vx Particle.vy
       Particle.color Particle.alpha Particle.size].
  rewrite Hm. cbn [andb].
  rewrite (sub_self tx Htx), (sub_self ty Hty).
  change (0 * SPRING)%float with 0%float.
  rewrite (zero_mul delta m e Hd).
  change (0 + 0)%float with 0%float.
  change (0 * FRICTION)%float with 0%float.
  rewrite (zero_mul delta m e Hd).
  now rewrite (add_zero tx Htx), (add_zero ty Hty).
Qed.

Lemma push_length acc o :
  (List.length (push acc o) <= S (List.length acc))%nat.
Proof.
  destruct o; simpl; [rewrite length_app; simpl |]; lia.
Qed.

Lemma sampleRow_length rect img y fuel : forall x acc,
  (Z.of_nat (List.length (sampleRow fuel rect img y x acc))
   <= Z.of_nat (List.length acc)
      + Z.max 0 ((ImageData.width img - x + 1) / 2))%Z.
Proof.
  induction fuel as [| fuel IH]; intros x acc; cbn [sampleRow]; [lia |].
  destruct (Z.ltb_spec x (ImageData.width img)); [| lia].
  specialize (IH (x + SAMPLE_STEP)%Z (push acc (samplePixel rect img y x))).
  pose proof (push_length acc (samplePixel rect img y x)).
  unfold SAMPLE_STEP in *.
  replace (ImageData.width img - (x + 2) + 1)%Z
    with (ImageData.width img - x + 1 + (-1) * 2)%Z in IH by lia.
  rewrite Z.div_add in IH by lia.
  assert (1 <= (ImageData.width img - x + 1) / 2)%Z
    by (apply Z.div_le_lower_bound; lia).
  lia.
Qed.

Lemma sampleRows_length rect img fuel : forall y acc,
  (Z.of_nat (List.length (sampleRows fuel rect img y acc))
   <= Z.of_nat (List.length acc)
      + Z.max 0 ((ImageData.height img - y + 1) / 2)
        * Z.max 0 ((ImageData.width img + 1) / 2))%Z.
Proof.
  induction fuel as [| fuel IH]; intros y acc; cbn [sampleRows]; [nia |].
  destruct (Z.ltb_spec y (ImageData.height img)); [| nia].
  specialize (IH (y + SAMPLE_STEP)%Z
                (sampleRow (Z.to_nat (ImageData.width img)) rect img y 0 acc)).
  pose proof (sampleRow_length rect img y (Z.to_nat (ImageData.width img))
                0 acc) as Hrow.
  rewrite Z.sub_0_r in Hrow.
  unfold SAMPLE_STEP in *.
  replace (ImageData.height img - (y + 2) + 1)%Z
    with (ImageData.height img - y + 1 + (-1) * 2)%Z in IH by lia.
  rewrite Z.div_add in IH by lia.
  assert (1 <= (ImageData.height img - y + 1) / 2)%Z
    by (apply Z.div_le_lower_bound; lia).
  nia.
Qed.

Lemma samplePoints_length rect img :
  (List.length (samplePoints rect img) <= sampleBlocks img)%nat.
Proof.
  pose proof (sampleRows_length rect img (Z.to_nat (ImageData.height img))
                0 []) as H.
  rewrite Z.sub_0_r in H. cbn [List.length] in H.
  unfold samplePoints, sampleBlocks.
  set (n := List.length _) in *.
  set (w := ((ImageData.width img + 1) / 2)%Z) in *.
  set (h := ((ImageData.height img + 1) / 2)%Z) in *.
  apply Nat2Z.inj_le. rewrite Nat2Z.inj_mul.
  assert (Hw : Z.of_nat (Z.to_nat w) = Z.max 0 w) by lia.
  assert (Hh : Z.of_nat (Z.to_nat h) = Z.max 0 h) by lia.
  rewrite Hw, Hh. nia.
Qed.

End Rest.

(** ** The home scene controller *)

Module HomeSceneFacts.

Import HomeScene.

Ltac effects_eq :=
  cbn; repeat rewrite <- app_assoc; cbn [app]; reflexivity.

Lemma snoc2 (A : Type) (l : list A) (a b : A) :
  (l ++ [a]) ++ [b] = l ++ [a; b].
Proof. now rewrite <- app_assoc. Qed.

Ltac ends_collapsed :=
  eapply (@phase_failed _ _ _); [reflexivity | reflexivity |];
  cbn; apply snoc2.

Lemma phase_started staggerMs durationMs measures :
  Phase (started staggerMs durationMs measures).
Proof.
  apply phase_idle; [reflexivity | reflexivity | now left].
Qed.

(** A failure inside the [try] block ends the expansion in [collapsed]. *)
Lemma phase_recover m error :
  Controller.inFlightExpand (Machine.controller m) <> None
  \/ Controller.inFlightExpand (Machine.controller m) = None ->
  Phase (advance m (recover error)).
Proof.
  intros _. ends_collapsed.
Qed.

Lemma phase_expandMenu m : Phase m -> Phase (expandMenu m).
Proof.
  intros [Hs Hi He | before error Hs Hi He | promises before Hs Hl Hi He
          | index promises before Hs Hn Hl Hi He
          | promises before Hs Hl Hi He | promises before Hs Hl Hi He];
    unfold expandMenu; rewrite Hs, ?Hi.
  - (* at rest: the expansion starts *)
    unfold expansion. cbn.
    destruct (Machine.measures m (Machine.refreshed m)) eqn:Hm; cbn.
    + apply (@phase_delay _ 1 [Machine.nextPromise m] (Machine.effects m));
        [reflexivity | lia | reflexivity | reflexivity | effects_eq].
    + ends_collapsed.
  - now apply (@phase_failed m before error).
  - now apply (@phase_succeeded m promises before).
  - now apply (@phase_delay m index promises before).
  - now apply (@phase_all m promises before).
  - now apply (@phase_expanded m promises before).
Qed.

Lemma phase_clearInFlight_failed m before error :
  Controller.state (Machine.controller m) = collapsed ->
  Machine.effects m = before ++ [StateChanged collapsed; Settled (Some error)] ->
  Phase (clearInFlight m).
Proof.
  intros Hs He. apply phase_idle; [exact Hs | reflexivity |].
  right. now exists before, error.
Qed.

Lemma phase_step m ev : Phase m -> Phase (step m ev).
Proof.
  intros Hp. destruct ev as [| | rejection |].
  - now apply phase_expandMenu.
  - (* the timer fires *)
    destruct Hp as [Hs Hi He | before error Hs Hi He
                    | promises before Hs Hl Hi He
                    | index promises before Hs Hn Hl Hi He
                    | promises before Hs Hl Hi He
                    | promises before Hs Hl Hi He];
      unfold step; rewrite Hi.
    + now apply phase_idle.
    + now apply (@phase_failed m before error).
    + now apply (@phase_succeeded m promises before).
    + destruct index as [| [| [| [| index]]]]; try lia;
        repeat (destruct promises as [| ? promises]; try discriminate Hl);
        cbn;
        destruct (Machine.measures m (Machine.refreshed m)) eqn:Hm; cbn;
        try ends_collapsed.
      * eapply (@phase_delay _ 2 [_; _] before);
          [exact Hs | lia | reflexivity | reflexivity |].
        cbn. rewrite He. effects_eq.
      * eapply (@phase_delay _ 3 [_; _; _] before);
          [exact Hs | lia | reflexivity | reflexivity |].
        cbn. rewrite He. effects_eq.
      * eapply (@phase_all _ [_; _; _; _] before);
          [exact Hs | reflexivity | reflexivity |].
        cbn. rewrite He. effects_eq.
    + cbn. now apply (@phase_all m promises before).
    + now apply (@phase_expanded m promises before).
  - (* [Promise.all] settles *)
    destruct Hp as [Hs Hi He | before error Hs Hi He
                    | promises before Hs Hl Hi He
                    | index promises before Hs Hn Hl Hi He
                    | promises before Hs Hl Hi He
                    | promises before Hs Hl Hi He];
      unfold step; rewrite Hi.
    + now apply phase_idle.
    + now apply (@phase_failed m before error).
    + now apply (@phase_succeeded m promises before).
    + destruct index as [| [| [| [| index]]]]; try lia; cbn;
        apply (@phase_delay m (List.length promises) promises before);
        rewrite ?Hl; (assumption || reflexivity).
    + cbn. destruct rejection as [error |]; cbn.
      * ends_collapsed.
      * apply (@phase_succeeded _ promises before);
          [reflexivity | assumption | reflexivity |].
        repeat (destruct promises as [| ? promises]; try discriminate Hl).
        cbn. rewrite He. unfold expansionEffects. effects_eq.
    + now apply (@phase_expanded m promises before).
  - (* [expandMenu] resumes *)
    destruct Hp as [Hs Hi He | before error Hs Hi He
                    | promises before Hs Hl Hi He
                    | index promises before Hs Hn Hl Hi He
                    | promises before Hs Hl Hi He
                    | promises before Hs Hl Hi He];
      unfold step; rewrite Hi.
    + now apply phase_idle.
    + now apply (phase_clearInFlight_failed m before error).
    + now apply (@phase_expanded _ promises before).
    + destruct index as [| [| [| [| index]]]]; try lia; cbn;
        apply (@phase_delay m (List.length promises) promises before);
        rewrite ?Hl; (assumption || reflexivity).
    + cbn. now apply (@phase_all m promises before).
    + now apply (@phase_expanded m promises before).
Qed.

Lemma phase_run evs : forall m, Phase m -> Phase (run m evs).
Proof.
  induction evs as [| ev evs IH]; intros m Hp; [assumption |].
  apply IH. now apply phase_step.
Qed.

(** Nothing changes the options the controller was constructed with. *)
Lemma advance_options a : forall m,
  Controller.staggerMs (Machine.controller (advance m a))
  = Controller.staggerMs (Machine.controller m)
  /\ Controller.durationMs (Machine.controller (advance m a))
     = Controller.durationMs (Machine.controller m).
Proof.
  induction a as [x | error | state k IH | slotId k IH | slotId ms k IH
                  | ms k IH | promises k IH];
    intros m; cbn [advance]; try (split; reflexivity).
  - destruct (IH (setState m state)) as [H1 H2]. now rewrite H1, H2.
  - match goal with |- context [advance ?m' (k ?b)] =>
      destruct (IH b m') as [H1 H2]
    end.
    now rewrite H1, H2.
  - match goal with |- context [advance ?m' (k ?p)] =>
      destruct (IH p m') as [H1 H2]
    end.
    now rewrite H1, H2.
Qed.

Lemma step_options m ev :
  Controller.staggerMs (Machine.controller (step m ev))
  = Controller.staggerMs (Machine.controller m)
  /\ Controller.durationMs (Machine.controller (step m ev))
     = Controller.durationMs (Machine.controller m).
Proof.
  unfold step, expandMenu.
  destruct ev; destruct (Controller.inFlightExpand (Machine.controller m))
    as [[] |]; destruct (Controller.state (Machine.controller m));
    try (split; reflexivity);
    match goal with |- context [advance ?m' ?a] =>
      destruct (advance_options a m') as [H1 H2]; now rewrite H1, H2
    end.
Qed.

Lemma run_options evs : forall m,
  Controller.staggerMs (Machine.controller (run m evs))
  = Controller.staggerMs (Machine.controller m)
  /\ Controller.durationMs (Machine.controller (run m evs))
     = Controller.durationMs (Machine.controller m).
Proof.
  induction evs as [| ev evs IH]; intros m; [split; reflexivity |].
  cbn [run fold_left]. destruct (IH (step m ev)) as [H1 H2].
  destruct (step_options m ev) as [H3 H4].
  unfold run in *. now rewrite H1, H2, H3, H4.
Qed.

(** An expanded scene is final: all that is left to happen is that
    [expandMenu] resumes and clears [inFlightExpand]. *)
Lemma step_expanded m ev :
  Controller.state (Machine.controller m) = expanded ->
  (forall a, Controller.inFlightExpand (Machine.controller m) = Some a ->
             suspended a = false) ->
  step m ev = m \/ step m ev = clearInFlight m.
Proof.
  intros Hs Hn. unfold step, expandMenu. rewrite Hs.
  destruct ev; destruct (Controller.inFlightExpand (Machine.controller m))
    as [[] |] eqn:Hi; auto;
    now discriminate (Hn _ eq_refl).
Qed.

Lemma step_cleared m ev :
  Controller.state (Machine.controller m) = expanded ->
  step (clearInFlight m) ev = clearInFlight m.
Proof.
  intros Hs. unfold step, expandMenu. cbn. rewrite Hs. now destruct ev.
Qed.

Lemma run_cleared evs m :
  Controller.state (Machine.controller m) = expanded ->
  run (clearInFlight m) evs = clearInFlight m.
Proof.
  intros Hs. induction evs as [| ev evs IH]; [reflexivity |].
  cbn [run fold_left]. rewrite step_cleared by assumption. exact IH.
Qed.

Lemma run_expanded evs : forall m,
  Controller.state (Machine.controller m) = expanded ->
  (forall a, Controller.inFlightExpand (Machine.controller m) = Some a ->
             suspended a = false) ->
  run m evs = m \/ run m evs = clearInFlight m.
Proof.
  induction evs as [| ev evs IH]; intros m Hs Hn; [now left |].
  cbn [run fold_left].
  destruct (step_expanded m ev Hs Hn) as [-> | ->].
  - now apply IH.
  - right. now apply run_cleared.
Qed.

End HomeSceneFacts.

(** ** Reseeding, and what stays registered *)

Section Reseeding.

Lemma seedParticles_map (A : Type) (f : Particle.t -> A) rnd status rect startY :
  (forall k p, f (seedParticle rnd status rect startY k p) = f p) ->
  forall ps k,
    map f (seedParticles rnd status rect startY k ps) = map f ps.
Proof.
  intros Hf. induction ps as [| p ps IH]; intros k; simpl; [reflexivity |].
  now rewrite Hf, IH.
Qed.

Lemma seedParticles_length rnd status rect startY ps : forall k,
  List.length (seedParticles rnd status rect startY k ps) = List.length ps.
Proof.
  induction ps as [| p ps IH]; intros k; simpl; [reflexivity |].
  now rewrite IH.
Qed.

Lemma seedParticles_nth rnd status rect startY : forall ps k i p,
  nth_error ps i = Some p ->
  nth_error (seedParticles rnd status rect startY k ps) i
  = Some (seedParticle rnd status rect startY (k + 4 * i) p).
Proof.
  induction ps as [| q ps IH]; intros k [| i] p H; try discriminate.
  - injection H as ->. cbn. now rewrite Nat.add_0_r.
  - cbn [seedParticles nth_error]. rewrite (IH (k + 4)%nat i p H).
    do 2 f_equal. lia.
Qed.

Lemma runTransition_cursor e id slot status direction durationMs now :
  JS.le (SlotRect.w (SlotConfig.rect (SlotState.config slot))) 0
  || JS.le (SlotRect.h (SlotConfig.rect (SlotState.config slot))) 0 = false ->
  Engine.randomCursor
    (snd (runTransition e id slot status direction durationMs now))
  = (S (Engine.randomCursor e) + 4 * List.length (SlotState.particles slot))%nat.
Proof.
  intros Hm. unfold runTransition. rewrite Hm. cbn [snd].
  unfold updateBusyState, setBusy.
  match goal with |- context [if ?c then _ else _] => destruct c end;
    reflexivity.
Qed.

Lemma requestTransition_registered status e id opts now id' :
  slots_get (Engine.slots e) id' <> None ->
  slots_get (Engine.slots (snd (requestTransition status e id opts now))) id'
  <> None.
Proof.
  intros H. unfold requestTransition.
  destruct (slots_get (Engine.slots e) id) as [slot |] eqn:Hget;
    [| assumption].
  destruct (SlotState.imageReady slot); try assumption.
  destruct (JS.le (SlotRect.w (SlotConfig.rect (SlotState.config slot))) 0
            || JS.le (SlotRect.h (SlotConfig.rect (SlotState.config slot))) 0)
    eqn:Hm.
  - unfold runTransition. now rewrite Hm.
  - match goal with |- context [runTransition ?e ?id ?s ?st ?d ?ms ?n] =>
      destruct (runTransition_fields e id s st d ms n Hm) as (H1 & _)
    end.
    rewrite H1. now apply slots_get_registered.
Qed.

Lemma step_registered e ev id :
  slots_get (Engine.slots e) id <> None ->
  slots_get (Engine.slots (step e ev)) id <> None.
Proof.
  intros H. destruct (slots_get (Engine.slots e) id) as [slot |] eqn:Hget;
    [| contradiction].
  destruct (step_slot e ev id slot Hget) as (m & ie & ts & d & [E | E]);
    rewrite E; discriminate.
Qed.

Lemma call_registered e c id :
  c <> CallDestroy ->
  slots_get (Engine.slots e) id <> None ->
  slots_get (Engine.slots (call e c)) id <> None.
Proof.
  intros Hc H. destruct c; cbn [call].
  - destruct (mount_keeps e pointerEvents hasContext now) as (H1 & _).
    now rewrite H1.
  - destruct (resize_keeps e width height) as (H1 & _). now rewrite H1.
  - contradiction.
  - now apply registerSlot_registered.
  - unfold imageLoaded. destruct (slots_get (Engine.slots e) id0);
      [| assumption].
    now apply slots_get_registered.
  - unfold updateSlotRect. destruct (slots_get (Engine.slots e) id0);
      [| assumption].
    now apply slots_get_registered.
  - unfold setSlotVisible. destruct (slots_get (Engine.slots e) id0);
      [| assumption].
    now apply slots_get_registered.
  - assumption.
  - now apply requestTransition_registered.
  - now apply requestTransition_registered.
  - now apply step_registered.
Qed.

Lemma history_registered cs : forall e id,
  ~ In CallDestroy cs ->
  slots_get (Engine.slots e) id <> None ->
  slots_get (Engine.slots (history e cs)) id <> None.
Proof.
  induction cs as [| c cs IH]; intros e id Hcs H; [assumption |].
  apply IH.
  - intros Hin. apply Hcs. now right.
  - apply call_registered; [| assumption].
    intros ->. apply Hcs. now left.
Qed.

End Reseeding.

Section Unregistered.

Lemma slots_get_unregistered m id s id' :
  id' <> id -> slots_get m id' = None ->
  slots_get (slots_set m id s) id' = None.
Proof.
  intros Hne H. now rewrite slots_get_set_other.
Qed.

Lemma requestTransition_unregistered status e id opts now id' :
  slots_get (Engine.slots e) id' = None ->
  slots_get (Engine.slots (snd (requestTransition status e id opts now))) id'
  = None.
Proof.
  intros H. unfold requestTransition.
  destruct (slots_get (Engine.slots e) id) as [slot |] eqn:Hget;
    [| assumption].
  destruct (SlotState.imageReady slot); try assumption.
  destruct (JS.le (SlotRect.w (SlotConfig.rect (SlotState.config slot))) 0
            || JS.le (SlotRect.h (SlotConfig.rect (SlotState.config slot))) 0)
    eqn:Hm.
  - unfold runTransition. now rewrite Hm.
  - match goal with |- context [runTransition ?e ?id ?s ?st ?d ?ms ?n] =>
      destruct (runTransition_fields e id s st d ms n Hm) as (H1 & _)
    end.
    rewrite H1. apply slots_get_unregistered; [| assumption].
    intros ->. congruence.
Qed.

Lemma frame_slot_none e timestamp id :
  slots_get (Engine.slots e) id = None ->
  slots_get (Engine.slots (render e timestamp)) id = None.
Proof.
  intros H. destruct (Engine.context e) eqn:Hctx.
  - destruct (@render_effects e timestamp Hctx) as (H1 & _).
    now rewrite H1, renderSlots_get, H.
  - unfold render. now rewrite Hctx.
Qed.

Lemma step_unregistered e ev id :
  slots_get (Engine.slots e) id = None ->
  slots_get (Engine.slots (step e ev)) id = None.
Proof.
  intros H. destruct ev as [timestamp | | | |]; cbn [step]; try assumption.
  pose proof (frame_slot_none e timestamp id H) as Hn. exact Hn.
Qed.

Lemma call_unregistered e c id :
  (forall config, c = CallRegisterSlot config -> SlotConfig.id config <> id) ->
  slots_get (Engine.slots e) id = None ->
  slots_get (Engine.slots (call e c)) id = None.
Proof.
  intros Hc H. destruct c; cbn [call].
  - destruct (mount_keeps e pointerEvents hasContext now) as (H1 & _).
    now rewrite H1.
  - destruct (resize_keeps e width height) as (H1 & _). now rewrite H1.
  - reflexivity.
  - rewrite registerSlot_other; [assumption |].
    intros ->. now apply (Hc config).
  - unfold imageLoaded.
    destruct (slots_get (Engine.slots e) id0) eqn:E0; [| assumption].
    cbn [Engine.slots Engine.with_slots].
    apply slots_get_unregistered; [| assumption]. intros ->. congruence.
  - unfold updateSlotRect.
    destruct (slots_get (Engine.slots e) id0) eqn:E0; [| assumption].
    cbn [Engine.slots Engine.with_slots].
    apply slots_get_unregistered; [| assumption]. intros ->. congruence.
  - unfold setSlotVisible.
    destruct (slots_get (Engine.slots e) id0) eqn:E0; [| assumption].
    cbn [Engine.slots Engine.with_slots].
    apply slots_get_unregistered; [| assumption]. intros ->. congruence.
  - assumption.
  - now apply requestTransition_unregistered.
  - now apply requestTransition_unregistered.
  - now apply step_unregistered.
Qed.

(** One call changes whether a slot is registered as [registeredAfter]
    tells. *)
Lemma call_registeredAfter e c id :
  (slots_get (Engine.slots (call e c)) id <> None)
  <-> registeredAfter
        (match slots_get (Engine.slots e) id with
         | Some _ => true
         | None => false
         end) [c] id = true.
Proof.
  assert (Hkeep :
    c <> CallDestroy ->
    (forall config, c = CallRegisterSlot config -> SlotConfig.id config <> id) ->
    (slots_get (Engine.slots (call e c)) id <> None)
    <-> (match slots_get (Engine.slots e) id with
         | Some _ => true
         | None => false
         end) = true).
  { intros Hd Hr. destruct (slots_get (Engine.slots e) id) eqn:Hget.
    - split; [reflexivity | intros _].
      apply call_registered; [assumption | now rewrite Hget].
    - split; [| discriminate]. intros H. exfalso. apply H.
      now apply call_unregistered. }
  unfold registeredAfter. cbn [fold_left].
  destruct c; try (apply Hkeep; [discriminate | intros ? ?; discriminate]).
  - split; [intros H; exfalso; now apply H | discriminate].
  - destruct (SlotId_eqb (SlotConfig.id config) id) eqn:E.
    + apply SlotId_eqb_eq in E. subst id. rewrite orb_true_r.
      split; [reflexivity | intros _]. cbn [call].
      destruct (registerSlot_then_slot e config) as [s Hs]. now rewrite Hs.
    + rewrite orb_false_r. apply SlotId_eqb_neq in E.
      apply Hkeep; [discriminate |].
      intros config' Heq. injection Heq as <-. exact E.
Qed.

Lemma history_registeredAfter cs : forall e id,
  (slots_get (Engine.slots (history e cs)) id <> None)
  <-> registeredAfter
        (match slots_get (Engine.slots e) id with
         | Some _ => true
         | None => false
         end) cs id = true.
Proof.
  induction cs as [| c cs IH]; intros e id.
  - cbn. destruct (slots_get (Engine.slots e) id); split;
      congruence || discriminate.
  - change (history e (c :: cs)) with (history (call e c) cs).
    rewrite IH.
    set (before := match slots_get (Engine.slots e) id with
                   | Some _ => true
                   | None => false
                   end).
    change (registeredAfter before (c :: cs) id)
      with (registeredAfter (registeredAfter before [c] id) cs id).
    pose proof (call_registeredAfter e c id) as Hc. fold before in Hc.
    assert (Heq :
      match slots_get (Engine.slots (call e c)) id with
      | Some _ => true
      | None => false
      end = registeredAfter before [c] id).
    { destruct (slots_get (Engine.slots (call e c)) id) eqn:E.
      - symmetry. apply Hc. discriminate.
      - destruct (registeredAfter before [c] id) eqn:Eb; [| reflexivity].
        exfalso. now apply (proj2 Hc). }
    now rewrite Heq.
Qed.

End Unregistered.

Set Implicit Arguments.

(** ** Claims about sampling *)

Section SamplingClaims.

Lemma prepareParticles_sampled (slot : SlotState.t) (img : ImageData.t) :
  let rect := SlotConfig.rect (SlotState.config slot) in
  JS.gt (SlotRect.w rect) 0 = true ->
  JS.gt (SlotRect.h rect) 0 = true ->
  HTMLImageElement.complete (SlotState.image slot) = true ->
  HTMLImageElement.raster (SlotState.image slot)
    (sampleWidth rect) (sampleHeight rect) = Some img ->
  prepareParticles slot = SlotState.with_particles slot (samplePoints rect img).
Proof.
  intros rect Hw Hh Hc Hr. unfold prepareParticles. fold rect.
  rewrite (gt_zero_not_le Hw), (gt_zero_not_le Hh), Hc. simpl.
  now rewrite Hr.
Qed.

Lemma even_index (x : Z) :
  (0 <= x)%Z -> (x mod SAMPLE_STEP = 0)%Z -> exists i : nat, x = (2 * Z.of_nat i)%Z.
Proof.
  unfold SAMPLE_STEP. intros H0 Hm. exists (Z.to_nat (x / 2)).
  rewrite Z2Nat.id by (apply Z.div_pos; lia).
  pose proof (Z.div_mod x 2). lia.
Qed.

(** C6, as amended: for a decoded image and a rect of positive width and
    height, [prepareParticles] makes one particle of every pixel of the
    sample buffer whose coordinates are multiples of the stride 2 and whose
    alpha byte is at least the threshold 24 (a pixel whose alpha equals the
    threshold is kept), and of no other pixel; the particle sits at rect
    origin + pixel coordinate + half the stride, its colour is the pixel's
    and its alpha weight is the alpha byte over 255.  Sampling again with
    the same image and rect yields the same list of particles. *)
Theorem C6_sampling_keeps_alpha_at_least_threshold
  (slot : SlotState.t) (img : ImageData.t) :
  let rect := SlotConfig.rect (SlotState.config slot) in
  JS.gt (SlotRect.w rect) 0 = true ->
  JS.gt (SlotRect.h rect) 0 = true ->
  HTMLImageElement.complete (SlotState.image slot) = true ->
  HTMLImageElement.raster (SlotState.image slot)
    (sampleWidth rect) (sampleHeight rect) = Some img ->
  wellFormed img ->
  (forall p,
      In p (SlotState.particles (prepareParticles slot)) <->
      exists x y r g b a,
        (0 <= x < ImageData.width img)%Z /\ (0 <= y < ImageData.height img)%Z
        /\ (x mod SAMPLE_STEP = 0)%Z /\ (y mod SAMPLE_STEP = 0)%Z
        /\ pixel img x y = Some (r, g, b, a)
        /\ (24 <= a)%Z
        /\ p = sampleOf rect x y r g b a)
  /\ (forall slot',
         SlotConfig.rect (SlotState.config slot') = rect ->
         SlotState.image slot' = SlotState.image slot ->
         SlotState.particles (prepareParticles slot')
         = SlotState.particles (prepareParticles slot)).
Proof.
  intros rect Hw Hh Hc Hr Hwf.
  rewrite (prepareParticles_sampled slot Hw Hh Hc Hr). fold rect. simpl.
  split.
  - intros p. rewrite samplePoints_In. split.
    + intros (j & i & Hj & Hi & Hp).
      apply samplePixel_spec in Hp; auto; try lia.
      destruct Hp as (r & g & b & a & Hpx & Ha & ->).
      exists (2 * Z.of_nat i)%Z, (2 * Z.of_nat j)%Z, r, g, b, a.
      unfold SAMPLE_STEP.
      repeat split; auto; try lia;
        rewrite Z.mul_comm; apply Z.mod_mul; lia.
    + intros (x & y & r & g & b & a & Hx & Hy & Hxm & Hym & Hpx & Ha & ->).
      destruct (even_index (proj1 Hx) Hxm) as (i & ->).
      destruct (even_index (proj1 Hy) Hym) as (j & ->).
      exists j, i. repeat split; try lia.
      apply samplePixel_spec; auto.
      exists r, g, b, a. auto.
  - intros slot' Hrect Himg.
    rewrite (@prepareParticles_sampled slot' img); rewrite ?Hrect, ?Himg; auto.
Qed.

Lemma C6_sampling_witness :
  (forall p,
      In p (SlotState.particles (prepareParticles Fixtures.heroHidden)) <->
      exists x y r g b a,
        (0 <= x < 4)%Z /\ (0 <= y < 3)%Z
        /\ (x mod SAMPLE_STEP = 0)%Z /\ (y mod SAMPLE_STEP = 0)%Z
        /\ pixel Fixtures.image4x3 x y = Some (r, g, b, a)
        /\ (24 <= a)%Z
        /\ p = sampleOf Fixtures.heroRect x y r g b a)
  /\ (forall slot',
         SlotConfig.rect (SlotState.config slot') = Fixtures.heroRect ->
         SlotState.image slot' = Fixtures.decoded Fixtures.image4x3 ->
         SlotState.particles (prepareParticles slot')
         = SlotState.particles (prepareParticles Fixtures.heroHidden)).
Proof.
  apply (@C6_sampling_keeps_alpha_at_least_threshold
           Fixtures.heroHidden Fixtures.image4x3);
    try (vm_compute; reflexivity).
  repeat split; simpl; try lia.
  repeat (constructor; [lia |]). constructor.
Defined.

(** C6 as stated fails: the only pixel of the image has alpha 24, which
    does not exceed the threshold 24, and sampling keeps it. *)
Lemma C6_pixel_at_threshold_is_kept :
  pixel Fixtures.image1x1 0 0 = Some (10, 20, 30, 24)%Z
  /\ exceedsThreshold 24 = false
  /\ SlotState.particles (prepareParticles Fixtures.heroPixel)
     = [sampleOf Fixtures.pixelRect 0 0 10 20 30 24].
Proof. vm_compute. repeat split. Qed.

Lemma snapToTarget_atRest (ps : list Particle.t) :
  Forall atRest ps -> map snapToTarget ps = ps.
Proof.
  induction 1 as [| p ps (Hx & Hy & Hvx & Hvy) _ IH]; simpl; [reflexivity |].
  rewrite IH. f_equal.
  destruct p as [x y tx ty vx vy c a s]. simpl in *. subst.
  reflexivity.
Qed.

(** C10, as amended: when a sampling pass runs (the image is complete, the
    rect has positive width and height and the scratch canvas yields
    pixels), every particle it makes has its position on its target and
    zero velocity, whatever the status of the slot; [registerSlot] on a
    registered slot and [updateSlotRect] then store exactly these
    particles, and the snap-to-target loop of [updateSlotRect] changes
    nothing. *)
Theorem C10_resampled_particles_rest_on_targets
  (e : Engine.t) (slot : SlotState.t) (config : SlotConfig.t)
  (img : ImageData.t) :
  let id := SlotConfig.id config in
  let rect := SlotConfig.rect config in
  slots_get (Engine.slots e) id = Some slot ->
  HTMLImageElement.complete (SlotState.image slot) = true ->
  JS.gt (SlotRect.w rect) 0 = true ->
  JS.gt (SlotRect.h rect) 0 = true ->
  HTMLImageElement.raster (SlotState.image slot)
    (sampleWidth rect) (sampleHeight rect) = Some img ->
  Forall atRest (samplePoints rect img)
  /\ slots_get (Engine.slots (registerSlot e config)) id
     = Some (SlotState.with_particles (SlotState.with_config slot config)
               (samplePoints rect img))
  /\ slots_get (Engine.slots (updateSlotRect e id rect)) id
     = Some (SlotState.with_particles
               (SlotState.with_config slot
                  (SlotConfig.with_rect (SlotState.config slot) rect))
               (samplePoints rect img))
  /\ snapLoopChangesNothing slot rect.
Proof.
  intros id rect Hget Hc Hw Hh Hr.
  pose proof (samplePoints_atRest rect img) as Hrest.
  assert (Hupd : updateSlotRect_slot slot rect
                 = SlotState.with_particles
                     (SlotState.with_config slot
                        (SlotConfig.with_rect (SlotState.config slot) rect))
                     (samplePoints rect img)).
  { unfold updateSlotRect_slot. simpl. rewrite Hc.
    rewrite (@prepareParticles_sampled _ img); auto. simpl.
    destruct (SlotState.status slot); auto.
    unfold SlotState.with_particles. simpl.
    now rewrite snapToTarget_atRest. }
  repeat split; auto.
  - unfold registerSlot. fold id. rewrite Hget. simpl.
    rewrite slots_get_set_same.
    now rewrite (@prepareParticles_sampled _ img).
  - unfold updateSlotRect. rewrite Hget. simpl.
    now rewrite slots_get_set_same, Hupd.
  - unfold snapLoopChangesNothing. rewrite Hupd.
    now rewrite (@prepareParticles_sampled _ img).
Qed.

Lemma C10_resampling_witness :
  Forall atRest (samplePoints Fixtures.heroRect Fixtures.image4x3)
  /\ snapLoopChangesNothing Fixtures.heroPushed Fixtures.heroRect.
Proof.
  pose proof (@C10_resampled_particles_rest_on_targets
                (Fixtures.engineOf [(hero, Fixtures.heroPushed)])
                Fixtures.heroPushed Fixtures.heroConfig Fixtures.image4x3
                eq_refl eq_refl eq_refl eq_refl eq_refl) as (H1 & _ & _ & H2).
  split; [exact H1 | exact H2].
Defined.

(** C10 as stated fails.  The hero slot is assembled and the pointer has
    pushed its two particles off their targets (101, 51) and (101, 53).
    [updateSlotRect] then receives a rect without area: no sampling pass
    runs, the particles are the old ones, and the snap-to-target loop moves
    them back onto their targets and stops them. *)
Lemma C10_snap_loop_moves_stale_particles :
  option_map
    (fun s => (SlotState.status s,
               HTMLImageElement.complete (SlotState.image s),
               map (fun p => (Particle.x p, Particle.y p))
                   (SlotState.particles s)))
    (slots_get (Engine.slots Fixtures.heroNudged) hero)
  = Some (assembled, true,
          [(103.35561180697037, 52.185705979374546);
           (103.0289029325871, 54.506817377068032)]%float)
  /\ option_map
       (fun s =>
          map (fun p => (Particle.x p, Particle.y p))
              (SlotState.particles
                 (prepareParticles
                    (SlotState.with_config s
                       (SlotConfig.with_rect (SlotState.config s)
                          Fixtures.noRect)))))
       (slots_get (Engine.slots Fixtures.heroNudged) hero)
     = Some [(103.35561180697037, 52.185705979374546);
             (103.0289029325871, 54.506817377068032)]%float
  /\ option_map
       (fun s => map (fun p => (Particle.x p, Particle.y p))
                     (SlotState.particles s))
       (slots_get
          (Engine.slots (updateSlotRect Fixtures.heroNudged hero Fixtures.noRect))
          hero)
     = Some [(101, 51); (101, 53)]%float
  /\ (forall s,
         slots_get (Engine.slots Fixtures.heroNudged) hero = Some s ->
         ~ snapLoopChangesNothing s Fixtures.noRect).
Proof.
  split; [vm_compute; reflexivity |].
  split; [vm_compute; reflexivity |].
  split; [vm_compute; reflexivity |].
  intros s E H. unfold snapLoopChangesNothing in H.
  apply (f_equal (fun s => match SlotState.particles s with
                           | p :: _ => (Particle.x p =? 101)%float
                           | [] => false
                           end)) in H.
  vm_compute in E. injection E as <-.
  vm_compute in H. discriminate.
Qed.

End SamplingClaims.

(** ** Claims about settle detection and alpha smoothing *)

Section TransitionClaims.

(** C1, as amended: [updateTransition], which a frame runs on every
    visible slot with particles and a transition in flight (and which is
    the frame's only way to resolve a promise), resolves the transition's
    promise exactly when (a) the time elapsed since the
    transition's start has reached the requested duration and (b) for
    every particle the distance to its target on each axis does not exceed
    the settle distance and the magnitude of each velocity component does
    not exceed the settle velocity threshold (a component equal to the
    threshold counts as settled).  At that moment the transition record is
    removed; an assembling transition sets the status to [assembled], the
    alpha to 1 and every particle onto its target with zero velocity; a
    disassembling one sets the status to [hidden], visibility to false and
    the alpha to 0.  Otherwise the promise is not resolved and the
    transition stays in flight, also when the duration alone has elapsed. *)
Theorem C1_promise_resolves_exactly_when_settled
  (slot : SlotState.t) (t : TransitionState.t) (timestamp : float) :
  SlotState.transition slot = Some t ->
  let elapsed := (timestamp - TransitionState.startTime t)%float in
  let slot' := fst (updateTransition slot timestamp) in
  let resolvedNow := snd (updateTransition slot timestamp) in
  (resolvedNow = Some (TransitionState.resolve t) <->
   reached elapsed (TransitionState.durationMs t)
   /\ Forall withinSettleBounds (SlotState.particles slot))
  /\ (resolvedNow = None <->
      ~ (reached elapsed (TransitionState.durationMs t)
         /\ Forall withinSettleBounds (SlotState.particles slot)))
  /\ (resolvedNow = Some (TransitionState.resolve t) ->
      SlotState.transition slot' = None
      /\ match TransitionState.status t with
         | assembling =>
             SlotState.status slot' = assembled
             /\ SlotState.alpha slot' = 1%float
             /\ SlotState.particles slot'
                = map snapToTarget (SlotState.particles slot)
             /\ Forall atRest (SlotState.particles slot')
         | disassembling =>
             SlotState.status slot' = hidden
             /\ SlotState.visible slot' = false
             /\ SlotState.alpha slot' = 0%float
         end)
  /\ (resolvedNow = None ->
      SlotState.transition slot' = Some t
      /\ SlotState.status slot' = SlotState.status slot
      /\ SlotState.visible slot' = SlotState.visible slot
      /\ SlotState.particles slot' = SlotState.particles slot)
  /\ (forall mouse interactionEnabled delta,
         skipped slot = false ->
         snd (renderSlot mouse interactionEnabled timestamp delta slot)
         = resolvedNow).
Proof.
  intros Ht. cbv zeta.
  assert (Hframe : forall mouse interactionEnabled delta,
             skipped slot = false ->
             snd (renderSlot mouse interactionEnabled timestamp delta slot)
             = snd (updateTransition slot timestamp)).
  { intros mouse ie delta Hsk. unfold renderSlot. rewrite Hsk, Ht.
    now destruct (updateTransition slot timestamp). }
  pose proof (updateTransition_cases slot timestamp Ht) as H. cbv zeta in H.
  destruct H as [(Hnot & Hu) | (Hr & Hs & Hu)]; rewrite Hu in *; simpl in *.
  - repeat split; auto; try discriminate; try tauto.
  - split; [tauto |]. split; [split; [discriminate | tauto] |].
    split; [| split; [discriminate | exact Hframe]].
    intros _. split; [reflexivity |].
    destruct (TransitionState.status t); simpl; repeat split.
    apply snapToTarget_rests.
Qed.

Lemma C1_settle_witness :
  snd (updateTransition
         (Fixtures.heroInFlight assembling [Fixtures.restingParticle]) 2000)
  = Some 7%nat
  <-> reached (2000 - 1000) 500
      /\ Forall withinSettleBounds [Fixtures.restingParticle].
Proof.
  exact (proj1 (@C1_promise_resolves_exactly_when_settled
                  (Fixtures.heroInFlight assembling [Fixtures.restingParticle])
                  (Fixtures.transition7 assembling) 2000 eq_refl)).
Defined.

(** C1 as stated fails, in two ways.  First, 500 ms were asked and 1000 ms
    have elapsed; the only particle is on its target but its horizontal
    velocity equals the settle threshold, so it is not below it; the
    promise is resolved all the same and the slot becomes [assembled].
    Second, a slot without particles has an open transition whose duration
    has elapsed; the convergence condition holds of every particle, there
    being none, yet the frame skips the slot: the promise is not resolved
    and the transition stays open. *)
Lemma C1_resolution_differs_from_stated_condition :
  let slot := Fixtures.heroInFlight assembling [Fixtures.edgeParticle] in
  let late := render Fixtures.emptyAssembling 2000 in
  (JS.le 500 (2000 - 1000) = true
   /\ JS.lt (JS.Math_abs (Particle.vx Fixtures.edgeParticle))
            TRANSITION_SETTLE_VELOCITY = false
   /\ forallb withinDistanceAndBelowThreshold (SlotState.particles slot)
      = false
   /\ snd (updateTransition slot 2000) = Some 7%nat
   /\ SlotState.status (fst (updateTransition slot 2000)) = assembled)
  /\ (option_map
        (fun s => (SlotState.particles s,
                   option_map TransitionState.startTime (SlotState.transition s),
                   option_map TransitionState.durationMs (SlotState.transition s)))
        (slots_get (Engine.slots Fixtures.emptyAssembling) hero)
      = Some ([], Some 1000%float, Some 500%float)
      /\ Engine.resolved late = []
      /\ option_map hasOpenTransition (slots_get (Engine.slots late) hero)
         = Some true).
Proof. vm_compute. repeat split. Qed.

(** C7, as amended: a call of [updateTransition] that leaves the transition
    in flight moves the alpha of an assembling slot to
    [alpha + (1 - alpha) * 0.12] and the alpha of a disassembling slot to
    [alpha + (0 - alpha) * 0.1], exponential smoothing towards 1 and 0 with
    two separate rate constants; a call that completes the transition sets
    the alpha to 1 or 0.  The disassemble rate 0.1 is strictly smaller than
    the assemble rate 0.12. *)
Theorem C7_alpha_smoothing_rates
  (slot : SlotState.t) (t : TransitionState.t) (timestamp : float) :
  SlotState.transition slot = Some t ->
  let alpha := SlotState.alpha slot in
  let slot' := fst (updateTransition slot timestamp) in
  (snd (updateTransition slot timestamp) = None ->
   SlotState.alpha slot'
   = match TransitionState.status t with
     | assembling => (alpha + (1 - alpha) * ASSEMBLE_ALPHA_RATE)%float
     | disassembling => (alpha + (0 - alpha) * DISASSEMBLE_ALPHA_RATE)%float
     end)
  /\ (snd (updateTransition slot timestamp) <> None ->
      SlotState.alpha slot' = finalAlpha (TransitionState.status t))
  /\ ASSEMBLE_ALPHA_RATE = 0.12%float
  /\ DISASSEMBLE_ALPHA_RATE = 0.1%float
  /\ JS.lt DISASSEMBLE_ALPHA_RATE ASSEMBLE_ALPHA_RATE = true.
Proof.
  intros Ht. cbv zeta.
  pose proof (updateTransition_cases slot timestamp Ht) as H. cbv zeta in H.
  destruct H as [(_ & ->) | (_ & _ & ->)]; simpl.
  - repeat split; try reflexivity. congruence.
  - repeat split; try reflexivity. discriminate.
Qed.

Lemma C7_smoothing_witness :
  SlotState.alpha
    (fst (updateTransition
            (Fixtures.heroInFlight disassembling [Fixtures.restingParticle])
            1100))
  = (0.5 + (0 - 0.5) * DISASSEMBLE_ALPHA_RATE)%float.
Proof.
  exact (proj1 (@C7_alpha_smoothing_rates
                  (Fixtures.heroInFlight disassembling [Fixtures.restingParticle])
                  (Fixtures.transition7 disassembling) 1100 eq_refl)
               eq_refl).
Defined.

(** C7 as stated fails: the disassemble rate is not greater than the
    assemble rate, it is smaller. *)
Lemma C7_disassemble_rate_is_smaller :
  ~ disassembleRateIsGreater
  /\ JS.lt DISASSEMBLE_ALPHA_RATE ASSEMBLE_ALPHA_RATE = true.
Proof.
  split; [| vm_compute; reflexivity].
  unfold disassembleRateIsGreater. vm_compute. discriminate.
Qed.

(** The first steps of the two smoothings, from alpha 0 and from alpha 1. *)
Example smoothing_first_steps :
  smoothAlpha assembling 0 = 0.12%float
  /\ smoothAlpha assembling 0.12 = 0.22559999999999999%float
  /\ smoothAlpha disassembling 1 = 0.90000000000000002%float
  /\ smoothAlpha disassembling 0.90000000000000002 = 0.81000000000000005%float.
Proof. vm_compute. repeat split. Qed.

End TransitionClaims.

(** ** Claims about [assemble] and [disassemble] *)

Section RequestClaims.

(** C2, as amended: [assemble] on a slot whose status is [assembled] (image
    ready, rect measurable) is not a no-op; as from any other status it
    opens a new assembling transition: the status becomes [assembling], the
    alpha is reset to 0, interaction is disabled, the busy flag is set, and
    the promise returned is a new one that is not resolved when the call
    returns.  Every particle keeps its target and is given a new position
    and velocity from [Math.random]: x across the width of the rect, y up
    to a quarter of the height of the rect above the start line that
    [getOffscreenY] draws once for the call, vx between -0.35 and 0.35 and
    vy between 1.2 and 3.6 as [randomBetween] computes them.  (The new
    position need not be outside the viewport: see
    [reseeded_particle_can_start_inside_the_viewport].) *)
Theorem C2_assemble_on_assembled_restarts
  (e : Engine.t) (id : SlotId) (slot : SlotState.t) (opts : Options.t)
  (now : float) :
  consistent e ->
  slots_get (Engine.slots e) id = Some slot ->
  SlotState.status slot = assembled ->
  SlotState.imageReady slot = Fulfilled ->
  measurable (SlotConfig.rect (SlotState.config slot)) ->
  let direction :=
    orElse (Options.direction opts)
           (SlotConfig.direction (SlotState.config slot)) in
  let durationMs := orElse (Options.durationMs opts) DEFAULT_DURATION_MS in
  let rect := SlotConfig.rect (SlotState.config slot) in
  let rnd := Engine.random e in
  let k := Engine.randomCursor e in
  let startY := getOffscreenY (Engine.height e) (rnd k) direction rect in
  let e' := snd (assemble e id opts now) in
  fst (assemble e id opts now) = Started (Engine.nextPromise e)
  /\ ~ In (Engine.nextPromise e) (Engine.resolved e')
  /\ Engine.interactionEnabled e' = false
  /\ Engine.busy e' = true
  /\ exists slot',
       slots_get (Engine.slots e') id = Some slot'
       /\ slot' = reseedSlot e slot assembling direction durationMs now
       /\ SlotState.status slot' = st_assembling
       /\ SlotState.alpha slot' = 0%float
       /\ SlotState.transition slot'
          = Some (TransitionState.mk assembling now durationMs
                    (Engine.nextPromise e) direction)
       /\ map Particle.tx (SlotState.particles slot')
          = map Particle.tx (SlotState.particles slot)
       /\ map Particle.ty (SlotState.particles slot')
          = map Particle.ty (SlotState.particles slot)
       /\ List.length (SlotState.particles slot')
          = List.length (SlotState.particles slot)
       /\ forall i p,
            nth_error (SlotState.particles slot) i = Some p ->
            exists p',
              nth_error (SlotState.particles slot') i = Some p'
              /\ Particle.x p'
                 = randomBetween (rnd (k + 1 + 4 * i)%nat) (SlotRect.x rect)
                     (SlotRect.x rect + SlotRect.w rect)
              /\ Particle.y p'
                 = (startY
                    - randomBetween (rnd (k + 2 + 4 * i)%nat) 0
                        (SlotRect.h rect * 0.25))%float
              /\ Particle.vx p'
                 = randomBetween (rnd (k + 3 + 4 * i)%nat) (-0.35) 0.35
              /\ Particle.vy p'
                 = randomBetween (rnd (k + 4 + 4 * i)%nat) 1.2 3.6.
Proof.
  intros Hc Hget Hst Hready Hm. cbv zeta.
  unfold assemble, requestTransition. rewrite Hget, Hready.
  pose proof (@runTransition_started e id slot assembling
                (orElse (Options.direction opts)
                   (SlotConfig.direction (SlotState.config slot)))
                (orElse (Options.durationMs opts) DEFAULT_DURATION_MS)
                now Hm) as H.
  cbv zeta in H.
  destruct H as (Hf & Hs & _ & Hr & Hi & Hb & _ & _).
  split; [exact Hf |].
  split; [rewrite Hr; now apply (@resolveStale_fresh e id slot) |].
  split; [exact Hi |]. split; [exact Hb |].
  eexists. split; [exact Hs |].
  split; [reflexivity |]. split; [reflexivity |]. split; [reflexivity |].
  split; [reflexivity |].
  split; [apply (@seedParticles_targets (Engine.random e) assembling);
          reflexivity |].
  split; [apply (@seedParticles_targets (Engine.random e) assembling);
          reflexivity |].
  split; [apply seedParticles_length |].
  intros i p Hp. eexists. split.
  - unfold reseedSlot. cbn [SlotState.particles].
    apply seedParticles_nth. exact Hp.
  - cbn [seedParticle Particle.x Particle.y Particle.vx Particle.vy].
    replace (S (Engine.randomCursor e) + 4 * i)%nat
      with (Engine.randomCursor e + 1 + 4 * i)%nat by lia.
    replace (Engine.randomCursor e + 1 + 4 * i + 1)%nat
      with (Engine.randomCursor e + 2 + 4 * i)%nat by lia.
    replace (Engine.randomCursor e + 1 + 4 * i + 2)%nat
      with (Engine.randomCursor e + 3 + 4 * i)%nat by lia.
    replace (Engine.randomCursor e + 1 + 4 * i + 3)%nat
      with (Engine.randomCursor e + 4 + 4 * i)%nat by lia.
    repeat split; reflexivity.
Qed.

Lemma C2_restart_witness :
  fst (assemble Fixtures.engineAssembled hero Options.empty 5000)
  = Started 0%nat
  /\ Engine.busy (snd (assemble Fixtures.engineAssembled hero Options.empty 5000))
     = true.
Proof.
  assert (Hc : consistent Fixtures.engineAssembled).
  { split; simpl; constructor; [| constructor].
    intros t Ht. discriminate Ht. }
  destruct (@C2_assemble_on_assembled_restarts
              Fixtures.engineAssembled hero Fixtures.heroAssembled
              Options.empty 5000 Hc eq_refl eq_refl eq_refl
              (conj eq_refl eq_refl))
    as (H1 & _ & _ & H2 & _).
  split; [exact H1 | exact H2].
Defined.

(** C2 as stated fails.  59 frames after [assemble("hero")] the slot is
    assembled, its two particles resting on their targets (101, 51) and
    (101, 53), the first promise resolved.  A second [assemble("hero")]
    returns a new promise that is not resolved, sets the status to
    [assembling] and the alpha to 0, and sends the particles above the
    viewport with new velocities. *)
Lemma C2_assemble_on_assembled_is_not_a_noop :
  let e := Fixtures.heroSettled in
  let r := assemble e hero Options.empty 2000 in
  option_map
    (fun s => (SlotState.status s,
               map (fun p => (Particle.x p, Particle.y p))
                   (SlotState.particles s)))
    (slots_get (Engine.slots e) hero)
  = Some (assembled, [(101, 51); (101, 53)]%float)
  /\ Engine.resolved e = [0%nat]
  /\ fst r = Started 1%nat
  /\ Engine.resolved (snd r) = [0%nat]
  /\ option_map
       (fun s => (SlotState.status s, SlotState.alpha s,
                  map (fun p => (Particle.x p, Particle.y p))
                      (SlotState.particles s)))
       (slots_get (Engine.slots (snd r)) hero)
     = Some (st_assembling, 0%float,
             [(103.23999999999999, -75.335000000000008);
              (101.16, -75.695000000000007)]%float)
  /\ ~ assembleIsNoOp e hero Options.empty 2000.
Proof.
  repeat split; try (vm_compute; reflexivity).
  intros [_ (p & Hp & Hin)].
  vm_compute in Hp. injection Hp as <-.
  vm_compute in Hin. destruct Hin as [Hin | []]. discriminate.
Qed.

(** The start line of direction [bottom] lies below the viewport, but the
    particles start up to a quarter of the rect's height above it: on the
    800 by 600 viewport, [assemble] on an assembled slot whose rect is 400
    high reseeds its particle at y = 555.64, inside the viewport. *)
Example reseeded_particle_can_start_inside_the_viewport :
  Engine.height Scenes.tallBottom = 600%float
  /\ fst (assemble Scenes.tallBottom hero Options.empty 5000) = Started 0%nat
  /\ option_map
       (fun s => (SlotState.status s,
                  map (fun p => (Particle.x p, Particle.y p))
                      (SlotState.particles s)))
       (slots_get
          (Engine.slots (snd (assemble Scenes.tallBottom hero Options.empty 5000)))
          hero)
     = Some (st_assembling, [(101.92, 555.63999999999999)]%float)
  /\ JS.lt 555.63999999999999 (Engine.height Scenes.tallBottom) = true.
Proof. vm_compute. repeat split. Qed.




(** The scenario of [disassemble] called while [assemble] is in flight:
    the promise of [assemble] is resolved by the call itself; 72 frames
    later the new transition settles, its promise is resolved and the slot
    is hidden. *)
Example disassemble_during_assemble_ends_hidden :
  Engine.resolved (run Fixtures.heroAssembling (frames 20 1016.67)) = []
  /\ Engine.resolved Fixtures.heroSuperseded = [0%nat]
  /\ option_map SlotState.status
       (slots_get (Engine.slots Fixtures.heroSuperseded) hero)
     = Some st_disassembling
  /\ Engine.resolved (run Fixtures.heroSuperseded (frames 71 1366.67))
     = [0%nat]
  /\ Engine.resolved (run Fixtures.heroSuperseded (frames 72 1366.67))
     = [0%nat; 1%nat]
  /\ option_map
       (fun s => (SlotState.status s, SlotState.visible s, SlotState.alpha s,
                  SlotState.transition s))
       (slots_get
          (Engine.slots (run Fixtures.heroSuperseded (frames 72 1366.67)))
          hero)
     = Some (hidden, false, 0%float, None).
Proof. vm_compute. repeat split. Qed.

(** C4, as amended: a call of [assemble] or [disassemble] on a registered
    slot tests no rect when it is made: whatever the rect, the call stops
    at [await slot.imageReady] and leaves the engine as it is.  The rect is
    tested when the call resumes, on the slot as it is then.  With the
    image ready and a rect of width <= 0 or height <= 0 at that moment,
    the call fails with the thrown "no measurable rect" error before any
    state mutation: status, alpha, visibility, particles and the
    transition in flight with its unresolved promise, of this slot and of
    every other, and the rest of the engine are left exactly as they
    were; the same holds of a call that resumes at once, and of a call
    that resumes on a slot that [destroy] has removed from the registry.
    With the image failed the call fails with the image's error, and with
    the image still loading it stays suspended, in both cases without
    mutation; it never opens a transition on such a rect. *)
Theorem C4_unmeasurable_rect_fails_without_mutation
  (w : Runtime.t) (k : nat) (id : SlotId) (c : PendingCall.t)
  (slot : SlotState.t) (now : float) :
  nth_error (Runtime.pending w) k = Some (id, c) ->
  slots_get (Engine.slots (Runtime.engine w)) id = Some slot ->
  JS.le (SlotRect.w (SlotConfig.rect (SlotState.config slot))) 0 = true
  \/ JS.le (SlotRect.h (SlotConfig.rect (SlotState.config slot))) 0 = true ->
  let unmeasurable :=
    Threw (NoMeasurableRect (SlotConfig.id (SlotState.config slot))) in
  let over :=
    Runtime.mk (Runtime.engine w) (removeNth k (Runtime.pending w))
      (Runtime.detached w) in
  (forall status opts,
      suspendCall status w id opts
      = (Suspended,
         Runtime.mk (Runtime.engine w)
           (Runtime.pending w ++ [(id, PendingCall.mk status opts)])
           (Runtime.detached w)))
  /\ Runtime.engine (snd (resumeCall w k now)) = Runtime.engine w
  /\ (forall p, fst (resumeCall w k now) <> Started p)
  /\ (SlotState.imageReady slot = Fulfilled ->
      resumeCall w k now = (unmeasurable, over))
  /\ (SlotState.imageReady slot = Rejected ->
      resumeCall w k now = (Threw ImageLoadFailed, over))
  /\ (SlotState.imageReady slot = Pending ->
      resumeCall w k now = (Suspended, w))
  /\ (SlotState.imageReady slot = Fulfilled ->
      forall status opts,
        request status (Runtime.engine w) id opts now
        = (unmeasurable, Runtime.engine w))
  /\ (forall n j d held,
        nth_error (Runtime.detached w) n = Some d ->
        nth_error (DetachedSlot.calls d) j = Some held ->
        SlotState.imageReady (DetachedSlot.slot d) = Fulfilled ->
        JS.le (SlotRect.w (SlotConfig.rect
                             (SlotState.config (DetachedSlot.slot d)))) 0
        = true
        \/ JS.le (SlotRect.h (SlotConfig.rect
                                (SlotState.config (DetachedSlot.slot d)))) 0
           = true ->
        resumeDetachedCall w n j now
        = (Threw (NoMeasurableRect
                    (SlotConfig.id (SlotState.config (DetachedSlot.slot d)))),
           Runtime.mk (Runtime.engine w) (Runtime.pending w)
             (setNth n
                (DetachedSlot.mk (DetachedSlot.slot d)
                   (removeNth j (DetachedSlot.calls d)))
                (Runtime.detached w)))).
Proof.
  intros Hk Hget Hrect. cbv zeta.
  assert (Hm : ~ measurable (SlotConfig.rect (SlotState.config slot))).
  { unfold measurable. intros [Hw Hh]. destruct Hrect; congruence. }
  assert (Hrun : forall status direction durationMs,
             runTransition (Runtime.engine w) id slot status direction
               durationMs now
             = (Threw (NoMeasurableRect (SlotConfig.id (SlotState.config slot))),
                Runtime.engine w))
    by (intros; now apply runTransition_unmeasurable).
  split; [| split; [| split; [| split; [| split; [| split; [| split]]]]]].
  - intros status opts. unfold suspendCall. now rewrite Hget.
  - unfold resumeCall. rewrite Hk, Hget.
    destruct (SlotState.imageReady slot); rewrite ?Hrun; reflexivity.
  - intros p. unfold resumeCall. rewrite Hk, Hget.
    destruct (SlotState.imageReady slot); rewrite ?Hrun; discriminate.
  - intros Hready. unfold resumeCall. rewrite Hk, Hget, Hready, Hrun.
    reflexivity.
  - intros Hready. unfold resumeCall. now rewrite Hk, Hget, Hready.
  - intros Hready. unfold resumeCall. now rewrite Hk, Hget, Hready.
  - intros Hready status opts. rewrite request_eq. unfold requestTransition.
    rewrite Hget, Hready. apply Hrun.
  - intros n j d held Hn Hj Hready Hd. unfold resumeDetachedCall.
    rewrite Hn, Hj, Hready.
    rewrite runTransitionDetached_unmeasurable; [reflexivity |].
    destruct Hd as [-> | ->]; [reflexivity | apply orb_true_r].
Qed.

Lemma C4_unmeasurable_witness :
  let e :=
    Fixtures.engineOf
      [(hero,
        SlotState.with_config
          (Fixtures.heroInFlight assembling [Fixtures.pushedParticle])
          (SlotConfig.with_rect Fixtures.heroConfig Fixtures.noRect))] in
  resumeCall
    (Runtime.mk e [(hero, PendingCall.mk disassembling Options.empty)] [])
    0 1200
  = (Threw (NoMeasurableRect hero), Runtime.mk e [] []).
Proof.
  exact (proj1 (proj2 (proj2 (proj2
           (@C4_unmeasurable_rect_fails_without_mutation
              (Runtime.mk
                 (Fixtures.engineOf
                    [(hero,
                      SlotState.with_config
                        (Fixtures.heroInFlight assembling
                           [Fixtures.pushedParticle])
                        (SlotConfig.with_rect Fixtures.heroConfig
                           Fixtures.noRect))])
                 [(hero, PendingCall.mk disassembling Options.empty)] [])
              0%nat hero (PendingCall.mk disassembling Options.empty) _ 1200
              eq_refl eq_refl (or_introl eq_refl))))) eq_refl).
Defined.

(** C4 as stated fails.  The hero slot is registered before its anchor has
    been measured: its rect has no area and its image is loading.
    [assemble("hero")] is called: it does not fail, it is suspended, and
    as long as the image is loading its resumption does nothing.  Then
    [updateSlotRect] gives the slot its measured rect and the image
    loads.  When the call resumes it opens the transition: it returns the
    promise 0, and the slot, hidden until then, is visible and
    assembling. *)
Lemma C4_rect_is_tested_when_the_call_resumes :
  let w0 :=
    course (launched Fixtures.randomValues) (map Does Scenes.unmeasuredCalls) in
  let called := suspendCall assembling w0 hero (Fixtures.durationOf 500) in
  let w1 :=
    course (snd called)
      [Does (CallUpdateSlotRect hero Fixtures.heroRect);
       Does (ImageLoads hero (fun _ _ => Some Fixtures.image4x3))] in
  let resumed := resumeCall w1 0 1000 in
  option_map
    (fun s => (SlotConfig.rect (SlotState.config s), SlotState.imageReady s,
               SlotState.status s))
    (slots_get (Engine.slots (Runtime.engine w0)) hero)
  = Some (Fixtures.noRect, Pending, hidden)
  /\ called
     = (Suspended,
        Runtime.mk (Runtime.engine w0)
          [(hero, PendingCall.mk assembling (Fixtures.durationOf 500))] [])
  /\ resumeCall (snd called) 0 1000 = (Suspended, snd called)
  /\ option_map
       (fun s => (SlotState.status s, SlotState.visible s,
                  SlotState.transition s))
       (slots_get (Engine.slots (Runtime.engine w1)) hero)
     = Some (hidden, false, None)
  /\ fst resumed = Started 0%nat
  /\ Runtime.pending (snd resumed) = []
  /\ option_map
       (fun s => (SlotState.status s, SlotState.visible s,
                  SlotState.transition s))
       (slots_get (Engine.slots (Runtime.engine (snd resumed))) hero)
     = Some (st_assembling, true,
             Some (TransitionState.mk assembling 1000 500 0%nat top))
  /\ ~ failedWithoutMutation called w0
  /\ ~ failedWithoutMutation resumed w1.
Proof.
  cbv zeta.
  split; [vm_compute; reflexivity |].
  split; [vm_compute; reflexivity |].
  split; [vm_compute; reflexivity |].
  split; [vm_compute; reflexivity |].
  split; [vm_compute; reflexivity |].
  split; [vm_compute; reflexivity |].
  split; [vm_compute; reflexivity |].
  split.
  - intros [[err H] _]. vm_compute in H. discriminate H.
  - intros [[err H] _]. vm_compute in H. discriminate H.
Qed.

End RequestClaims.

(** ** Claims about the render loop *)

Section RenderClaims.




(** The scenario of two slots assembling concurrently: the hero slot
    settles in frame 58, the menu slot in frame 90; the busy flag is true
    after each of the first 90 frames and false from frame 91 on, and
    [onBusyChange] has been called with [true], then with [false]. *)
Example two_slots_busy_until_the_frame_after_the_later_settles :
  Engine.busy Fixtures.twoAssembling = true
  /\ busyTrace Fixtures.twoAssembling (frames 100 1016.67)
     = repeat true 90 ++ repeat false 10
  /\ Engine.resolved (run Fixtures.twoAssembling (frames 57 1016.67)) = []
  /\ Engine.resolved (run Fixtures.twoAssembling (frames 58 1016.67)) = [0%nat]
  /\ Engine.resolved (run Fixtures.twoAssembling (frames 89 1016.67)) = [0%nat]
  /\ Engine.resolved (run Fixtures.twoAssembling (frames 90 1016.67))
     = [0%nat; 1%nat]
  /\ Engine.busyCalls (run Fixtures.twoAssembling (frames 100 1016.67))
     = [true; false].
Proof. vm_compute. repeat split. Qed.

(** C8, as amended: after [setInteractionEnabled(false)], two frames that
    start from the same engine state and differ only in the pointer state
    leave every slot, hence every slot particle, in the same state, resolve
    the same promises and report the same busy flag: the pointer exerts no
    force on slot particles.  (Ambient particles are not covered: they
    follow the pointer whether interaction is enabled or not.) *)
Theorem C8_disabled_interaction_shields_slot_particles
  (e : Engine.t) (m1 m2 : MouseState.t) (timestamp : float) :
  let locked := setInteractionEnabled e false in
  let frame1 := render (Engine.with_mouse locked m1) timestamp in
  let frame2 := render (Engine.with_mouse locked m2) timestamp in
  Engine.interactionEnabled locked = false
  /\ Engine.slots frame1 = Engine.slots frame2
  /\ Engine.resolved frame1 = Engine.resolved frame2
  /\ Engine.busy frame1 = Engine.busy frame2
  /\ Engine.busyCalls frame1 = Engine.busyCalls frame2
  /\ (forall slot delta,
         updateImageParticles m1 (Engine.interactionEnabled locked) slot delta
         = updateImageParticles m2 (Engine.interactionEnabled locked) slot delta).
Proof.
  cbv zeta. split; [reflexivity |].
  destruct (@render_locked (setInteractionEnabled e false) m1 m2 timestamp
              eq_refl) as (Hs & Hr & Hb & Hc).
  split; [exact Hs |]. split; [exact Hr |]. split; [exact Hb |].
  split; [exact Hc |].
  intros slot delta. apply updateImageParticles_locked.
Qed.

(** C8 as stated fails: interaction is disabled; the ambient particle at
    (10, 10) is at rest.  With the pointer away it stays at rest; with the
    pointer active at the origin the same frame pushes it. *)
Lemma C8_ambient_particles_follow_the_pointer :
  let e := Fixtures.engineLocked in
  Engine.interactionEnabled e = false
  /\ map AmbientParticle.vx
       (Engine.ambientParticles
          (render (Engine.with_mouse e Fixtures.mouseIdle) 1016.67))
     = [0%float]
  /\ map AmbientParticle.vx
       (Engine.ambientParticles
          (render (Engine.with_mouse e Fixtures.mouseNear) 1016.67))
     = [0.025413110552763827%float]
  /\ ~ pointerIndependent e Fixtures.mouseIdle Fixtures.mouseNear 1016.67.
Proof.
  repeat split; try (vm_compute; reflexivity).
  intros [_ H].
  apply (f_equal (fun l => match l with
                           | [a] => (AmbientParticle.vx a =? 0)%float
                           | _ => false
                           end)) in H.
  vm_compute in H. discriminate.
Qed.

(** C9, as amended: a transition opened by [assemble] or [disassemble] on
    a slot whose particle list is empty is not settled by the render loop
    for as long as only frames and pointer events occur.  After any run of
    them the slot is stored exactly as the call left it: no particle, the
    status of the request, the transition still in flight (no settle check
    ran, nor any alpha smoothing) and its promise not resolved; and a
    frame in which every transition in flight belongs to a slot without
    particles sets the busy flag to false: the open transition is not
    counted.  This does not last for ever, since the transition stays in
    flight: once [updateSlotRect] has re-sampled the slot to a particle
    list that is not empty, the loop of [render] no longer skips the slot
    and counts its transition, so the next frame runs the settle check;
    and a new [assemble] or [disassemble] on the slot resolves the promise
    at once. *)
Theorem C9_transition_of_empty_slot_never_settles
  (status : TransitionStatus) (e : Engine.t) (id : SlotId)
  (slot : SlotState.t) (opts : Options.t) (now : float) (evs : list Event) :
  consistent e ->
  slots_get (Engine.slots e) id = Some slot ->
  SlotState.particles slot = [] ->
  SlotState.imageReady slot = Fulfilled ->
  measurable (SlotConfig.rect (SlotState.config slot)) ->
  let promise := Engine.nextPromise e in
  let opened := snd (request status e id opts now) in
  let e' := run opened evs in
  fst (request status e id opts now) = Started promise
  /\ slots_get (Engine.slots e') id = slots_get (Engine.slots opened) id
  /\ (exists slot',
         slots_get (Engine.slots e') id = Some slot'
         /\ SlotState.particles slot' = []
         /\ SlotState.status slot' = status_of status
         /\ option_map TransitionState.resolve (SlotState.transition slot')
            = Some promise
         /\ counted slot' = false)
  /\ ~ In promise (Engine.resolved e')
  /\ (forall timestamp,
         Engine.context e' = true ->
         (forall id' slot',
             In (id', slot') (Engine.slots e') ->
             SlotState.particles slot' <> [] ->
             SlotState.transition slot' = None) ->
         Engine.busy (render e' timestamp) = false
         /\ ~ In promise (Engine.resolved (render e' timestamp)))
  /\ (forall rect' slot',
         slots_get (Engine.slots (updateSlotRect e' id rect')) id
         = Some slot' ->
         SlotState.particles slot' <> [] ->
         counted slot' = true
         /\ option_map TransitionState.resolve (SlotState.transition slot')
            = Some promise
         /\ forall mouse interactionEnabled timestamp delta,
              fst (fst (renderSlot mouse interactionEnabled timestamp delta
                          slot'))
              = updateImageParticles mouse interactionEnabled
                  (fst (updateTransition slot' timestamp)) delta
              /\ snd (renderSlot mouse interactionEnabled timestamp delta
                        slot')
                 = snd (updateTransition slot' timestamp))
  /\ (forall status' opts' now',
         Engine.resolved (snd (request status' e' id opts' now'))
         = Engine.resolved e' ++ [promise]).
Proof.
  intros Hc Hget Hempty Hready Hm. cbv zeta. rewrite request_eq.
  destruct (@opened_empty_untouched status e id slot opts now Hc Hget Hempty
              Hready Hm) as (Hf & Hu).
  set (slot0 := reseedSlot e slot status _ _ now) in *.
  assert (Hempty0 : SlotState.particles slot0 = [])
    by (unfold slot0, reseedSlot; simpl; now rewrite Hempty).
  pose proof (@run_untouched id slot0 _ Hempty0 evs _ Hu) as Hrun.
  pose proof Hu as (Hget0 & _). pose proof Hrun as (Hget' & Hres' & _).
  split; [exact Hf |]. split; [now rewrite Hget', Hget0 |].
  set (e1 := run (snd (requestTransition status e id opts now)) evs) in *.
  split; [| split; [exact Hres' |]].
  - exists slot0. repeat split; auto.
    unfold counted. now rewrite (@skipped_empty slot0 Hempty0).
  - split; [| split].
    + intros timestamp Hctx Hall. split.
      * now apply render_clears_busy.
      * apply (@render_untouched id slot0 _ Hempty0 _ timestamp Hrun).
    + intros rect' slot' Hget2 Hne.
      unfold updateSlotRect in Hget2. rewrite Hget' in Hget2.
      cbn [Engine.slots Engine.with_slots] in Hget2.
      rewrite slots_get_set_same in Hget2. injection Hget2 as <-.
      destruct (updateSlotRect_slot_standing slot0 rect')
        as (_ & Hv & _ & _ & _ & Ht & _).
      assert (Hskip : skipped (updateSlotRect_slot slot0 rect') = false).
      { unfold skipped. rewrite Hv.
        destruct (SlotState.particles (updateSlotRect_slot slot0 rect'));
          [contradiction | reflexivity]. }
      split; [| split].
      * unfold counted, hasOpenTransition. now rewrite Hskip, Ht.
      * now rewrite Ht.
      * intros mouse interactionEnabled timestamp delta.
        unfold renderSlot. rewrite Hskip, Ht. cbn [SlotState.transition slot0 reseedSlot].
        destruct (updateTransition (updateSlotRect_slot slot0 rect') timestamp).
        split; reflexivity.
    + intros status' opts' now'. rewrite request_eq.
      unfold requestTransition. rewrite Hget'.
      cbn [slot0 reseedSlot SlotState.imageReady]. rewrite Hready.
      match goal with |- context [runTransition ?e1 ?i ?s ?st ?d ?ms ?t] =>
        pose proof (@runTransition_started e1 i s st d ms t Hm) as H
      end.
      cbv zeta in H. destruct H as (_ & _ & _ & Hr & _).
      rewrite Hr. reflexivity.
Qed.

Lemma C9_empty_slot_witness :
  let e := Fixtures.engineOf [(hero, prepareParticles Fixtures.heroEmpty)] in
  let opened := snd (assemble e hero (Fixtures.durationOf 500) 1000) in
  let e' := run opened (frames 3 1016.67 ++ [PointerDown]) in
  fst (assemble e hero (Fixtures.durationOf 500) 1000) = Started 0%nat
  /\ slots_get (Engine.slots e') hero = slots_get (Engine.slots opened) hero
  /\ ~ In 0%nat (Engine.resolved e').
Proof.
  assert (Hc : consistent
                 (Fixtures.engineOf
                    [(hero, prepareParticles Fixtures.heroEmpty)])).
  { split; simpl; constructor; [| constructor].
    intros t Ht. discriminate Ht. }
  destruct (@C9_transition_of_empty_slot_never_settles
              assembling
              (Fixtures.engineOf [(hero, prepareParticles Fixtures.heroEmpty)])
              hero (prepareParticles Fixtures.heroEmpty)
              (Fixtures.durationOf 500) 1000
              (frames 3 1016.67 ++ [PointerDown])
              Hc eq_refl eq_refl eq_refl (conj eq_refl eq_refl))
    as (H1 & H2 & _ & H3 & _).
  split; [exact H1 | split; [exact H2 | exact H3]].
Defined.

(** C9 as stated fails: the promise is not pending for ever.  The image of
    the hero slot is too faint when drawn on the slot's rect of 4 by 3, so
    that sampling yields no particle; [assemble("hero", 500 ms)] opens a
    transition, and 40 frames leave its promise pending.  Then
    [updateSlotRect] gives the slot a rect of 6 by 3, on which sampling
    yields 6 particles, resting on their targets; the transition is still
    in flight, and the next frame runs its settle check, resolves the
    promise and leaves the slot assembled. *)
Lemma C9_resampled_slot_settles :
  let resampled :=
    updateSlotRect Scenes.faintWaiting hero (SlotRect.mk 100 50 6 3) in
  option_map (fun s => List.length (SlotState.particles s))
    (slots_get (Engine.slots Scenes.faintHero) hero)
  = Some 0%nat
  /\ fst (assemble Scenes.faintHero hero (Fixtures.durationOf 500) 1000)
     = Started 0%nat
  /\ Engine.resolved Scenes.faintWaiting = []
  /\ option_map
       (fun s => (List.length (SlotState.particles s), SlotState.status s,
                  option_map TransitionState.resolve (SlotState.transition s)))
       (slots_get (Engine.slots resampled) hero)
     = Some (6%nat, st_assembling, Some 0%nat)
  /\ Engine.resolved resampled = []
  /\ Engine.resolved (render resampled 1700) = [0%nat]
  /\ option_map
       (fun s => (SlotState.status s, SlotState.alpha s,
                  SlotState.transition s))
       (slots_get (Engine.slots (render resampled 1700)) hero)
     = Some (assembled, 1%float, None)
  /\ ~ neverResolved 0%nat Scenes.faintOpened.
Proof.
  cbv zeta.
  split; [vm_compute; reflexivity |].
  split; [vm_compute; reflexivity |].
  split; [vm_compute; reflexivity |].
  split; [vm_compute; reflexivity |].
  split; [vm_compute; reflexivity |].
  split; [vm_compute; reflexivity |].
  split; [vm_compute; reflexivity |].
  intros H.
  apply (H (map Delivers (frames 40 1016.67)
            ++ [CallUpdateSlotRect hero (SlotRect.mk 100 50 6 3);
                Delivers (Frame 1700)])).
  vm_compute. now left.
Qed.

End RenderClaims.

(** * Further properties of the engine

    The properties below are read off the code of the engine and of its
    caller; each is stated for every engine state, or for every state a
    history of calls can reach. *)

Unset Implicit Arguments.

(** ** Numbers: the frame delta and the ambient particles *)

(** X1 ([clamp]).  With bounds in order, [clamp] returns NaN exactly when
    the value is NaN, and otherwise a number that is at least the lower
    bound and at most the upper bound. *)
Theorem clamp_stays_between_bounds (value min max : float) :
  JS.le min max = true ->
  is_nan (clamp value min max) = is_nan value
  /\ (is_nan value = false ->
      JS.le min (clamp value min max) = true
      /\ JS.le (clamp value min max) max = true).
Proof.
  intros H. unfold clamp. now apply between_bounds.
Qed.

Lemma clamp_stays_between_bounds_witness :
  is_nan (clamp 97.5 0.6 1.6) = is_nan 97.5
  /\ (is_nan 97.5 = false ->
      JS.le 0.6 (clamp 97.5 0.6 1.6) = true
      /\ JS.le (clamp 97.5 0.6 1.6) 1.6 = true).
Proof.
  apply (clamp_stays_between_bounds 97.5 0.6 1.6). vm_compute. reflexivity.
Defined.

(** X2 ([render], lines 462-464).  The time step a frame advances the
    physics by is a number between 0.6 and 1.6, or NaN, whatever the
    timestamps; it is NaN only if the time since the last frame is; and it
    is exactly 1 on a frame that finds [lastFrameTime] at 0. *)
Theorem frame_delta_is_bounded (e : Engine.t) (timestamp : float) :
  within 0.6 1.6 (frameDelta e timestamp)
  /\ (is_nan (frameDelta e timestamp) = true ->
      is_nan ((timestamp - Engine.lastFrameTime e) / 16.67) = true)
  /\ ((Engine.lastFrameTime e =? 0)%float = true ->
      frameDelta e timestamp = 1%float).
Proof.
  unfold frameDelta, within.
  destruct (Engine.lastFrameTime e =? 0)%float.
  - repeat split; [right; vm_compute; auto | vm_compute; discriminate].
  - set (v := ((timestamp - Engine.lastFrameTime e) / 16.67)%float).
    destruct (between_bounds 0.6 1.6 v eq_refl) as [H1 H2].
    fold (clamp v 0.6 1.6) in H1, H2.
    repeat split; try discriminate.
    + destruct (is_nan v) eqn:E; [left; exact H1 | right; now apply H2].
    + now rewrite H1.
Qed.

(** X3 ([updateAmbientParticles], lines 622-632, through [render]).  On a
    viewport whose width and height are at least -16, every ambient
    particle leaves a frame with each coordinate either NaN or between -8
    and the viewport's extent plus 8: the edge wrap keeps the particles in
    the field. *)
Theorem frame_keeps_ambient_particles_in_field (e : Engine.t)
  (timestamp : float) :
  Engine.context e = true ->
  JS.le (-8) (Engine.width e + 8) = true ->
  JS.le (-8) (Engine.height e + 8) = true ->
  Forall
    (fun p =>
       within (-8) (Engine.width e + 8) (AmbientParticle.x p)
       /\ within (-8) (Engine.height e + 8) (AmbientParticle.y p))
    (Engine.ambientParticles (render e timestamp)).
Proof.
  intros Hctx Hw Hh. rewrite render_ambientParticles by assumption.
  apply Forall_forall. intros p Hin. apply in_map_iff in Hin.
  destruct Hin as [q [<- _]]. unfold updateAmbientParticle.
  cbn [AmbientParticle.x AmbientParticle.y].
  split; now apply wrap_within.
Qed.

Lemma frame_keeps_ambient_particles_in_field_witness :
  Forall
    (fun p =>
       within (-8) (Engine.width Scenes.mounted + 8) (AmbientParticle.x p)
       /\ within (-8) (Engine.height Scenes.mounted + 8) (AmbientParticle.y p))
    (Engine.ambientParticles (render Scenes.mounted 1016.67))
  /\ List.length (Engine.ambientParticles (render Scenes.mounted 1016.67))
     = 32%nat.
Proof.
  split.
  - apply (frame_keeps_ambient_particles_in_field Scenes.mounted 1016.67);
      vm_compute; reflexivity.
  - vm_compute. reflexivity.
Defined.

(** X4 ([resize] and [createAmbientParticles]).  Resizing a mounted engine
    to a width and height that are not [<= 0] either throws on
    [new Array(NaN)], leaving the ambient particles as they were, or
    replaces them by between 32 and 70 new ones (one for each index below
    the target count), drawing six random values for each; the slots are
    not touched.  The 70 iterations the loop is given are never too few. *)
Theorem resize_repopulates_ambient_particles (e : Engine.t)
  (width height : float) :
  Engine.canvas e <> None -> Engine.context e = true ->
  JS.le width 0 = false -> JS.le height 0 = false ->
  (is_nan (ambientTargetCount width height) = true
   /\ exists e',
        resize e width height = Throw InvalidArrayLength e'
        /\ Engine.ambientParticles e' = Engine.ambientParticles e
        /\ Engine.slots e' = Engine.slots e)
  \/
  (exists e',
     resize e width height = Normal e'
     /\ (32 <= List.length (Engine.ambientParticles e') <= 70)%nat
     /\ (forall j,
           (j < List.length (Engine.ambientParticles e'))%nat ->
           JS.lt (JS.of_Z (Z.of_nat j)) (ambientTargetCount width height)
           = true)
     /\ JS.lt (JS.of_Z (Z.of_nat (List.length (Engine.ambientParticles e'))))
              (ambientTargetCount width height)
        = false
     /\ (forall more,
           ambientLoop (70 + more) (Engine.random e) width height
             (ambientTargetCount width height) 0 (Engine.randomCursor e)
           = Engine.ambientParticles e')
     /\ Engine.randomCursor e'
        = (Engine.randomCursor e
           + 6 * List.length (Engine.ambientParticles e'))%nat
     /\ Engine.width e' = width /\ Engine.height e' = height
     /\ Engine.slots e' = Engine.slots e).
Proof.
  intros Hcanvas Hctx Hw Hh. unfold resize.
  destruct (Engine.canvas e) as [c |]; [| contradiction].
  rewrite Hctx. cbn [negb]. unfold createAmbientParticles.
  cbn [Engine.width Engine.height Engine.random Engine.randomCursor].
  rewrite Hw, Hh. cbn [orb].
  destruct (ambientTargetCount_within width height) as [Hnan | [Hlo Hhi]].
  - left. rewrite Hnan. split; [reflexivity |].
    eexists. split; [reflexivity |]. split; reflexivity.
  - right. destruct (le_not_nan _ _ Hlo) as [_ Hn]. rewrite Hn.
    set (T := ambientTargetCount width height) in *.
    set (ps := ambientLoop 70 (Engine.random e) width height T 0
                 (Engine.randomCursor e)).
    assert (H70 : JS.lt (JS.of_Z 70) T = false).
    { apply (proj2 (@lt_false_iff_le (JS.of_Z 70) T eq_refl Hn)). exact Hhi. }
    assert (Hle : (List.length ps <= 70)%nat) by apply ambientLoop_length_le.
    assert (Hge : (32 <= List.length ps)%nat).
    { pose proof (ambientLoop_length_ge (Engine.random e) width height T 70
                    0 (Engine.randomCursor e) Hlo) as H.
      fold ps in H. lia. }
    eexists. split; [reflexivity |].
    cbn [Engine.ambientParticles Engine.with_ambientParticles
         Engine.with_randomCursor Engine.randomCursor Engine.width
         Engine.height Engine.slots].
    split; [lia |]. split; [| split; [| split]].
    + intros j Hj.
      apply (ambientLoop_guard (Engine.random e) width height T 70 0
               (Engine.randomCursor e) j Hj).
    + destruct (Nat.eq_dec (List.length ps) 70) as [E | E].
      * rewrite E. exact H70.
      * apply (ambientLoop_stops (Engine.random e) width height T 70 0
                 (Engine.randomCursor e)).
        fold ps. lia.
    + intros more. now apply ambientLoop_fuel.
    + repeat split; reflexivity.
Qed.

Lemma resize_repopulates_ambient_particles_witness :
  exists e',
    resize Scenes.mounted 1920 1080 = Normal e'
    /\ List.length (Engine.ambientParticles e') = 70%nat.
Proof.
  destruct (resize_repopulates_ambient_particles Scenes.mounted 1920 1080)
    as [[Hnan _] | [e' [H1 _]]].
  - vm_compute. discriminate.
  - vm_compute. reflexivity.
  - vm_compute. reflexivity.
  - vm_compute. reflexivity.
  - vm_compute in Hnan. discriminate Hnan.
  - exists e'. split; [exact H1 |].
    assert (H : engineAfter (resize Scenes.mounted 1920 1080) = e')
      by now rewrite H1.
    rewrite <- H. vm_compute. reflexivity.
Defined.

(** ** The slot registry *)

(** X5 ([registerSlot]).  After [registerSlot(config)] the slot is found
    under [config.id] with that configuration, and every other slot is as
    before.  A slot registered for the first time is hidden, invisible,
    with alpha 0, no particles, no transition and its image loading; a
    slot registered again keeps its visibility, status, alpha, transition
    and image (the image is not loaded anew, even for another source). *)
Theorem registerSlot_then_lookup (e : Engine.t) (config : SlotConfig.t) :
  (exists slot,
     slots_get (Engine.slots (registerSlot e config)) (SlotConfig.id config)
     = Some slot
     /\ SlotState.config slot = config
     /\ match slots_get (Engine.slots e) (SlotConfig.id config) with
        | None =>
            SlotState.visible slot = false
            /\ SlotState.status slot = hidden
            /\ SlotState.alpha slot = 0%float
            /\ SlotState.particles slot = []
            /\ SlotState.transition slot = None
            /\ SlotState.imageReady slot = Pending
        | Some existing =>
            SlotState.visible slot = SlotState.visible existing
            /\ SlotState.status slot = SlotState.status existing
            /\ SlotState.alpha slot = SlotState.alpha existing
            /\ SlotState.transition slot = SlotState.transition existing
            /\ SlotState.image slot = SlotState.image existing
            /\ SlotState.imageReady slot = SlotState.imageReady existing
        end)
  /\ (forall id,
        id <> SlotConfig.id config ->
        slots_get (Engine.slots (registerSlot e config)) id
        = slots_get (Engine.slots e) id).
Proof.
  unfold registerSlot.
  destruct (slots_get (Engine.slots e) (SlotConfig.id config))
    as [existing |] eqn:Hget;
    cbn [Engine.slots Engine.with_slots]; split.
  - eexists. split; [apply slots_get_set_same |].
    destruct (prepareParticles_standing
                (SlotState.with_config existing config))
      as (H1 & H2 & H3 & H4 & H5 & H6 & H7).
    rewrite H1, H2, H3, H4, H5, H6, H7. simpl. tauto.
  - intros id Hne. now apply slots_get_set_other.
  - eexists. split; [apply slots_get_set_same |]. simpl. tauto.
  - intros id Hne. now apply slots_get_set_other.
Qed.

(** X6 ([registerSlot]).  Registering the same configuration twice in a
    row is the same as registering it once. *)
Theorem registerSlot_twice_is_once (e : Engine.t) (config : SlotConfig.t) :
  registerSlot (registerSlot e config) config = registerSlot e config.
Proof.
  destruct (slots_get (Engine.slots e) (SlotConfig.id config))
    as [existing |] eqn:Hget.
  - assert (Hr :
      registerSlot e config
      = Engine.with_slots e
          (slots_set (Engine.slots e) (SlotConfig.id config)
             (prepareParticles (SlotState.with_config existing config))))
      by (unfold registerSlot; now rewrite Hget).
    rewrite Hr. unfold registerSlot. cbn [Engine.slots Engine.with_slots].
    rewrite slots_get_set_same.
    destruct (prepareParticles_standing
                (SlotState.with_config existing config)) as (H1 & _).
    assert (Hc :
      SlotState.with_config
        (prepareParticles (SlotState.with_config existing config)) config
      = prepareParticles (SlotState.with_config existing config)).
    { destruct (prepareParticles (SlotState.with_config existing config)).
      simpl in H1. now subst. }
    rewrite Hc, prepareParticles_idem, slots_set_idem. reflexivity.
  - assert (Hr :
      registerSlot e config
      = Engine.with_slots e
          (slots_set (Engine.slots e) (SlotConfig.id config)
             (SlotState.mk config false
                (HTMLImageElement.mk false (fun _ _ => None))
                Pending [] hidden None 0)))
      by (unfold registerSlot; now rewrite Hget).
    rewrite Hr. unfold registerSlot. cbn [Engine.slots Engine.with_slots].
    rewrite slots_get_set_same.
    unfold prepareParticles. cbn. rewrite orb_true_r.
    now rewrite slots_set_idem.
Qed.

(** X7 ([registerSlot], [destroy], [getSlot], [assemble], [disassemble],
    [updateSlotRect], [setSlotVisible]).  In every state a history
    reaches, a slot is registered exactly when [registerSlot] has been
    called for its identifier since the engine was constructed or last
    destroyed.  For an identifier that is not, [assemble] and
    [disassemble] throw "slot is not registered", and [updateSlotRect] and
    [setSlotVisible] return at once; none of them changes the engine. *)
Theorem slot_is_registered_by_registerSlot_only (random : nat -> float)
  (cs : list Call) (id : SlotId) :
  let e := history (constructed random) cs in
  (slots_get (Engine.slots e) id <> None
   <-> registeredAfter false cs id = true)
  /\ (registeredAfter false cs id = false ->
      (forall opts now,
         assemble e id opts now = (Threw (SlotNotRegistered id), e))
      /\ (forall opts now,
            disassemble e id opts now = (Threw (SlotNotRegistered id), e))
      /\ (forall rect, updateSlotRect e id rect = e)
      /\ (forall visible, setSlotVisible e id visible = e)).
Proof.
  intros e.
  pose proof (history_registeredAfter cs (constructed random) id) as H.
  fold e in H. cbn [constructed Engine.slots slots_get] in H.
  split; [exact H |].
  intros Hno.
  assert (Hget : slots_get (Engine.slots e) id = None).
  { destruct (slots_get (Engine.slots e) id) eqn:E; [| reflexivity].
    assert (Ht : registeredAfter false cs id = true)
      by (apply H; discriminate).
    congruence. }
  unfold assemble, disassemble, requestTransition, updateSlotRect,
    setSlotVisible. rewrite Hget. repeat split.
Qed.

(** X8 ([updateSlotRect]).  [updateSlotRect] stores the new rect and may
    replace or snap the particles; it changes nothing else: the slot keeps
    its visibility, status, alpha, image and transition record (also when
    the new rect has no area), the other slots are as before, and no
    promise is resolved. *)
Theorem updateSlotRect_keeps_the_transition (e : Engine.t) (id : SlotId)
  (slot : SlotState.t) (rect : SlotRect.t) :
  slots_get (Engine.slots e) id = Some slot ->
  (exists slot',
     slots_get (Engine.slots (updateSlotRect e id rect)) id = Some slot'
     /\ SlotState.config slot'
        = SlotConfig.with_rect (SlotState.config slot) rect
     /\ SlotState.visible slot' = SlotState.visible slot
     /\ SlotState.image slot' = SlotState.image slot
     /\ SlotState.imageReady slot' = SlotState.imageReady slot
     /\ SlotState.status slot' = SlotState.status slot
     /\ SlotState.transition slot' = SlotState.transition slot
     /\ SlotState.alpha slot' = SlotState.alpha slot)
  /\ (forall id',
        id' <> id ->
        slots_get (Engine.slots (updateSlotRect e id rect)) id'
        = slots_get (Engine.slots e) id')
  /\ Engine.resolved (updateSlotRect e id rect) = Engine.resolved e
  /\ Engine.busy (updateSlotRect e id rect) = Engine.busy e
  /\ Engine.busyCalls (updateSlotRect e id rect) = Engine.busyCalls e
  /\ Engine.interactionEnabled (updateSlotRect e id rect)
     = Engine.interactionEnabled e.
Proof.
  intros Hget. unfold updateSlotRect. rewrite Hget.
  cbn [Engine.slots Engine.with_slots Engine.resolved Engine.busy
       Engine.busyCalls Engine.interactionEnabled].
  split; [| split; [| repeat split]].
  - eexists. split; [apply slots_get_set_same |].
    apply updateSlotRect_slot_standing.
  - intros id' Hne. now apply slots_get_set_other.
Qed.

Lemma updateSlotRect_keeps_the_transition_witness :
  exists slot',
    slots_get
      (Engine.slots (updateSlotRect Scenes.assembling hero Fixtures.noRect))
      hero
    = Some slot'
    /\ SlotState.status slot' = st_assembling
    /\ SlotState.transition slot'
       = Some (TransitionState.mk assembling 1000 500 0%nat top).
Proof.
  destruct (slots_get (Engine.slots Scenes.assembling) hero)
    as [slot |] eqn:Hget; [| vm_compute in Hget; discriminate Hget].
  destruct (updateSlotRect_keeps_the_transition Scenes.assembling hero slot
              Fixtures.noRect Hget)
    as [[slot' (H1 & _ & _ & _ & _ & H5 & H6 & _)] _].
  exists slot'. split; [exact H1 |]. split.
  - rewrite H5.
    apply (f_equal (option_map SlotState.status)) in Hget.
    vm_compute in Hget. now injection Hget.
  - rewrite H6.
    apply (f_equal (option_map SlotState.transition)) in Hget.
    vm_compute in Hget. now injection Hget.
Defined.

(** ** Invariants of every history

    A history starts from the engine as its constructor leaves it and
    consists of calls of the public methods, image loads, frames and
    pointer events, in any order and with any arguments. *)

(** X9 (the writes to [status], [transition], [visible] and [alpha] in
    [registerSlot], [setSlotVisible], [runTransition] and
    [updateTransition]).  In every state a history reaches, each slot is
    stored under the identifier of its configuration, and its status agrees
    with its transition record: with a record in flight the status is the
    record's ([assembling] or [disassembling]) and the slot is visible;
    without one the slot is [hidden] with alpha exactly 0, or [assembled],
    visible and with alpha exactly 1. *)
Theorem status_agrees_with_transition (random : nat -> float)
  (cs : list Call) (id : SlotId) (slot : SlotState.t) :
  slots_get (Engine.slots (history (constructed random) cs)) id = Some slot ->
  SlotConfig.id (SlotState.config slot) = id
  /\ match SlotState.transition slot with
     | Some t =>
         SlotState.status slot = status_of (TransitionState.status t)
         /\ SlotState.visible slot = true
     | None =>
         (SlotState.status slot = hidden /\ SlotState.alpha slot = 0%float)
         \/ (SlotState.status slot = assembled
             /\ SlotState.alpha slot = 1%float
             /\ SlotState.visible slot = true)
     end.
Proof.
  intros Hget.
  destruct (sound_history cs _ (sound_constructed random))
    as ((_ & Hk) & Hc & _).
  split.
  - exact (Forall_slots_get _ Hk Hget).
  - exact (Forall_slots_get _ Hc Hget).
Qed.

Lemma status_agrees_with_transition_witness :
  exists slot,
    slots_get (Engine.slots Scenes.assembling) hero = Some slot
    /\ SlotState.status slot = st_assembling
    /\ SlotState.visible slot = true.
Proof.
  unfold Scenes.assembling.
  destruct (slots_get _ hero)
    as [slot |] eqn:Hget; [| vm_compute in Hget; discriminate Hget].
  destruct (status_agrees_with_transition Fixtures.randomValues
              Scenes.assembleCalls hero slot Hget) as [_ H].
  assert (Ht : SlotState.transition slot
               = Some (TransitionState.mk assembling 1000 500 0%nat top)).
  { apply (f_equal (option_map SlotState.transition)) in Hget.
    vm_compute in Hget. now injection Hget. }
  rewrite Ht in H. exists slot. split; [reflexivity | exact H].
Defined.

(** X10 ([runTransition], [updateTransition], [setSlotVisible],
    [destroy]).  In every state a history reaches, no promise has been
    resolved twice, no promise is held by two transition records, a promise
    held by a transition record has not been resolved yet, and all of them
    were created before the next promise to be created. *)
Theorem every_promise_is_resolved_at_most_once (random : nat -> float)
  (cs : list Call) :
  let e := history (constructed random) cs in
  NoDup (Engine.resolved e)
  /\ NoDup (heldPromises (Engine.slots e))
  /\ (forall p,
        In p (heldPromises (Engine.slots e)) -> ~ In p (Engine.resolved e))
  /\ (forall p,
        In p (Engine.resolved e) \/ In p (heldPromises (Engine.slots e)) ->
        (p < Engine.nextPromise e)%nat).
Proof.
  intros e.
  destruct (sound_history cs _ (sound_constructed random))
    as (_ & _ & Hp1 & Hp2).
  fold e in Hp1, Hp2. repeat split.
  - now apply NoDup_app_remove_r in Hp1.
  - now apply NoDup_app_remove_l in Hp1.
  - intros p Hh Hr. exact (NoDup_app_disjoint _ _ _ Hp1 p Hr Hh).
  - intros p Hin. rewrite Forall_forall in Hp2. apply Hp2.
    apply in_app_iff. exact Hin.
Qed.

(** X11 ([setSlotVisible], lines 254-258).  In any state a history
    reaches, hiding a slot while its transition is in flight discards the
    transition record without resolving its promise, and nothing that
    happens to the engine afterwards resolves that promise: the caller
    awaiting [assemble] or [disassemble] is never resumed. *)
Theorem hiding_a_slot_abandons_its_promise (random : nat -> float)
  (before : list Call) (id : SlotId) (slot : SlotState.t)
  (t : TransitionState.t) :
  let e := history (constructed random) before in
  slots_get (Engine.slots e) id = Some slot ->
  SlotState.transition slot = Some t ->
  ~ In (TransitionState.resolve t) (Engine.resolved e)
  /\ forall after,
       ~ In (TransitionState.resolve t)
            (Engine.resolved (history (setSlotVisible e id false) after)).
Proof.
  intros e Hget Ht.
  assert (Hheld : heldPromise slot = [TransitionState.resolve t])
    by (unfold heldPromise; now rewrite Ht).
  destruct (sound_history before _ (sound_constructed random))
    as (_ & _ & Hp1 & Hp2).
  fold e in Hp1, Hp2.
  destruct (heldPromises_split _ _ _ Hget) as (l1 & l2 & H1 & H2).
  rewrite H1, Hheld in Hp1, Hp2.
  assert (Hlost : lost (TransitionState.resolve t) (setSlotVisible e id false)).
  { unfold lost, setSlotVisible. rewrite Hget.
    cbn [Engine.slots Engine.with_slots Engine.resolved Engine.nextPromise].
    rewrite H2. change (heldPromise _) with (@nil PromiseId). cbn [app].
    split; [| split].
    - rewrite Forall_forall in Hp2. apply Hp2.
      rewrite !in_app_iff. simpl. tauto.
    - intros Hin.
      apply (NoDup_app_disjoint _ _ _ Hp1 _ Hin).
      rewrite !in_app_iff. simpl. tauto.
    - apply NoDup_app_remove_l in Hp1.
      apply NoDup_remove_2 in Hp1. exact Hp1. }
  split.
  - intros Hin. apply (NoDup_app_disjoint _ _ _ Hp1 _ Hin).
    rewrite !in_app_iff. simpl. tauto.
  - intros after. exact (proj1 (proj2 (lost_history _ after _ Hlost))).
Qed.

Lemma hiding_a_slot_abandons_its_promise_witness :
  ~ In 0%nat (Engine.resolved Scenes.assembling)
  /\ forall after,
       ~ In 0%nat
            (Engine.resolved
               (history (setSlotVisible Scenes.assembling hero false) after)).
Proof.
  unfold Scenes.assembling.
  destruct (slots_get
              (Engine.slots
                 (history (constructed Fixtures.randomValues)
                    Scenes.assembleCalls)) hero)
    as [slot |] eqn:Hget; [| vm_compute in Hget; discriminate Hget].
  assert (Ht : SlotState.transition slot
               = Some (TransitionState.mk assembling 1000 500 0%nat top)).
  { apply (f_equal (option_map SlotState.transition)) in Hget.
    vm_compute in Hget. now injection Hget. }
  exact (hiding_a_slot_abandons_its_promise Fixtures.randomValues
           Scenes.assembleCalls hero slot _ Hget Ht).
Defined.

(** X12 ([destroy], and [assemble] and [disassemble] suspended at
    [await slot.imageReady]).  In any state reached by calls, suspended
    calls and their resumptions, image loads, frames and pointer events,
    [destroy] clears the registry without resolving the promise of a
    transition in flight.  If no call of [assemble] or [disassemble] is
    suspended on that slot at that moment, nothing that happens afterwards
    resolves the promise.  If one is, it still holds the slot object: when
    it resumes after [destroy], with the image ready and a measurable
    rect, [runTransition] resolves the promise.  Right after [destroy],
    [assemble] and [disassemble] throw "not registered" for every
    identifier. *)
Theorem destroy_abandons_pending_promises (random : nat -> float)
  (before : list Action) (id : SlotId) (slot : SlotState.t)
  (t : TransitionState.t) :
  let w := course (launched random) before in
  let destroyed := act w (Does CallDestroy) in
  slots_get (Engine.slots (Runtime.engine w)) id = Some slot ->
  SlotState.transition slot = Some t ->
  ~ In (TransitionState.resolve t) (Engine.resolved (Runtime.engine w))
  /\ Engine.resolved (Runtime.engine destroyed)
     = Engine.resolved (Runtime.engine w)
  /\ Engine.slots (Runtime.engine destroyed) = []
  /\ (callsOn id (Runtime.pending w) = [] ->
      forall after,
        ~ In (TransitionState.resolve t)
             (Engine.resolved (Runtime.engine (course destroyed after))))
  /\ (exists n,
        forall k c now,
          nth_error (callsOn id (Runtime.pending w)) k = Some c ->
          SlotState.imageReady slot = Fulfilled ->
          measurable (SlotConfig.rect (SlotState.config slot)) ->
          Engine.resolved
            (Runtime.engine (act destroyed (ResumesDetached n k now)))
          = Engine.resolved (Runtime.engine w) ++ [TransitionState.resolve t])
  /\ (forall status id' opts,
        suspendCall status destroyed id' opts
        = (Threw (SlotNotRegistered id'), destroyed)).
Proof.
  intros w destroyed Hget Ht.
  assert (Hheld : heldPromise slot = [TransitionState.resolve t])
    by (unfold heldPromise; now rewrite Ht).
  pose proof (accounted_course before _ (accounted_launched random)) as Ha.
  fold w in Ha.
  assert (Hnot : ~ In (TransitionState.resolve t)
                      (Engine.resolved (Runtime.engine w))).
  { destruct Ha as (_ & _ & Hp1 & _).
    cbn [framed Engine.slots Engine.resolved Engine.with_resolved] in Hp1.
    intros Hin.
    apply (NoDup_app_disjoint _ _ _ Hp1 (TransitionState.resolve t)).
    - apply in_app_iff. now right.
    - apply (heldPromises_get_In _ id slot _ Hget). rewrite Hheld. now left. }
  split; [exact Hnot |]. split; [reflexivity |]. split; [reflexivity |].
  split; [| split].
  - intros Hcalls after.
    assert (Hab : abandoned (TransitionState.resolve t) destroyed).
    { apply (abandoned_by_destroy w id slot); try assumption.
      rewrite Hheld. now left. }
    exact (proj1 (proj2 (proj1 (abandoned_course _ after _ Hab)))).
  - destruct (detachSlots_nth w id slot Hget) as (n & Hn).
    exists n. intros k c now Hk Hready Hm.
    change (act destroyed (ResumesDetached n k now))
      with (snd (resumeDetachedCall (detachSlots w) n k now)).
    rewrite (resumed_after_destroy _ n _ k c now Hn Hk Hready Hm).
    cbn [DetachedSlot.slot]. now rewrite Hheld.
  - intros status id' opts. reflexivity.
Qed.

Lemma destroy_abandons_pending_promises_witness :
  let w := course (launched Fixtures.randomValues) Scenes.disassembleSuspended in
  ~ In 0%nat (Engine.resolved (Runtime.engine w))
  /\ Engine.slots (Runtime.engine (act w (Does CallDestroy))) = []
  /\ exists n,
       forall now,
         Engine.resolved
           (Runtime.engine
              (act (act w (Does CallDestroy)) (ResumesDetached n 0 now)))
         = Engine.resolved (Runtime.engine w) ++ [0%nat].
Proof.
  cbv zeta.
  destruct (slots_get
              (Engine.slots
                 (Runtime.engine
                    (course (launched Fixtures.randomValues)
                       Scenes.disassembleSuspended))) hero)
    as [slot |] eqn:Hget; [| vm_compute in Hget; discriminate Hget].
  assert (Ht : SlotState.transition slot
               = Some (TransitionState.mk assembling 1000 500 0%nat top)).
  { pose proof (f_equal (option_map SlotState.transition) Hget) as H.
    vm_compute in H. now injection H. }
  assert (Hready : SlotState.imageReady slot = Fulfilled).
  { pose proof (f_equal (option_map SlotState.imageReady) Hget) as H.
    vm_compute in H. now injection H. }
  assert (Hrect : SlotConfig.rect (SlotState.config slot) = Fixtures.heroRect).
  { pose proof (f_equal
                  (option_map (fun s => SlotConfig.rect (SlotState.config s)))
                  Hget) as H.
    vm_compute in H. now injection H. }
  destruct (destroy_abandons_pending_promises Fixtures.randomValues
              Scenes.disassembleSuspended hero slot _ Hget Ht)
    as (H1 & _ & H3 & _ & (n & H5) & _).
  split; [exact H1 |]. split; [exact H3 |].
  exists n. intros now.
  apply (H5 0%nat (PendingCall.mk disassembling Options.empty) now).
  - vm_compute. reflexivity.
  - exact Hready.
  - rewrite Hrect. split; reflexivity.
Defined.

(** The scenario of [disassemble("hero"); destroy()] in one go, while the
    hero slot is assembling: [destroy] resolves nothing and empties the
    registry; the call of [disassemble], which held the slot, then resumes
    on it: it resolves the promise of [assemble], installs a transition
    with a new promise on the detached slot, where no frame will ever
    find it, and clears the busy flag, since the registry is empty. *)
Example call_suspended_across_destroy_resolves_the_promise :
  let w := course (launched Fixtures.randomValues) Scenes.disassembleSuspended in
  let destroyed := act w (Does CallDestroy) in
  let resumed := act destroyed (ResumesDetached 0 0 2000) in
  (Engine.resolved (Runtime.engine w), Engine.busy (Runtime.engine w)) = ([], true)
  /\ Engine.resolved (Runtime.engine destroyed) = []
  /\ Engine.resolved (Runtime.engine resumed) = [0%nat]
  /\ Engine.busy (Runtime.engine resumed) = false
  /\ map (fun d =>
            (SlotState.status (DetachedSlot.slot d),
             option_map TransitionState.resolve
               (SlotState.transition (DetachedSlot.slot d)),
             DetachedSlot.calls d))
         (Runtime.detached resumed)
     = [(st_disassembling, Some 1%nat, [])].
Proof.
  cbv zeta.
  split; [vm_compute; reflexivity |].
  split; [vm_compute; reflexivity |].
  split; [vm_compute; reflexivity |].
  split; [vm_compute; reflexivity |].
  vm_compute. reflexivity.
Qed.

(** X13 ([updateBusyState], [render] lines 486-489).  In every state a
    history reaches, [onBusyChange] has been called only when the busy flag
    changed: the values it was called with alternate, the first being
    [true], and the last value it was called with is the busy flag. *)
Theorem busy_changes_are_reported_once (random : nat -> float)
  (cs : list Call) :
  let e := history (constructed random) cs in
  flips false (Engine.busyCalls e)
  /\ last (Engine.busyCalls e) false = Engine.busy e.
Proof.
  intros e. apply (busyLogged_history cs (constructed random)).
  split; reflexivity.
Qed.

(** ** Frames and pointer events *)

(** X14 ([render], [updateTransition], [updateImageParticles]).  A frame
    neither adds nor removes a slot or a particle and changes of a particle
    only position and velocity: every slot keeps its configuration, its
    image, and the target, colour, alpha weight and size of each of its
    particles, in order. *)
Theorem frame_moves_particles_only (e : Engine.t) (timestamp : float)
  (id : SlotId) :
  match slots_get (Engine.slots e) id with
  | None => slots_get (Engine.slots (render e timestamp)) id = None
  | Some slot =>
      exists slot',
        slots_get (Engine.slots (render e timestamp)) id = Some slot'
        /\ SlotState.config slot' = SlotState.config slot
        /\ SlotState.image slot' = SlotState.image slot
        /\ SlotState.imageReady slot' = SlotState.imageReady slot
        /\ map identity (SlotState.particles slot')
           = map identity (SlotState.particles slot)
  end.
Proof.
  destruct (Engine.context e) eqn:Hctx.
  - destruct (@render_effects e timestamp Hctx) as (H1 & _).
    rewrite H1, renderSlots_get.
    destruct (slots_get (Engine.slots e) id) as [slot |]; [| reflexivity].
    eexists. split; [reflexivity |].
    destruct (renderSlot_keeps (Engine.mouse e) (Engine.interactionEnabled e)
                timestamp (frameDelta e timestamp) slot)
      as (K1 & K2 & K3 & K4 & _).
    tauto.
  - unfold render. rewrite Hctx. cbn [negb].
    destruct (slots_get (Engine.slots e) id) as [slot |]; [| reflexivity].
    exists slot. tauto.
Qed.

(** X15 ([render], [updateImageParticles], the pointer handlers).  Frames
    and pointer events alone never change the standing of a slot that has
    no transition in flight: over any run of them it keeps its status,
    alpha, visibility, configuration and image, and stays without a
    transition. *)
Theorem idle_slot_keeps_its_standing (e : Engine.t) (evs : list Event)
  (id : SlotId) (slot : SlotState.t) :
  slots_get (Engine.slots e) id = Some slot ->
  SlotState.transition slot = None ->
  exists slot',
    slots_get (Engine.slots (run e evs)) id = Some slot'
    /\ SlotState.transition slot' = None
    /\ SlotState.status slot' = SlotState.status slot
    /\ SlotState.alpha slot' = SlotState.alpha slot
    /\ SlotState.visible slot' = SlotState.visible slot
    /\ SlotState.config slot' = SlotState.config slot
    /\ SlotState.image slot' = SlotState.image slot
    /\ map identity (SlotState.particles slot')
       = map identity (SlotState.particles slot).
Proof.
  revert e slot. induction evs as [| ev evs IH]; intros e slot Hget Ht.
  - exists slot. tauto.
  - destruct (step_slot e ev id slot Hget)
      as (mouse & ie & ts & delta & [H | H]).
    + apply (IH (step e ev) slot H Ht).
    + destruct (renderSlot_keeps mouse ie ts delta slot)
        as (K1 & K2 & K3 & K4 & K5).
      destruct (K5 Ht) as (T1 & T2 & T3 & T4).
      destruct (IH (step e ev) _ H T1)
        as (slot' & R1 & R2 & R3 & R4 & R5 & R6 & R7 & R8).
      exists slot'. split; [exact R1 |].
      rewrite R3, R4, R5, R6, R7, R8. tauto.
Qed.

Lemma idle_slot_keeps_its_standing_witness :
  exists slot',
    slots_get
      (Engine.slots
         (run Fixtures.engineAssembled
            [PointerMove 99 50; PointerDown; Frame 2000; Frame 2016.67]))
      hero
    = Some slot'
    /\ SlotState.status slot' = assembled
    /\ SlotState.alpha slot' = 1%float.
Proof.
  destruct (idle_slot_keeps_its_standing Fixtures.engineAssembled
              [PointerMove 99 50; PointerDown; Frame 2000; Frame 2016.67]
              hero Fixtures.heroAssembled eq_refl eq_refl)
    as (slot' & H1 & _ & H3 & H4 & _).
  exists slot'. split; [exact H1 |]. split; [exact H3 | exact H4].
Defined.

(** X16 ([updateImageParticles] line 559, [updateAmbientParticles] line
    596).  While the pointer is not over the page ([mouse.active] false, as
    after a [blur] or [pointerleave]) it exerts no force: a frame does the
    same to the slots, the ambient particles, the promises and the busy
    flag whatever the pointer's recorded position, velocity and button
    state. *)
Theorem inactive_pointer_exerts_no_force (e : Engine.t)
  (m1 m2 : MouseState.t) (timestamp : float) :
  MouseState.active m1 = false -> MouseState.active m2 = false ->
  let frame1 := render (Engine.with_mouse e m1) timestamp in
  let frame2 := render (Engine.with_mouse e m2) timestamp in
  Engine.slots frame1 = Engine.slots frame2
  /\ Engine.ambientParticles frame1 = Engine.ambientParticles frame2
  /\ Engine.resolved frame1 = Engine.resolved frame2
  /\ Engine.busy frame1 = Engine.busy frame2
  /\ Engine.busyCalls frame1 = Engine.busyCalls frame2.
Proof.
  intros Hm1 Hm2. cbv zeta.
  destruct (Engine.context e) eqn:Hctx.
  - destruct (@render_effects (Engine.with_mouse e m1) timestamp Hctx)
      as (Hs1 & Hr1 & Hb1 & Hc1 & _).
    destruct (@render_effects (Engine.with_mouse e m2) timestamp Hctx)
      as (Hs2 & Hr2 & Hb2 & Hc2 & _).
    rewrite Hs1, Hs2, Hr1, Hr2, Hb1, Hb2, Hc1, Hc2.
    rewrite !render_ambientParticles by exact Hctx.
    rewrite !frameDelta_with_mouse.
    change (Engine.interactionEnabled (Engine.with_mouse e m1))
      with (Engine.interactionEnabled e).
    change (Engine.interactionEnabled (Engine.with_mouse e m2))
      with (Engine.interactionEnabled e).
    change (Engine.mouse (Engine.with_mouse e m1)) with m1.
    change (Engine.mouse (Engine.with_mouse e m2)) with m2.
    change (Engine.slots (Engine.with_mouse e m1)) with (Engine.slots e).
    change (Engine.slots (Engine.with_mouse e m2)) with (Engine.slots e).
    rewrite (renderSlots_inactive m1 m2 _ _ _ _ Hm1 Hm2).
    cbn [Engine.width Engine.height Engine.ambientParticles Engine.with_mouse].
    rewrite (map_ext _ _
               (fun p => updateAmbientParticle_inactive m1 m2 (Engine.width e)
                           (Engine.height e) (frameDelta e timestamp) p
                           Hm1 Hm2)).
    repeat split; reflexivity.
  - unfold render.
    change (Engine.context (Engine.with_mouse e m1)) with (Engine.context e).
    change (Engine.context (Engine.with_mouse e m2)) with (Engine.context e).
    rewrite Hctx. repeat split; reflexivity.
Qed.

Lemma inactive_pointer_exerts_no_force_witness :
  let away := Engine.mouse (handlePointerLeave
                              (Engine.with_mouse Fixtures.engineLocked
                                 Fixtures.mouseNear)) in
  Engine.ambientParticles
    (render (Engine.with_mouse Fixtures.engineLocked away) 1016.67)
  = Engine.ambientParticles
      (render (Engine.with_mouse Fixtures.engineLocked Fixtures.mouseIdle)
         1016.67).
Proof.
  exact (proj1 (proj2
    (inactive_pointer_exerts_no_force Fixtures.engineLocked
       (Engine.mouse (handlePointerLeave
                        (Engine.with_mouse Fixtures.engineLocked
                           Fixtures.mouseNear)))
       Fixtures.mouseIdle 1016.67 eq_refl eq_refl))).
Defined.

(** X17 ([runTransition], lines 330-342, and [getOffscreenY]).  A
    transition that starts reseeds the slot's particles in place: their
    number, colours, alpha weights and sizes are kept; [assemble] keeps
    every target, [disassemble] keeps every position; and the call draws
    one random value for the start line and four for each particle. *)
Theorem transition_reseeds_in_place (status : TransitionStatus)
  (e : Engine.t) (id : SlotId) (slot : SlotState.t) (opts : Options.t)
  (now : float) :
  slots_get (Engine.slots e) id = Some slot ->
  SlotState.imageReady slot = Fulfilled ->
  measurable (SlotConfig.rect (SlotState.config slot)) ->
  exists slot',
    slots_get (Engine.slots (snd (request status e id opts now))) id
    = Some slot'
    /\ List.length (SlotState.particles slot')
       = List.length (SlotState.particles slot)
    /\ map (fun p => (Particle.color p, Particle.alpha p, Particle.size p))
           (SlotState.particles slot')
       = map (fun p => (Particle.color p, Particle.alpha p, Particle.size p))
             (SlotState.particles slot)
    /\ match status with
       | assembling =>
           map (fun p => (Particle.tx p, Particle.ty p))
               (SlotState.particles slot')
           = map (fun p => (Particle.tx p, Particle.ty p))
                 (SlotState.particles slot)
       | disassembling =>
           map (fun p => (Particle.x p, Particle.y p))
               (SlotState.particles slot')
           = map (fun p => (Particle.x p, Particle.y p))
                 (SlotState.particles slot)
       end
    /\ Engine.randomCursor (snd (request status e id opts now))
       = (Engine.randomCursor e + 1
          + 4 * List.length (SlotState.particles slot))%nat.
Proof.
  intros Hget Hready Hm. rewrite request_eq. unfold requestTransition.
  rewrite Hget, Hready.
  set (direction := orElse (Options.direction opts)
                      (SlotConfig.direction (SlotState.config slot))).
  set (durationMs := orElse (Options.durationMs opts) DEFAULT_DURATION_MS).
  destruct (@runTransition_started e id slot status direction durationMs now Hm)
    as (_ & H2 & _).
  destruct Hm as [Hw Hh].
  assert (Hg :
    JS.le (SlotRect.w (SlotConfig.rect (SlotState.config slot))) 0
    || JS.le (SlotRect.h (SlotConfig.rect (SlotState.config slot))) 0 = false)
    by now rewrite Hw, Hh.
  eexists. split; [exact H2 |].
  rewrite (runTransition_cursor e id slot status direction durationMs now Hg).
  unfold reseedSlot. cbn [SlotState.particles].
  split; [apply seedParticles_length |].
  split; [apply seedParticles_map; intros k p; now destruct status |].
  split; [| lia].
  destruct status; apply seedParticles_map; reflexivity.
Qed.

Lemma transition_reseeds_in_place_witness :
  exists slot',
    slots_get
      (Engine.slots
         (snd (request disassembling Fixtures.engineAssembled hero
                 Options.empty 5000)))
      hero
    = Some slot'
    /\ map (fun p => (Particle.x p, Particle.y p)) (SlotState.particles slot')
       = [(101, 51)%float]
    /\ Engine.randomCursor
         (snd (request disassembling Fixtures.engineAssembled hero
                 Options.empty 5000))
       = 5%nat.
Proof.
  destruct (transition_reseeds_in_place disassembling Fixtures.engineAssembled
              hero Fixtures.heroAssembled Options.empty 5000
              eq_refl eq_refl (conj eq_refl eq_refl))
    as (slot' & H1 & _ & _ & H4 & H5).
  exists slot'. split; [exact H1 |]. split; [exact H4 | exact H5].
Defined.

(** X18 ([render], lines 491-493, after [setInteractionEnabled]).  A frame
    that counts no transition enables interaction and sets the canvas to
    [pointer-events: none], whatever [setInteractionEnabled] was called
    with before; a frame that counts one leaves the setting as it is.  So
    after every frame interaction is enabled unless the engine is busy and
    it was disabled before. *)
Theorem idle_frame_enables_interaction (e : Engine.t) (timestamp : float) :
  Engine.context e = true ->
  Engine.interactionEnabled (render e timestamp)
  = Engine.interactionEnabled e || negb (Engine.busy (render e timestamp))
  /\ Engine.canvas (render e timestamp)
     = (if Engine.busy (render e timestamp) then Engine.canvas e
        else match Engine.canvas e with
             | Some _ => Some pe_none
             | None => None
             end).
Proof.
  intros Hctx.
  destruct (@render_effects e timestamp Hctx) as (_ & _ & Hb & _ & Hi & _).
  rewrite Hi, Hb. split.
  - destruct (existsb _ _); [now rewrite orb_false_r | now rewrite orb_true_r].
  - clear Hi Hb.
    pose proof (renderSlots_hasTransition (Engine.mouse e)
                  (Engine.interactionEnabled e) timestamp
                  (frameDelta e timestamp) (Engine.slots e)) as Hh.
    unfold render. rewrite Hctx. cbn [negb].
    destruct (renderSlots _ _ _ _ _) as [[slots' h] rs].
    cbn [fst snd] in Hh. rewrite <- Hh.
    unfold setBusy, setInteractionEnabled.
    destruct h; destruct (Bool.eqb _ _); reflexivity.
Qed.

Lemma idle_frame_enables_interaction_witness :
  Engine.interactionEnabled Fixtures.engineLocked = false
  /\ Engine.interactionEnabled (render Fixtures.engineLocked 1016.67) = true
  /\ Engine.canvas (render Fixtures.engineLocked 1016.67) = Some pe_none.
Proof.
  destruct (idle_frame_enables_interaction Fixtures.engineLocked 1016.67
              eq_refl) as [H1 H2].
  split; [reflexivity |]. split.
  - rewrite H1. vm_compute. reflexivity.
  - rewrite H2. vm_compute. reflexivity.
Defined.

(** ** The canvas layer *)

(** X19 ([GlobalCanvasLayer]: [syncSlotRect] and the context's [assemble]
    and [disassemble]).  The layer measures the slot's anchor before it
    calls the engine.  If the anchor has a width and a height above 0, the
    transition starts on the measured rect, whatever rect the slot had
    before.  If not, the slot is hidden first, which discards a transition
    in flight without resolving its promise, and the engine's call then
    throws "no measurable rect". *)
Theorem layer_transition_follows_the_anchor (status : TransitionStatus)
  (document : GlobalCanvasLayer.Document) (engine : Engine.t) (id : SlotId)
  (slot : SlotState.t) (rect : DOMRect.t) (durationMs : option float)
  (now : float) :
  document id = Some rect ->
  slots_get (Engine.slots engine) id = Some slot ->
  SlotState.imageReady slot = Fulfilled ->
  is_nan (DOMRect.width rect) = false ->
  is_nan (DOMRect.height rect) = false ->
  let result :=
    match status with
    | assembling => GlobalCanvasLayer.assemble
    | disassembling => GlobalCanvasLayer.disassemble
    end document (Some engine) id durationMs now in
  let slotRect :=
    SlotRect.mk (DOMRect.left rect) (DOMRect.top rect) (DOMRect.width rect)
      (DOMRect.height rect) in
  exists engine' slot',
    snd result = Some engine'
    /\ slots_get (Engine.slots engine') id = Some slot'
    /\ SlotConfig.rect (SlotState.config slot') = slotRect
    /\ if JS.gt (DOMRect.width rect) 0 && JS.gt (DOMRect.height rect) 0
       then
         fst result = Some (Started (Engine.nextPromise engine))
         /\ SlotState.status slot' = status_of status
         /\ SlotState.visible slot' = true
         /\ SlotState.transition slot'
            = Some (TransitionState.mk status now
                      (orElse durationMs DEFAULT_DURATION_MS)
                      (Engine.nextPromise engine)
                      (SlotConfig.direction (SlotState.config slot)))
       else
         fst result
         = Some (Threw (NoMeasurableRect (SlotConfig.id (SlotState.config slot))))
         /\ SlotState.status slot' = hidden
         /\ SlotState.visible slot' = false
         /\ SlotState.transition slot' = None
         /\ Engine.resolved engine' = Engine.resolved engine.
Proof.
  intros Hdoc Hget Hready Hw Hh result slotRect.
  set (shown := JS.gt (DOMRect.width rect) 0 && JS.gt (DOMRect.height rect) 0).
  destruct (sync_slot engine id slot slotRect shown Hget)
    as (Hs1 & Hr1 & Hn1 & _).
  destruct (updateSlotRect_slot_standing slot slotRect)
    as (K1 & K2 & K3 & K4 & K5 & K6 & K7).
  set (e1 := setSlotVisible (updateSlotRect engine id slotRect) id shown) in *.
  assert (Hresult :
    result
    = let '(outcome, engine') :=
        requestTransition status e1 id (Options.mk None durationMs) now in
      (Some outcome, Some engine')).
  { unfold result. destruct status;
      unfold GlobalCanvasLayer.assemble, GlobalCanvasLayer.disassemble,
        GlobalCanvasLayer.transition, GlobalCanvasLayer.syncSlotRect;
      rewrite Hdoc; reflexivity. }
  rewrite Hresult. unfold requestTransition. rewrite Hs1.
  destruct shown eqn:Hshown; cbn [SlotState.imageReady SlotState.config
    Options.direction Options.durationMs orElse]; rewrite K4, Hready.
  - apply andb_true_iff in Hshown. destruct Hshown as [Gw Gh].
    match goal with |- context [runTransition e1 id ?s status ?d ?ms now] =>
      destruct (@runTransition_started e1 id s status d ms now)
        as (R1 & R2 & _);
      [ cbn [SlotState.config]; rewrite K1; split;
        apply gt_zero_not_le; assumption |];
      destruct (runTransition e1 id s status d ms now) as [outcome engine']
    end.
    cbn [fst snd] in *. exists engine'. eexists.
    split; [reflexivity |]. split; [exact R2 |].
    unfold reseedSlot. cbn [SlotState.config SlotState.status
      SlotState.visible SlotState.transition].
    rewrite K1, Hn1. cbn [SlotConfig.rect SlotConfig.with_rect
      SlotConfig.direction].
    repeat split. now rewrite R1, Hn1.
  - match goal with |- context [runTransition e1 id ?s status ?d ?ms now] =>
      rewrite (@runTransition_unmeasurable e1 id s status d ms now)
    end.
    + cbn [fst snd SlotState.config]. exists e1. eexists.
      split; [reflexivity |]. split; [exact Hs1 |].
      cbn [SlotState.config SlotState.status SlotState.visible
           SlotState.transition].
      rewrite K1. cbn [SlotConfig.rect SlotConfig.with_rect SlotConfig.id].
      repeat split. exact Hr1.
    + cbn [SlotState.config]. rewrite K1. intros [Mw Mh].
      cbn [SlotConfig.rect SlotConfig.with_rect SlotRect.w SlotRect.h slotRect]
        in Mw, Mh.
      apply andb_false_iff in Hshown. destruct Hshown as [G | G].
      * rewrite (not_gt_zero _ Hw G) in Mw. discriminate.
      * rewrite (not_gt_zero _ Hh G) in Mh. discriminate.
Qed.

Lemma layer_transition_follows_the_anchor_witness :
  (exists engine' slot',
     snd (GlobalCanvasLayer.assemble Scenes.heroCollapsed
            (Some Scenes.assembling) hero None 1100)
     = Some engine'
     /\ slots_get (Engine.slots engine') hero = Some slot'
     /\ SlotState.transition slot' = None
     /\ Engine.resolved engine' = [])
  /\ fst (GlobalCanvasLayer.assemble Scenes.heroCollapsed
            (Some Scenes.assembling) hero None 1100)
     = Some (Threw (NoMeasurableRect hero)).
Proof.
  unfold Scenes.assembling.
  destruct (slots_get
              (Engine.slots
                 (history (constructed Fixtures.randomValues)
                    Scenes.assembleCalls)) hero)
    as [slot |] eqn:Hget; [| vm_compute in Hget; discriminate Hget].
  assert (Hready : SlotState.imageReady slot = Fulfilled).
  { apply (f_equal (option_map SlotState.imageReady)) in Hget.
    vm_compute in Hget. now injection Hget. }
  assert (Hid : SlotConfig.id (SlotState.config slot) = hero).
  { apply (f_equal (option_map
                      (fun s => SlotConfig.id (SlotState.config s)))) in Hget.
    vm_compute in Hget. now injection Hget. }
  destruct (layer_transition_follows_the_anchor assembling
              Scenes.heroCollapsed _ hero slot (DOMRect.mk 100 50 0 0)
              None 1100 eq_refl Hget Hready eq_refl eq_refl)
    as (engine' & slot' & H1 & H2 & _ & H4).
  change (JS.gt (DOMRect.width (DOMRect.mk 100 50 0 0)) 0
          && JS.gt (DOMRect.height (DOMRect.mk 100 50 0 0)) 0)
    with false in H4.
  cbv iota in H4. destruct H4 as (H5 & _ & _ & H8 & H9).
  split.
  - exists engine', slot'. split; [exact H1 |]. split; [exact H2 |].
    split; [exact H8 |]. rewrite H9. vm_compute. reflexivity.
  - rewrite H5, Hid. reflexivity.
Defined.

(** X20 ([GlobalCanvasLayer], the first effect, with
    [slot-config.ts]).  Without a 2D context the layer keeps no engine.
    With one, it registers the five slots in the order of
    [HOME_SLOT_IDS], each waiting for its image; and whatever happens to
    that engine afterwards, short of [destroy], [assemble] and
    [disassemble] never throw "slot is not registered". *)
Theorem layer_init_registers_every_slot (random : nat -> float)
  (pointerEvents : PointerEvents) (now : float) :
  GlobalCanvasLayer.init random pointerEvents false now = None
  /\ exists engine,
       GlobalCanvasLayer.init random pointerEvents true now = Some engine
       /\ map fst (Engine.slots engine) = HOME_SLOT_IDS
       /\ (forall id opts now',
             fst (assemble engine id opts now') = Suspended)
       /\ (forall cs,
             ~ In CallDestroy cs ->
             forall status id opts now',
               fst (request status (history engine cs) id opts now')
               <> Threw (SlotNotRegistered id)).
Proof.
  split; [reflexivity |].
  set (engine :=
         fold_left registerSlot HOME_MENU_SLOTS
           (registerSlot
              (engineAfter (mount (constructed random) pointerEvents true now))
              HERO_SLOT)).
  exists engine. split; [reflexivity |]. split; [reflexivity |]. split.
  - intros id opts now'. destruct id; reflexivity.
  - intros cs Hcs status id opts now'. rewrite request_eq.
    unfold requestTransition.
    assert (Hreg : slots_get (Engine.slots (history engine cs)) id <> None).
    { apply history_registered; [exact Hcs |]. destruct id; discriminate. }
    destruct (slots_get (Engine.slots (history engine cs)) id)
      as [slot |]; [| contradiction].
    destruct (SlotState.imageReady slot); try discriminate.
    unfold runTransition. destruct (_ || _); discriminate.
Qed.

(** X21 ([GlobalCanvasLayer]: [refreshAllSlotRects]).  Refreshing all slot
    rects does to each slot what [syncSlotRect] alone does to it, whatever
    the other anchors measure; it resolves no promise and does not touch
    the busy flag. *)
Theorem refreshAllSlotRects_syncs_each_slot
  (document : GlobalCanvasLayer.Document) (engine : Engine.t) (id : SlotId) :
  exists all one,
    GlobalCanvasLayer.refreshAllSlotRects document (Some engine) = Some all
    /\ snd (GlobalCanvasLayer.syncSlotRect document (Some engine) id)
       = Some one
    /\ slots_get (Engine.slots all) id = slots_get (Engine.slots one) id
    /\ Engine.resolved all = Engine.resolved engine
    /\ Engine.busy all = Engine.busy engine
    /\ Engine.busyCalls all = Engine.busyCalls engine.
Proof.
  unfold GlobalCanvasLayer.refreshAllSlotRects, HOME_SLOT_IDS.
  cbn [fold_left].
  destruct (syncSlotRect_engine document engine hero)
    as (e1 & E1 & R1 & B1 & C1 & _ & O1 & S1).
  destruct (syncSlotRect_engine document e1 menu_photo)
    as (e2 & E2 & R2 & B2 & C2 & _ & O2 & S2).
  destruct (syncSlotRect_engine document e2 menu_video)
    as (e3 & E3 & R3 & B3 & C3 & _ & O3 & S3).
  destruct (syncSlotRect_engine document e3 menu_music)
    as (e4 & E4 & R4 & B4 & C4 & _ & O4 & S4).
  destruct (syncSlotRect_engine document e4 menu_blog)
    as (e5 & E5 & R5 & B5 & C5 & _ & O5 & S5).
  rewrite E1, E2, E3, E4, E5.
  destruct (syncSlotRect_engine document engine id)
    as (one & Eone & _ & _ & _ & _ & _ & Sone).
  exists e5, one. split; [reflexivity |]. split; [exact Eone |].
  split; [| split; [congruence | split; congruence]].
  destruct id.
  - rewrite O5, O4, O3, O2 by discriminate. congruence.
  - rewrite O5, O4, O3 by discriminate.
    apply (Sone e1); [| exact E2]. apply O1. discriminate.
  - rewrite O5, O4 by discriminate.
    apply (Sone e2); [| exact E3].
    rewrite O2, O1 by discriminate. reflexivity.
  - rewrite O5 by discriminate.
    apply (Sone e3); [| exact E4].
    rewrite O3, O2, O1 by discriminate. reflexivity.
  - apply (Sone e4); [| exact E5].
    rewrite O4, O3, O2, O1 by discriminate. reflexivity.
Qed.

(** ** Sampling and rest *)

(** X22 ([prepareParticles], lines 393-417).  A sampling pass that runs
    yields at most one particle for each 2 by 2 block of the pixel buffer
    it reads: at most ceil(width / 2) * ceil(height / 2) particles. *)
Theorem sampling_yields_at_most_one_particle_per_block (slot : SlotState.t)
  (img : ImageData.t) :
  measurable (SlotConfig.rect (SlotState.config slot)) ->
  HTMLImageElement.complete (SlotState.image slot) = true ->
  HTMLImageElement.raster (SlotState.image slot)
    (sampleWidth (SlotConfig.rect (SlotState.config slot)))
    (sampleHeight (SlotConfig.rect (SlotState.config slot)))
  = Some img ->
  (List.length (SlotState.particles (prepareParticles slot))
   <= sampleBlocks img)%nat.
Proof.
  intros [Hw Hh] Hc Hr. unfold prepareParticles.
  rewrite Hw, Hh, Hc, Hr. cbn [orb negb SlotState.particles
    SlotState.with_particles].
  apply samplePoints_length.
Qed.

Lemma sampling_yields_at_most_one_particle_per_block_witness :
  (List.length (SlotState.particles (prepareParticles Fixtures.heroHidden))
   <= sampleBlocks Fixtures.image4x3)%nat
  /\ sampleBlocks Fixtures.image4x3 = 4%nat.
Proof.
  split; [| reflexivity].
  apply (sampling_yields_at_most_one_particle_per_block Fixtures.heroHidden
           Fixtures.image4x3);
    [split; reflexivity | reflexivity | reflexivity].
Defined.

(** X23 ([updateImageParticles], through [render]).  A slot without a
    transition whose particles rest on their targets does not drift: while
    the pointer is inactive or interaction is disabled, a frame whose time
    step is not NaN leaves the slot exactly as it was (targets being finite
    numbers other than zero). *)
Theorem resting_slot_does_not_drift (e : Engine.t) (timestamp : float)
  (id : SlotId) (slot : SlotState.t) :
  Engine.context e = true ->
  slots_get (Engine.slots e) id = Some slot ->
  SlotState.transition slot = None ->
  Forall settledOnTarget (SlotState.particles slot) ->
  MouseState.active (Engine.mouse e) && Engine.interactionEnabled e = false ->
  is_nan (frameDelta e timestamp) = false ->
  slots_get (Engine.slots (render e timestamp)) id = Some slot.
Proof.
  intros Hctx Hget Ht Hps Hm Hd.
  destruct (@render_effects e timestamp Hctx) as (H1 & _).
  rewrite H1, renderSlots_get, Hget. cbn [option_map]. f_equal.
  unfold renderSlot. destruct (skipped slot); [reflexivity |].
  rewrite Ht. cbn [fst].
  assert (Hdelta : exists m ex,
            Prim2SF (frameDelta e timestamp) = S754_finite false m ex).
  { unfold frameDelta in *.
    match goal with |- context [clamp ?v 0.6 1.6] =>
      destruct (@between_bounds 0.6 1.6 v eq_refl) as [B1 B2];
      unfold clamp in *; rewrite B1 in Hd;
      destruct (B2 Hd) as [Lo Hi]
    end.
    now apply delta_positive. }
  destruct Hdelta as (m & ex & Hdelta).
  unfold updateImageParticles.
  assert (Hmap :
    map (updateImageParticle (Engine.mouse e) (Engine.interactionEnabled e)
           (frameDelta e timestamp)) (SlotState.particles slot)
    = SlotState.particles slot).
  { induction Hps as [| p ps Hp Hps IH]; [reflexivity |].
    cbn [map]. rewrite IH.
    now rewrite (updateImageParticle_rest _ _ _ p m ex Hp Hdelta Hm). }
  rewrite Hmap. now destruct slot.
Qed.

Lemma resting_slot_does_not_drift_witness :
  slots_get (Engine.slots (render Fixtures.engineAssembled 1016.67)) hero
  = Some Fixtures.heroAssembled.
Proof.
  apply (resting_slot_does_not_drift Fixtures.engineAssembled 1016.67 hero
           Fixtures.heroAssembled);
    try reflexivity.
  repeat constructor; eexists; eexists; eexists; vm_compute; reflexivity.
Defined.

(** ** The home scene controller *)

(** X24 ([HomeSceneController.expandMenu], lines 43-51 and 77-81).
    Whatever the callbacks answer and in whatever order [expandMenu] is
    called, timers fire, [Promise.all] settles and [expandMenu] resumes:
    the state is [expanding] exactly while the expansion is suspended at
    an [await].  [inFlightExpand] stays set for longer: from the call of
    [expandMenu] until that call resumes and its [finally] block runs,
    which is after the expansion has ended, so that in between the state
    is [collapsed] or [expanded] with [inFlightExpand] set.  A call of
    [expandMenu] while [inFlightExpand] is set, or in a state other than
    [collapsed], starts nothing: it measures no slot, calls no [assemble]
    and changes no state. *)
Theorem scene_is_expanding_exactly_while_suspended
  (staggerMs durationMs : option float) (measures : nat -> bool)
  (evs : list HomeScene.Event) :
  let m := HomeScene.run (HomeScene.started staggerMs durationMs measures) evs in
  (HomeScene.Controller.state (HomeScene.Machine.controller m)
   = HomeScene.expanding
   <-> exists a,
         HomeScene.Controller.inFlightExpand (HomeScene.Machine.controller m)
         = Some a
         /\ HomeScene.suspended a = true)
  /\ (forall a,
        HomeScene.Controller.inFlightExpand (HomeScene.Machine.controller m)
        = Some a ->
        HomeScene.suspended a = false ->
        HomeScene.Controller.state (HomeScene.Machine.controller m)
        <> HomeScene.expanding
        /\ (exists before rejection,
              HomeScene.Machine.effects m
              = before ++ [HomeScene.Settled rejection])
        /\ HomeScene.step m HomeScene.ExpandMenuResumes
           = HomeScene.clearInFlight m)
  /\ (HomeScene.Controller.state (HomeScene.Machine.controller m)
      <> HomeScene.collapsed
      \/ HomeScene.Controller.inFlightExpand (HomeScene.Machine.controller m)
         <> None ->
      HomeScene.step m HomeScene.ExpandMenu = m).
Proof.
  intros m.
  pose proof (HomeSceneFacts.phase_run evs _
                (HomeSceneFacts.phase_started staggerMs durationMs measures))
    as Hp.
  fold m in Hp.
  assert (Hdelay : forall index promises,
             (1 <= index <= 3)%nat ->
             HomeScene.suspended
               (HomeScene.resumeAt
                  (HomeScene.Controller.staggerMs (HomeScene.Machine.controller m))
                  (HomeScene.Controller.durationMs (HomeScene.Machine.controller m))
                  index promises) = true).
  { intros index promises Hn.
    destruct index as [| [| [| [| index]]]]; try lia; reflexivity. }
  destruct Hp as [Hs Hi He | before error Hs Hi He
                  | promises before Hs Hl Hi He
                  | index promises before Hs Hn Hl Hi He
                  | promises before Hs Hl Hi He
                  | promises before Hs Hl Hi He];
    rewrite Hs, Hi; (split; [split | split]).
  - discriminate.
  - intros (a & Ha & _). discriminate Ha.
  - intros a Ha. discriminate Ha.
  - intros [H | H]; congruence.
  - discriminate.
  - intros (a & Ha & Hsusp). injection Ha as <-. discriminate Hsusp.
  - intros a Ha _. split; [discriminate |]. split.
    + exists (before ++ [HomeScene.StateChanged HomeScene.collapsed]),
        (Some error).
      rewrite He. now rewrite <- app_assoc.
    + unfold HomeScene.step. now rewrite Hi.
  - intros _. unfold HomeScene.step, HomeScene.expandMenu.
    now rewrite Hs, Hi.
  - discriminate.
  - intros (a & Ha & Hsusp). injection Ha as <-. discriminate Hsusp.
  - intros a Ha _. split; [discriminate |]. split.
    + repeat (destruct promises as [| ? promises]; try discriminate Hl).
      eexists. exists None. rewrite He. unfold HomeScene.expansionEffects.
      cbn [HomeScene.assemblies HomeScene.MENU_SLOT_IDS Nat.ltb Nat.leb app].
      match goal with |- before ++ ?l = _ =>
        change l with (firstn 14 l ++ skipn 14 l)
      end.
      rewrite app_assoc. reflexivity.
    + unfold HomeScene.step. now rewrite Hi.
  - intros _. unfold HomeScene.step, HomeScene.expandMenu. now rewrite Hs.
  - intros _. eexists. split; [reflexivity | now apply Hdelay].
  - reflexivity.
  - intros a Ha Hsusp. injection Ha as <-.
    rewrite Hdelay in Hsusp by assumption. discriminate Hsusp.
  - intros _. unfold HomeScene.step, HomeScene.expandMenu.
    now rewrite Hs, Hi.
  - intros _. eexists. split; reflexivity.
  - reflexivity.
  - intros a Ha Hsusp. injection Ha as <-. discriminate Hsusp.
  - intros _. unfold HomeScene.step, HomeScene.expandMenu.
    now rewrite Hs, Hi.
  - discriminate.
  - intros (a & Ha & _). discriminate Ha.
  - intros a Ha. discriminate Ha.
  - intros _. unfold HomeScene.step, HomeScene.expandMenu. now rewrite Hs.
Qed.

(** The scenario of a first menu slot that cannot be measured: the call of
    [expandMenu] leaves the state [collapsed] with [inFlightExpand] set,
    holding the rejected promise.  A second call made before the first has
    resumed measures nothing; made after, it starts a new expansion and
    measures again. *)
Example unmeasurable_first_slot_leaves_inFlightExpand_set :
  let failed :=
    HomeScene.run (HomeScene.started None None (fun _ => false))
      [HomeScene.ExpandMenu] in
  HomeScene.Controller.state (HomeScene.Machine.controller failed)
  = HomeScene.collapsed
  /\ HomeScene.Controller.inFlightExpand (HomeScene.Machine.controller failed)
     = Some (HomeScene.Throw (HomeScene.NoMeasurableMenuRect menu_photo))
  /\ HomeScene.Machine.effects failed
     = [HomeScene.StateChanged HomeScene.expanding;
        HomeScene.RectRefreshed menu_photo false;
        HomeScene.StateChanged HomeScene.collapsed;
        HomeScene.Settled
          (Some (HomeScene.NoMeasurableMenuRect menu_photo))]
  /\ HomeScene.step failed HomeScene.ExpandMenu = failed
  /\ HomeScene.Machine.refreshed
       (HomeScene.run failed
          [HomeScene.ExpandMenuResumes; HomeScene.ExpandMenu])
     = 2%nat.
Proof. repeat split. Qed.

(** X25 ([HomeSceneController.expandMenu], lines 53-70).  The state is
    [expanded] only after one whole expansion: the four menu slots were
    measured with success and assembled in the order of [MENU_SLOT_IDS],
    each with the controller's duration, a timer of the stagger time
    before each but the first, and [Promise.all] of the four promises
    resolved.  Nothing has happened since, and nothing that happens later
    changes the controller, but that [expandMenu] resumes and its
    [finally] block clears [inFlightExpand]. *)
Theorem scene_expands_only_after_all_assemblies
  (staggerMs durationMs : option float) (measures : nat -> bool)
  (evs : list HomeScene.Event) :
  let m := HomeScene.run (HomeScene.started staggerMs durationMs measures) evs in
  HomeScene.Controller.state (HomeScene.Machine.controller m)
  = HomeScene.expanded ->
  (exists before promises,
     List.length promises = 4%nat
     /\ HomeScene.Machine.effects m
        = before
          ++ HomeScene.expansionEffects (orElse staggerMs 350%float)
               (orElse durationMs 1100%float) promises)
  /\ forall later,
       HomeScene.run m later = m
       \/ HomeScene.run m later = HomeScene.clearInFlight m.
Proof.
  intros m Hexp.
  pose proof (HomeSceneFacts.phase_run evs _
                (HomeSceneFacts.phase_started staggerMs durationMs measures))
    as Hp.
  destruct (HomeSceneFacts.run_options evs
              (HomeScene.started staggerMs durationMs measures)) as [O1 O2].
  fold m in Hp, O1, O2. cbn in O1, O2.
  destruct Hp as [Hs Hi He | before error Hs Hi He
                  | promises before Hs Hl Hi He
                  | index promises before Hs Hn Hl Hi He
                  | promises before Hs Hl Hi He
                  | promises before Hs Hl Hi He];
    try congruence.
  - split.
    + exists before, promises. split; [exact Hl |].
      rewrite He, O1, O2. reflexivity.
    + intros later. apply HomeSceneFacts.run_expanded; [exact Hs |].
      intros a Ha. rewrite Hi in Ha. now injection Ha as <-.
  - split.
    + exists before, promises. split; [exact Hl |].
      rewrite He, O1, O2. reflexivity.
    + intros later. apply HomeSceneFacts.run_expanded; [exact Hs |].
      intros a Ha. rewrite Hi in Ha. discriminate Ha.
Qed.

Lemma scene_expands_only_after_all_assemblies_witness :
  (exists before promises,
     List.length promises = 4%nat
     /\ HomeScene.Machine.effects
          (HomeScene.run (HomeScene.started None None (fun _ => true))
             [HomeScene.ExpandMenu; HomeScene.TimerFires;
              HomeScene.ExpandMenu; HomeScene.TimerFires;
              HomeScene.TimerFires; HomeScene.AllSettle None])
        = before
          ++ HomeScene.expansionEffects (orElse None 350%float)
               (orElse None 1100%float) promises)
  /\ forall later,
       HomeScene.run
         (HomeScene.run (HomeScene.started None None (fun _ => true))
            [HomeScene.ExpandMenu; HomeScene.TimerFires;
             HomeScene.ExpandMenu; HomeScene.TimerFires;
             HomeScene.TimerFires; HomeScene.AllSettle None])
         later
       = HomeScene.run (HomeScene.started None None (fun _ => true))
           [HomeScene.ExpandMenu; HomeScene.TimerFires;
            HomeScene.ExpandMenu; HomeScene.TimerFires;
            HomeScene.TimerFires; HomeScene.AllSettle None]
       \/ HomeScene.run
            (HomeScene.run (HomeScene.started None None (fun _ => true))
               [HomeScene.ExpandMenu; HomeScene.TimerFires;
                HomeScene.ExpandMenu; HomeScene.TimerFires;
                HomeScene.TimerFires; HomeScene.AllSettle None])
            later
          = HomeScene.clearInFlight
              (HomeScene.run (HomeScene.started None None (fun _ => true))
                 [HomeScene.ExpandMenu; HomeScene.TimerFires;
                  HomeScene.ExpandMenu; HomeScene.TimerFires;
                  HomeScene.TimerFires; HomeScene.AllSettle None]).
Proof.
  apply (scene_expands_only_after_all_assemblies None None (fun _ => true)
           [HomeScene.ExpandMenu; HomeScene.TimerFires;
            HomeScene.ExpandMenu; HomeScene.TimerFires;
            HomeScene.TimerFires; HomeScene.AllSettle None]).
  reflexivity.
Defined.

(** X26 ([HomeSceneController.expandMenu], lines 62-64 and 71-74).
    Whenever [inFlightExpand] is not set, either [expandMenu] has never been
    called, or the last expansion failed (a slot could not be measured,
    or [Promise.all] was rejected), its last acts were to set the state
    to [collapsed] and to reject with the error, and the state is
    [collapsed], so that [expandMenu] can be called again; or the last
    expansion succeeded and the state is [expanded]. *)
Theorem scene_at_rest_is_collapsed_or_expanded
  (staggerMs durationMs : option float) (measures : nat -> bool)
  (evs : list HomeScene.Event) :
  let m := HomeScene.run (HomeScene.started staggerMs durationMs measures) evs in
  HomeScene.Controller.inFlightExpand (HomeScene.Machine.controller m) = None ->
  (HomeScene.Machine.effects m = []
   /\ HomeScene.Controller.state (HomeScene.Machine.controller m)
      = HomeScene.collapsed)
  \/ (HomeScene.Controller.state (HomeScene.Machine.controller m)
      = HomeScene.collapsed
      /\ exists before error,
           HomeScene.Machine.effects m
           = before
             ++ [HomeScene.StateChanged HomeScene.collapsed;
                 HomeScene.Settled (Some error)])
  \/ (HomeScene.Controller.state (HomeScene.Machine.controller m)
      = HomeScene.expanded
      /\ exists before,
           HomeScene.Machine.effects m
           = before
             ++ [HomeScene.StateChanged HomeScene.expanded;
                 HomeScene.Settled None]).
Proof.
  intros m Hidle.
  pose proof (HomeSceneFacts.phase_run evs _
                (HomeSceneFacts.phase_started staggerMs durationMs measures))
    as Hp.
  fold m in Hp.
  destruct Hp as [Hs Hi He | before error Hs Hi He
                  | promises before Hs Hl Hi He
                  | index promises before Hs Hn Hl Hi He
                  | promises before Hs Hl Hi He
                  | promises before Hs Hl Hi He];
    try congruence.
  - destruct He as [He | He]; [left | right; left]; now split.
  - right. right. split; [exact Hs |].
    repeat (destruct promises as [| ? promises]; try discriminate Hl).
    eexists. rewrite He. unfold HomeScene.expansionEffects.
    cbn [HomeScene.assemblies HomeScene.MENU_SLOT_IDS Nat.ltb Nat.leb app].
    match goal with |- before ++ ?l = _ =>
      change l with (firstn 13 l ++ skipn 13 l)
    end.
    rewrite app_assoc. reflexivity.
Qed.

Lemma scene_at_rest_is_collapsed_or_expanded_witness :
  HomeScene.Controller.state
    (HomeScene.Machine.controller
       (HomeScene.run (HomeScene.started None None (fun n => Nat.eqb n 0))
          [HomeScene.ExpandMenu; HomeScene.TimerFires;
           HomeScene.ExpandMenuResumes]))
  = HomeScene.collapsed
  /\ HomeScene.Machine.effects
       (HomeScene.run (HomeScene.started None None (fun n => Nat.eqb n 0))
          [HomeScene.ExpandMenu; HomeScene.TimerFires;
           HomeScene.ExpandMenuResumes])
     = [HomeScene.StateChanged HomeScene.expanding;
        HomeScene.RectRefreshed menu_photo true;
        HomeScene.AssembleCalled menu_photo 1100 0%nat;
        HomeScene.TimerSet 350;
        HomeScene.RectRefreshed menu_video false;
        HomeScene.StateChanged HomeScene.collapsed;
        HomeScene.Settled (Some (HomeScene.NoMeasurableMenuRect menu_video))].
Proof.
  destruct (scene_at_rest_is_collapsed_or_expanded None None
              (fun n => Nat.eqb n 0)
              [HomeScene.ExpandMenu; HomeScene.TimerFires;
               HomeScene.ExpandMenuResumes] eq_refl)
    as [[H _] | [[H _] | [H _]]].
  - discriminate H.
  - split; [exact H | reflexivity].
  - discriminate H.
Defined.
